(** * b4: a 4-bit opcode virtual machine and its one-pass assembler

    Shallow embedding of [b4.c].  The C program keeps its whole state in
    static globals; here they are the fields of one record, [machine],
    threaded explicitly through every function.

    Conventions of the embedding:
    - [T], [P] and [int] values are [Z]; arithmetic on operands ([T] is
      [int32_t]) wraps around at 32 bits ([wrap32]).
    - The static arrays [st], [fr], [fn] and the heap blocks [code], [jtbl]
      are lists indexed by [Z]; an access outside the object has no defined
      behaviour in C and prints nothing, which the embedding records as the
      outcome [Undef], distinct from the [Exit] of a [printf]/[exit(-1)]
      path.  [Exit] keeps the message, not what was printed before it.
    - The assembler's buffer [q] comes from [malloc]: a cell holds no
      definite byte until it is assigned, and reading such a cell is
      [Undef] as well.
    - The operands of [pop+pop], [pop-pop], [pop*pop] are evaluated left to
      right and the store of [push] comes last (C leaves the order open),
      as the comments of the opcode table say ("pop X, pop Y, push X-Y")
      and as the header's example [?-] ("negate") requires.
    - Source text is a list of [char] values; for the ASCII text of the
      statements these are the character codes.
    - Loops that the C code does not bound take a fuel argument.  The
      bounds given to the inner loops are never reached ([exe_op_fuel],
      [b4asm_fuel]); only [exe] and [frloop], which need not terminate, can
      come out as [OutOfFuel]. *)

From Stdlib Require Import ZArith List Lia Bool String Ascii.
From stdpp Require Import base tactics option list.

Open Scope Z_scope.

(** ** Outcomes *)

(** The [printf]/[exit(-1)] paths of the source. *)
Inductive fatal : Type :=
| BadBCD (c : Z)            (* "Bad BCD `%d`" *)
| BadFunction (id : Z)      (* "Bad function `%d`" *)
| NoMatchDfn                (* "Couldn't match `:`" *)
| NoMatch (open : Z)        (* "Couldn't match `%X`" *)
| NameTableOverflow         (* "Name table overflow." *)
| NameTooLong               (* "Name is too long: %s..." *)
| UnterminatedQuote         (* "Unterminated quote" *)
| BadOpcode (c : Z)         (* "Bad opcode `%c`" *)
| Hlt.                      (* the hlt built-in: [exit(-1)], no message *)

(** Accesses outside an object, or reads of a byte never written. *)
Inductive undef : Type :=
| StOOB (i : Z)
| FrOOB (i : Z)
| FnOOB (i : Z)
| CodeOOB (i : Z)
| JtblOOB (i : Z)
| BufOOB (i : Z)
| BufUninit (i : Z)
| NameOOB.

Inductive result (A : Type) : Type :=
| Ok (a : A)
| Exit (f : fatal)
| Undef (u : undef)
| OutOfFuel.
Arguments Ok {A} a.
Arguments Exit {A} f.
Arguments Undef {A} u.
Arguments OutOfFuel {A}.

#[global] Instance result_ret : MRet result := λ A a, Ok a.
#[global] Instance result_bind : MBind result := λ A B f r,
  match r with
  | Ok a => f a
  | Exit e => Exit e
  | Undef u => Undef u
  | OutOfFuel => OutOfFuel
  end.

Definition or_undef {A} (u : undef) (o : option A) : result A :=
  match o with Some a => Ok a | None => Undef u end.

(** ** Machine integers and arrays *)

Definition wrap32 (z : Z) : Z := (z + 2^31) mod 2^32 - 2^31.

Definition zget {A} (l : list A) (i : Z) : option A :=
  if bool_decide (0 ≤ i) then l !! Z.to_nat i else None.

Definition zset {A} (l : list A) (i : Z) (x : A) : option (list A) :=
  if bool_decide (0 ≤ i < Z.of_nat (length l))
  then Some (<[Z.to_nat i := x]> l) else None.

(** ** Constants *)

Definition MAXSP : Z := 1024.
Definition MAXFR : Z := 1024.
Definition MAXFN : Z := 1024.
Definition MAXNP : Z := 1024.
Definition MAXNM : Z := 256.
Definition BADIP : Z := -1.

Definition C_BCD : Z := 0.
Definition C_ADD : Z := 1.
Definition C_SUB : Z := 2.
Definition C_MUL : Z := 3.
Definition C_RWS : Z := 4.
Definition C_RDA : Z := 5.
Definition C_STA : Z := 6.
Definition C_POP : Z := 7.
Definition C_SWP : Z := 8.
Definition C_DFN : Z := 9.
Definition C_RUN : Z := 10.
Definition C_RET : Z := 11.
Definition C_JAO : Z := 12.
Definition C_JAC : Z := 13.
Definition C_JBO : Z := 14.
Definition C_JBC : Z := 15.

Definition BCD_N : Z := 10.
Definition BCD_P : Z := 11.

Definition SI_TOP : Z := 0.
Definition SI_SAY : Z := 1.
Definition SI_HLT : Z := 2.

(** ** The global state *)

Record frame : Type := Frame { f_start : Z; f_end : Z; f_ip : Z; f_ra : Z }.
Record func : Type := Func { fn_start : Z; fn_end : Z }.

(** What the program writes to standard output. *)
Inductive event : Type :=
| Putchar (c : Z)           (* [putchar(c)] *)
| PrintTop (v : Z)          (* [printf("top: %d\n", v)] *)
| PrintCodeSize (n : Z).    (* [printf("Code size: %d bytes\n", n)] *)

Record machine : Type := Machine {
  st : list Z;          (* T st[MAXSP] *)
  sp : Z;
  fp : Z;
  fr : list frame;      (* fr[MAXFN] *)
  fn : list func;       (* fn[MAXFR] *)
  nm : list (list Z);   (* nm[0..np), np = length nm *)
  code : list Z;        (* packed bytes, two nibbles each *)
  jtbl : list Z;
  ip : Z;
  start : Z;
  end_ : Z;
  ra : Z;
  ready : bool;
  out : list event      (* most recent last *)
}.

Definition set_st (v : list Z) (m : machine) : machine :=
  Machine v (sp m) (fp m) (fr m) (fn m) (nm m) (code m) (jtbl m)
          (ip m) (start m) (end_ m) (ra m) (ready m) (out m).
Definition set_sp (v : Z) (m : machine) : machine :=
  Machine (st m) v (fp m) (fr m) (fn m) (nm m) (code m) (jtbl m)
          (ip m) (start m) (end_ m) (ra m) (ready m) (out m).
Definition set_fp (v : Z) (m : machine) : machine :=
  Machine (st m) (sp m) v (fr m) (fn m) (nm m) (code m) (jtbl m)
          (ip m) (start m) (end_ m) (ra m) (ready m) (out m).
Definition set_fr (v : list frame) (m : machine) : machine :=
  Machine (st m) (sp m) (fp m) v (fn m) (nm m) (code m) (jtbl m)
          (ip m) (start m) (end_ m) (ra m) (ready m) (out m).
Definition set_fn (v : list func) (m : machine) : machine :=
  Machine (st m) (sp m) (fp m) (fr m) v (nm m) (code m) (jtbl m)
          (ip m) (start m) (end_ m) (ra m) (ready m) (out m).
Definition set_nm (v : list (list Z)) (m : machine) : machine :=
  Machine (st m) (sp m) (fp m) (fr m) (fn m) v (code m) (jtbl m)
          (ip m) (start m) (end_ m) (ra m) (ready m) (out m).
Definition set_code (v : list Z) (m : machine) : machine :=
  Machine (st m) (sp m) (fp m) (fr m) (fn m) (nm m) v (jtbl m)
          (ip m) (start m) (end_ m) (ra m) (ready m) (out m).
Definition set_jtbl (v : list Z) (m : machine) : machine :=
  Machine (st m) (sp m) (fp m) (fr m) (fn m) (nm m) (code m) v
          (ip m) (start m) (end_ m) (ra m) (ready m) (out m).
Definition set_ip (v : Z) (m : machine) : machine :=
  Machine (st m) (sp m) (fp m) (fr m) (fn m) (nm m) (code m) (jtbl m)
          v (start m) (end_ m) (ra m) (ready m) (out m).
Definition set_start (v : Z) (m : machine) : machine :=
  Machine (st m) (sp m) (fp m) (fr m) (fn m) (nm m) (code m) (jtbl m)
          (ip m) v (end_ m) (ra m) (ready m) (out m).
Definition set_end (v : Z) (m : machine) : machine :=
  Machine (st m) (sp m) (fp m) (fr m) (fn m) (nm m) (code m) (jtbl m)
          (ip m) (start m) v (ra m) (ready m) (out m).
Definition set_ra (v : Z) (m : machine) : machine :=
  Machine (st m) (sp m) (fp m) (fr m) (fn m) (nm m) (code m) (jtbl m)
          (ip m) (start m) (end_ m) v (ready m) (out m).
Definition set_ready (v : bool) (m : machine) : machine :=
  Machine (st m) (sp m) (fp m) (fr m) (fn m) (nm m) (code m) (jtbl m)
          (ip m) (start m) (end_ m) (ra m) v (out m).
Definition emit_out (e : event) (m : machine) : machine :=
  Machine (st m) (sp m) (fp m) (fr m) (fn m) (nm m) (code m) (jtbl m)
          (ip m) (start m) (end_ m) (ra m) (ready m) (out m ++ [e]).

(** ** Operand stack: [push], [pop], [top] *)

(** [#define push(v) (st[sp++] = (v))] *)
Definition push (v : Z) (m : machine) : result machine :=
  st' ← or_undef (StOOB (sp m)) (zset (st m) (sp m) v);
  Ok (set_sp (sp m + 1) (set_st st' m)).

(** [#define pop (st[--sp])]: no emptiness test. *)
Definition pop (m : machine) : result (Z * machine) :=
  let sp' := sp m - 1 in
  v ← or_undef (StOOB sp') (zget (st m) sp');
  Ok (v, set_sp sp' m).

(** [#define top (st[sp-1])] *)
Definition top (m : machine) : result Z :=
  or_undef (StOOB (sp m - 1)) (zget (st m) (sp m - 1)).

(** ** Nibble access *)

(** [#define pk ((ip&1) ? code[ip/2]>>4 : code[ip/2]&0xF)], with C's
    truncating division. *)
Definition nibble (code : list Z) (ip : Z) : result Z :=
  b ← or_undef (CodeOOB (Z.quot ip 2)) (zget code (Z.quot ip 2));
  Ok (if Z.land ip 1 =? 0 then Z.land b 15 else Z.shiftr b 4).

Definition pk (m : machine) : result Z := nibble (code m) (ip m).

(** [#define rd ...]: [pk], then [ip++]. *)
Definition rd (m : machine) : result (Z * machine) :=
  c ← pk m; Ok (c, set_ip (ip m + 1) m).

(** Every loop over the code reads a nibble per iteration, so it runs at
    most this many times before leaving the block. *)
Definition code_fuel (code : list Z) : nat := S (S (2 * length code)).
Arguments code_fuel : simpl never.

(** ** BCD state *)

(** The [for(;;) switch] of [bcd]; yields the value and the new [ip]. *)
Fixpoint bcd_loop (fuel : nat) (code : list Z) (ip v b : Z) : result (Z * Z) :=
  match fuel with
  | O => OutOfFuel
  | S fuel =>
    c ← nibble code ip;
    let ip := ip + 1 in
    let k := Z.land c 15 in
    if (0 <=? k) && (k <=? 9) then
      bcd_loop fuel code ip (wrap32 (v * 10 + c)) (wrap32 (b * 10))
    else if (k =? BCD_N) || (k =? BCD_P) then
      Ok (wrap32 (v + wrap32 (b * (if c =? BCD_P then 1 else 0))), ip)
    else Exit (BadBCD c)
  end.

Definition bcd (m : machine) : result machine :=
  '(v, ip') ← bcd_loop (code_fuel (code m)) (code m) (ip m) 0 1;
  push v (set_ip ip' m).

(** ** Built-in functions *)

(** [while (s && st[s]) s--;] *)
Fixpoint say_scan (fuel : nat) (st : list Z) (s : Z) : result Z :=
  match fuel with
  | O => OutOfFuel
  | S fuel =>
    if s =? 0 then Ok s
    else
      v ← or_undef (StOOB s) (zget st s);
      if v =? 0 then Ok s else say_scan fuel st (s - 1)
  end.

(** [while (s < e) putchar(st[s++]);] with [n = e - s] iterations left. *)
Fixpoint say_print (n : nat) (s : Z) (m : machine) : result machine :=
  match n with
  | O => Ok m
  | S n =>
    v ← or_undef (StOOB s) (zget (st m) s);
    say_print n (s + 1) (emit_out (Putchar (v mod 256)) m)
  end.

Definition swi (id : Z) (m : machine) : result machine :=
  if id =? SI_TOP then
    v ← top m; Ok (emit_out (PrintTop v) m)
  else if id =? SI_SAY then
    let e := sp m in
    s ← say_scan (S (Z.to_nat (sp m))) (st m) (sp m);
    let m := set_sp s m in
    m ← say_print (Z.to_nat (e - s)) s m;
    Ok (emit_out (Putchar 10) m)
  else if id =? SI_HLT then Exit Hlt
  else Exit (BadFunction id).

(** ** Function definition *)

(** [for (; ip<end && pk != BCD_N && pk != BCD_P; ip++);] *)
Fixpoint dfn_skip (fuel : nat) (code : list Z) (ip end_ : Z) : result Z :=
  match fuel with
  | O => OutOfFuel
  | S fuel =>
    if ip <? end_ then
      c ← nibble code ip;
      if negb (c =? BCD_N) && negb (c =? BCD_P)
      then dfn_skip fuel code (ip + 1) end_
      else Ok ip
    else Ok ip
  end.

(** The outer [for] of [dfn_close]; yields the returned [++ip]. *)
Fixpoint dfn_close_loop (fuel : nat) (code : list Z) (ip end_ : Z) : result Z :=
  match fuel with
  | O => OutOfFuel
  | S fuel =>
    if ip <? end_ then
      c ← nibble code ip;
      if c =? C_DFN then Ok (ip + 1)
      else
        ip ← (if c =? C_BCD then dfn_skip (code_fuel code) code ip end_
              else Ok ip);
        dfn_close_loop fuel code (ip + 1) end_
    else Exit NoMatchDfn
  end.

Definition dfn_close (m : machine) : result (Z * machine) :=
  p ← dfn_close_loop (code_fuel (code m)) (code m) (ip m) (end_ m);
  Ok (p, set_ip p m).

(** [fn[id].start = ip; fn[id].end = dfn_close()-1;] *)
Definition dfn (id : Z) (m : machine) : result machine :=
  f ← or_undef (FnOOB id) (zget (fn m) id);
  fn1 ← or_undef (FnOOB id) (zset (fn m) id (Func (ip m) (fn_end f)));
  let m := set_fn fn1 m in
  '(p, m) ← dfn_close m;
  f ← or_undef (FnOOB id) (zget (fn m) id);
  fn2 ← or_undef (FnOOB id) (zset (fn m) id (Func (fn_start f) (p - 1)));
  Ok (set_fn fn2 m).

(** ** Function call *)

Definition run (id : Z) (m : machine) : result machine :=
  f ← or_undef (FnOOB id) (zget (fn m) id);
  if fn_end f =? 0 then swi id m
  else
    fr' ← or_undef (FrOOB (fp m))
          (zset (fr m) (fp m) (Frame (start m) (end_ m) (ip m) (ra m)));
    let m := set_fp (fp m + 1) (set_fr fr' m) in
    let m := set_start (fn_start f) m in
    let m := set_end (fn_end f) m in
    let m := set_ip (start m) m in
    Ok (set_ra 0 m).

(** ** Indexed stack access *)

Definition rw (index : Z) (m : machine) : result machine :=
  if 0 <=? index then
    v ← or_undef (StOOB (sp m - 1 - index)) (zget (st m) (sp m - 1 - index));
    push v m
  else
    '(v, m) ← pop m;
    st' ← or_undef (StOOB (sp m + index)) (zset (st m) (sp m + index) v);
    Ok (set_st st' m).

(** ** JMP state *)

(** The [for (; ip!=end; ip+=inc)] of [jmp]; yields the [++ip] stored in
    the table. *)
Fixpoint jmp_scan (fuel : nat) (code : list Z) (open close inc end_ : Z)
         (ip depth : Z) : result Z :=
  match fuel with
  | O => OutOfFuel
  | S fuel =>
    if ip =? end_ then Exit (NoMatch open)
    else
      c ← nibble code ip;
      if c =? open then
        jmp_scan fuel code open close inc end_ (ip + inc) (depth + 1)
      else if c =? close then
        if depth =? 0 then Ok (ip + 1)
        else jmp_scan fuel code open close inc end_ (ip + inc) (depth - 1)
      else jmp_scan fuel code open close inc end_ (ip + inc) depth
  end.

Definition jmp (open close inc end_ : Z) (m : machine) : result machine :=
  target ← or_undef (JtblOOB (ip m)) (zget (jtbl m) (ip m));
  if negb (target =? BADIP) then Ok (set_ip target m)
  else
    let sip := ip m in
    t ← jmp_scan (code_fuel (code m)) (code m) open close inc end_ (ip m) 0;
    jt ← or_undef (JtblOOB sip) (zset (jtbl m) sip t);
    Ok (set_ip t (set_jtbl jt m)).

(** The same resolver with the table lookup left out: every jump is
    resolved by the scan (the table is still written, never read). *)
Definition jmp_fresh (open close inc end_ : Z) (m : machine) : result machine :=
  let sip := ip m in
  t ← jmp_scan (code_fuel (code m)) (code m) open close inc end_ (ip m) 0;
  jt ← or_undef (JtblOOB sip) (zset (jtbl m) sip t);
  Ok (set_ip t (set_jtbl jt m)).

(** ** EXE state *)

Inductive ctl : Type := Continue | Return.

Section Interpreter.

(** The branch resolver in use: [jmp] for the program as written. *)
Variable resolve : Z → Z → Z → Z → machine → result machine.

(** [#define LJ(open,close,r)], used with [r = ra]. *)
Definition LJ (open close : Z) (m : machine) : result machine :=
  if negb (ra m =? 0) then
    let m := set_ra (wrap32 (ra m - 1)) m in
    let m := set_ip (ip m - 2) m in
    resolve open close (-1) (start m) m
  else Ok m.

Definition continue (r : result machine) : result (ctl * machine) :=
  m ← r; Ok (Continue, m).

(** One iteration of the [while (ip < end) switch(rd&0xF)] of [exe]. *)
Definition exe_op (m : machine) : result (ctl * machine) :=
  '(c, m) ← rd m;
  let c := Z.land c 15 in
  if c =? C_BCD then continue (bcd m)
  else if c =? C_ADD then
    '(x, m) ← pop m; '(y, m) ← pop m; continue (push (wrap32 (x + y)) m)
  else if c =? C_SUB then
    '(x, m) ← pop m; '(y, m) ← pop m; continue (push (wrap32 (x - y)) m)
  else if c =? C_MUL then
    '(x, m) ← pop m; '(y, m) ← pop m; continue (push (wrap32 (x * y)) m)
  else if c =? C_RWS then '(i, m) ← pop m; continue (rw i m)
  else if c =? C_RDA then '(v, m) ← pop m; continue (Ok (set_ra v m))
  else if c =? C_STA then continue (push (ra m) m)
  else if c =? C_POP then '(_, m) ← pop m; continue (Ok m)
  else if c =? C_SWP then
    '(a, m) ← pop m; '(b, m) ← pop m; m ← push a m; continue (push b m)
  else if c =? C_DFN then '(id, m) ← pop m; continue (dfn id m)
  else if c =? C_RUN then '(id, m) ← pop m; continue (run id m)
  else if c =? C_RET then Ok (Return, m)
  else if c =? C_JAO then
    '(v, m) ← pop m;
    if v =? 0 then continue (resolve C_JAO C_JAC 1 (end_ m) m)
    else continue (Ok m)
  else if c =? C_JAC then continue (LJ C_JAC C_JAO m)
  else if c =? C_JBO then
    '(v, m) ← pop m;
    if v <=? 0 then continue (resolve C_JBO C_JBC 1 (end_ m) m)
    else continue (Ok m)
  else continue (LJ C_JBC C_JBO m).

Fixpoint exe (fuel : nat) (m : machine) : result machine :=
  match fuel with
  | O => OutOfFuel
  | S fuel =>
    if ip m <? end_ m then
      '(k, m) ← exe_op m;
      match k with
      | Return => Ok m
      | Continue => exe fuel m
      end
    else Ok m
  end.

(** [for (;;) { exe(); if (!--fp) return; ip = fr[fp].ip; ... }] *)
Fixpoint frloop (fuel : nat) (m : machine) : result machine :=
  match fuel with
  | O => OutOfFuel
  | S fuel' =>
    m ← exe fuel m;
    let m := set_fp (fp m - 1) m in
    if fp m =? 0 then Ok m
    else
      f ← or_undef (FrOOB (fp m)) (zget (fr m) (fp m));
      let m := set_ip (f_ip f) m in
      let m := set_start (f_start f) m in
      let m := set_end (f_end f) m in
      let m := set_ra (f_ra f) m in
      frloop fuel' m
  end.

End Interpreter.

Arguments exe : simpl never.
Arguments frloop : simpl never.

(** ** Assembler *)

(** Source text is a C string: a list of [char] values, followed in memory
    by a NUL.  For text typed as a Rocq string the values are the ASCII
    codes (for bytes above 127 the sign of [char] on the platform would
    decide the value; no statement below has such a byte). *)
Definition ch (a : ascii) : Z := Z.of_N (N_of_ascii a).
Definition codes (s : string) : list Z := map ch (list_ascii_of_string s).

Fixpoint strlen (s : list Z) : Z :=
  match s with
  | [] => 0
  | c :: s => if c =? 0 then 0 else 1 + strlen s
  end.

(** [*p] for [p] up to the terminating NUL. *)
Definition char_at (s : list Z) (p : Z) : result Z :=
  if p =? Z.of_nat (length s) then Ok 0
  else or_undef (BufOOB p) (zget s p).

(** <ctype.h> in the "C" locale. *)
Definition isdigit (c : Z) : bool := (48 <=? c) && (c <=? 57).
Definition isalpha (c : Z) : bool :=
  ((65 <=? c) && (c <=? 90)) || ((97 <=? c) && (c <=? 122)).
Definition isalnum (c : Z) : bool := isalpha c || isdigit c.

(** The output buffer [q]: [malloc]ed, so a byte holds nothing definite
    until it is first assigned. *)
Definition buffer : Type := list (option Z).

(** [#define emit(c) do {if (ip&1) q[ip++/2]|=(c)<<4; else q[ip++/2]=(c);}
    while(0)] on [uint8_t] cells. *)
Definition emit (q : buffer) (ip : Z) (c : Z) : result (buffer * Z) :=
  let i := Z.quot ip 2 in
  if Z.land ip 1 =? 0 then
    q' ← or_undef (BufOOB i) (zset q i (Some (c mod 256)));
    Ok (q', ip + 1)
  else
    cell ← or_undef (BufOOB i) (zget q i);
    b ← or_undef (BufUninit i) cell;
    q' ← or_undef (BufOOB i)
         (zset q i (Some (Z.lor b (Z.shiftl c 4) mod 256)));
    Ok (q', ip + 1).

Fixpoint emit_list (q : buffer) (ip : Z) (cs : list Z) : result (buffer * Z) :=
  match cs with
  | [] => Ok (q, ip)
  | c :: cs => '(q, ip) ← emit q ip c; emit_list q ip cs
  end.

(** [for (int i = 0; i < np; i++) if (!strcmp(nm[i],name)) return i;] *)
Fixpoint sym_find (nm : list (list Z)) (name : list Z) (i : Z) : option Z :=
  match nm with
  | [] => None
  | n :: nm => if bool_decide (n = name) then Some i
               else sym_find nm name (i + 1)
  end.

Definition sym (name : list Z) (nm : list (list Z))
  : result (Z * list (list Z)) :=
  match sym_find nm name 0 with
  | Some i => Ok (i, nm)
  | None =>
    let np := Z.of_nat (length nm) in
    if np =? MAXNP then Exit NameTableOverflow
    else Ok (np, nm ++ [name])
  end.

(** [do { *n++ = v%10; v /= 10; } while (v);] into [name[MAXNM]]; the
    digits are returned as the code reads them back, last written first. *)
Fixpoint bcd_digits (room : nat) (v : Z) (acc : list Z) : result (list Z) :=
  match room with
  | O => Undef NameOOB
  | S room =>
    let acc := Z.rem v 10 :: acc in
    let v := Z.quot v 10 in
    if v =? 0 then Ok acc else bcd_digits room v acc
  end.

Definition emitBCD (q : buffer) (ip : Z) (v : Z) : result (buffer * Z) :=
  ds ← bcd_digits (Z.to_nat MAXNM) v [];
  match ds with
  | [] => Undef NameOOB
  | b :: rest =>
    '(q, ip) ← emit q ip C_BCD;
    '(q, ip) ← (if 1 <? b then emit q ip b else Ok (q, ip));
    '(q, ip) ← emit_list q ip rest;
    emit q ip (if b =? 1 then 11 else 10)
  end.

Record asm : Type := Asm {
  a_q : buffer;
  a_ip : Z;
  a_nm : list (list Z);
  a_p : Z;
  a_run : bool
}.

(** [while (isalnum( *p)||*p=='_') { *n++ = *p++; if (n == e) ... }] *)
Fixpoint ident_loop (fuel : nat) (s : list Z) (p : Z) (name : list Z)
  : result (list Z * Z) :=
  match fuel with
  | O => OutOfFuel
  | S fuel =>
    c ← char_at s p;
    if isalnum c || (c =? ch "_") then
      let name := name ++ [c] in
      let p := p + 1 in
      if Z.of_nat (length name) =? MAXNM then Exit NameTooLong
      else ident_loop fuel s p name
    else Ok (name, p)
  end.

(** [while (isdigit( *p)) emit( *p++-'0');] *)
Fixpoint digit_loop (fuel : nat) (s : list Z) (q : buffer) (ip p : Z)
  : result (buffer * Z * Z) :=
  match fuel with
  | O => OutOfFuel
  | S fuel =>
    c ← char_at s p;
    if isdigit c then
      '(q, ip) ← emit q ip (c - ch "0");
      digit_loop fuel s q ip (p + 1)
    else Ok (q, ip, p)
  end.

(** [while (p<end && *p != '\'') { if ( *p == '\\') p++;
    ip = emitBCD(q, ip, *p++); }] *)
Fixpoint quote_loop (fuel : nat) (s : list Z) (end_ : Z) (q : buffer)
         (ip p : Z) : result (buffer * Z * Z) :=
  match fuel with
  | O => OutOfFuel
  | S fuel =>
    if p <? end_ then
      c ← char_at s p;
      if negb (c =? ch "'") then
        let p := if c =? ch "\" then p + 1 else p in
        c ← char_at s p;
        '(q, ip) ← emitBCD q ip c;
        quote_loop fuel s end_ q ip (p + 1)
      else Ok (q, ip, p)
    else Ok (q, ip, p)
  end.

Definition text_fuel (s : list Z) : nat := S (S (length s)).

Definition emit1 (c : Z) (a : asm) : result asm :=
  '(q, ip) ← emit (a_q a) (a_ip a) c;
  Ok (Asm q ip (a_nm a) (a_p a) (a_run a)).

(** One iteration of the [while (p < end)] of [b4asmS]. *)
Definition asm_step (s : list Z) (end_ : Z) (a : asm) : result asm :=
  c ← char_at s (a_p a);
  let a := Asm (a_q a) (a_ip a) (a_nm a) (a_p a + 1) (a_run a) in
  if isalpha c || (c =? ch "_") then
    '(name, p) ← ident_loop (text_fuel s) s (a_p a) [c];
    '(id, nm) ← sym name (a_nm a);
    '(q, ip) ← emitBCD (a_q a) (a_ip a) id;
    let a := Asm q ip nm p (a_run a) in
    if a_run a then
      '(q, ip) ← emit (a_q a) (a_ip a) C_RUN;
      Ok (Asm q ip (a_nm a) (a_p a) false)
    else Ok a
  else if c =? ch "'" then
    '(q, ip) ← emitBCD (a_q a) (a_ip a) 0;
    '(q, ip, p) ← quote_loop (text_fuel s) s end_ q ip (a_p a);
    if p =? end_ then Exit UnterminatedQuote
    else Ok (Asm q ip (a_nm a) (p + 1) (a_run a))
  else if (c =? ch " ") || (c =? 10) then Ok a
  else if isdigit c then
    let b := c - ch "0" in
    '(q, ip) ← emit (a_q a) (a_ip a) C_BCD;
    '(q, ip) ← (if 1 <? b then emit q ip b else Ok (q, ip));
    '(q, ip, p) ← digit_loop (text_fuel s) s q ip (a_p a);
    '(q, ip) ← emit q ip (if b =? 1 then 11 else 10);
    Ok (Asm q ip (a_nm a) p (a_run a))
  else if c =? ch "+" then emit1 C_ADD a
  else if c =? ch "-" then emit1 C_SUB a
  else if c =? ch "*" then emit1 C_MUL a
  else if c =? ch "[" then emit1 C_JAO a
  else if c =? ch "]" then emit1 C_JAC a
  else if c =? ch "<" then emit1 C_JBO a
  else if c =? ch ">" then emit1 C_JBC a
  else if c =? ch ":" then emit1 C_DFN a
  else if c =? ch "." then
    c' ← char_at s (a_p a);
    if isalpha c' || (c' =? ch "_")
    then Ok (Asm (a_q a) (a_ip a) (a_nm a) (a_p a) true)
    else emit1 C_RUN a
  else if c =? ch "@" then emit1 C_RET a
  else if c =? ch "$" then emit1 C_RWS a
  else if c =? ch "!" then emit1 C_POP a
  else if c =? ch "," then emit1 C_SWP a
  else if c =? ch "=" then emit1 C_RDA a
  else if c =? ch "?" then emit1 C_STA a
  else if c =? ch "%" then
    a ← emit1 C_BCD a; a ← emit1 10 a; emit1 C_RWS a
  else Exit (BadOpcode c).

(** [b4asmS]; the result carries [p] and [*oip]. *)
Fixpoint b4asmS (fuel : nat) (s : list Z) (end_ : Z) (a : asm) : result asm :=
  match fuel with
  | O => OutOfFuel
  | S fuel =>
    if a_p a <? end_ then a ← asm_step s end_ a; b4asmS fuel s end_ a
    else Ok a
  end.

(** [memcpy(r, q, sz)] *)
Fixpoint copy_bytes (q : buffer) (i : Z) (n : nat) : result (list Z) :=
  match n with
  | O => Ok []
  | S n =>
    cell ← or_undef (BufOOB i) (zget q i);
    b ← or_undef (BufUninit i) cell;
    r ← copy_bytes q (i + 1) n;
    Ok (b :: r)
  end.

(** [b4asm]: yields the code block, [*osize] and the name table. *)
Definition b4asm (statement : list Z) (nm : list (list Z))
  : result (list Z * Z * list (list Z)) :=
  let insz := strlen statement in
  let q : buffer := replicate (Z.to_nat (insz * 2 + 100)) None in
  a ← b4asmS (text_fuel statement) statement insz (Asm q 0 nm 0 false);
  let sz := Z.quot (a_ip a + 1) 2 in
  r ← copy_bytes (a_q a) 0 (Z.to_nat sz);
  Ok (r, a_ip a, a_nm a).

(** ** Driver *)

Definition init (m : machine) : result machine :=
  '(_, n) ← sym (codes "top") (nm m);
  '(_, n) ← sym (codes "say") n;
  '(_, n) ← sym (codes "hlt") n;
  '(_, n) ← sym (codes "_entry") n;
  Ok (set_ready true (set_nm n m)).

Definition b4cmd_with (resolve : Z → Z → Z → Z → machine → result machine)
           (fuel : nat) (command : list Z) (m : machine) : result machine :=
  m ← (if ready m then Ok m else init m);
  '(r, csz, nm') ← b4asm command (nm m);
  let m := set_code r (set_nm nm' m) in
  let m := emit_out (PrintCodeSize (Z.quot (csz + 1) 2)) m in
  let m := set_jtbl (replicate (Z.to_nat csz) BADIP) m in
  '(entry, nm') ← sym (codes "_entry") (nm m);
  let m := set_nm nm' m in
  fn' ← or_undef (FnOOB entry) (zset (fn m) entry (Func 0 csz));
  let m := set_fn fn' m in
  m ← run entry m;
  m ← frloop resolve fuel m;
  Ok (set_jtbl [] (set_code [] m)).

Definition b4cmd : nat → list Z → machine → result machine := b4cmd_with jmp.

(** The statics at program start: all zero. *)
Definition boot : machine :=
  Machine (replicate (Z.to_nat MAXSP) 0) 0 0
          (replicate (Z.to_nat MAXFN) (Frame 0 0 0 0))
          (replicate (Z.to_nat MAXFR) (Func 0 0))
          [] [] [] 0 0 0 0 false [].

(** What [b4dump] shows: the register and the stack, bottom first here. *)
Definition stack (m : machine) : list Z := take (Z.to_nat (sp m)) (st m).

Definition b4 (fuel : nat) (src : string) : result machine :=
  b4cmd fuel (codes src) boot.

Definition dump (r : result machine) : option (Z * list Z) :=
  match r with Ok m => Some (ra m, stack m) | _ => None end.


(** * Vocabulary of the statements *)

(** The nibble at index [j] of the buffer, when its byte has been
    written. *)
Definition bnib (q : buffer) (j : Z) : option Z :=
  match zget q (Z.quot j 2) with
  | Some (Some b) => Some (if Z.land j 1 =? 0 then Z.land b 15 else Z.shiftr b 4)
  | _ => None
  end.

(** What [emit] relies on at an odd [ip]: the byte it ORs into holds only
    the low nibble written just before. *)
Definition buf_ok (q : buffer) (ip : Z) : Prop :=
  0 ≤ ip ∧
  (Z.land ip 1 ≠ 0 → ∃ b, zget q (Z.quot ip 2) = Some (Some b) ∧ 0 ≤ b < 16).

Definition room (q : buffer) (ip : Z) (n : Z) : Prop :=
  ip + n ≤ 2 * Z.of_nat (length q).

Definition is_nibble (c : Z) : Prop := 0 ≤ c < 16.

(** The nibbles [emitBCD] writes for the digit string [ds], most
    significant digit first. *)
Definition bcd_code (ds : list Z) : list Z :=
  match ds with
  | [] => []
  | b :: rest =>
    C_BCD :: (if 1 <? b then [b] else []) ++ rest ++ [if b =? 1 then 11 else 10]
  end.

(** Decimal notation, stated on its own: the value of a digit string and
    what makes a digit string the numeral of [v]. *)
Definition is_digit (d : Z) : Prop := 0 ≤ d ≤ 9.

Definition decimal (ds : list Z) : Z := fold_left (λ a d, a * 10 + d) ds 0.

Definition numeral (v : Z) (ds : list Z) : Prop :=
  Forall is_digit ds ∧ decimal ds = v ∧ ds ≠ [] ∧ (hd 0 ds = 0 → ds = [0]).

(** The decoder's two accumulators after reading the digits [es]. *)
Definition acc_v (v : Z) (es : list Z) : Z :=
  fold_left (λ a d, wrap32 (a * 10 + d)) es v.

Definition acc_b (b : Z) (n : nat) : Z :=
  Nat.iter n (λ b, wrap32 (b * 10)) b.

(** [holds code ip cs]: the code block has the nibbles [cs] from index
    [ip] on. *)
Definition holds (code : list Z) (ip : Z) (cs : list Z) : Prop :=
  ∀ k c, cs !! k = Some c → nibble code (ip + Z.of_nat k) = Ok c.

(** The nibbles of the buffer from [ip] up to [ip'], when all are
    written. *)
Definition emitted (q : buffer) (ip ip' : Z) : option (list Z) :=
  mapM (bnib q) (seqZ ip (ip' - ip)).

(** The function-body scan in the words of the specification, as a scan
    with two modes over the [n] nibbles left in the current range: outside
    a literal a DEFINE code ends the body and a BCD code opens a literal;
    inside a literal everything up to and including its terminator is
    passed over.  Yields the index of the terminating DEFINE code. *)
Fixpoint body_end (n : nat) (inlit : bool) (code : list Z) (pos : Z)
  : option Z :=
  match n with
  | O => None
  | S n =>
    match nibble code pos with
    | Ok c =>
      if inlit then
        body_end n (negb ((c =? BCD_N) || (c =? BCD_P))) code (pos + 1)
      else if c =? C_DFN then Some pos
      else body_end n (c =? C_BCD) code (pos + 1)
    | _ => None
    end
  end.

(** A DEFINE about to execute: the code of [f:2*:] with [f] interned as 4,
    the id pushed and [ip] on the DEFINE nibble. *)
Definition at_define : machine :=
  Machine [4; 0] 1 1 [] (replicate 8 (Func 0 0)) [] [64; 154; 32; 58; 9] []
          3 0 9 0 true [].

(** Two operands on the stack and [ip] on a SUB nibble. *)
Definition at_sub : machine :=
  Machine [5; 2; 0] 2 1 [] [] [] [2] [] 0 0 1 0 true [].

(** [sp] is between 0 and the size of [st]. *)
Definition stack_ok (m : machine) : Prop :=
  0 ≤ sp m ≤ Z.of_nat (length (st m)).

(** The opcodes whose first action is a [pop]. *)
Definition pops_first (c : Z) : Prop :=
  c = C_ADD ∨ c = C_SUB ∨ c = C_MUL ∨ c = C_RWS ∨ c = C_RDA ∨ c = C_POP ∨
  c = C_SWP ∨ c = C_DFN ∨ c = C_RUN ∨ c = C_JAO ∨ c = C_JBO.

(** The opcodes that pop twice whatever the values popped. *)
Definition pops_twice (c : Z) : Prop :=
  c = C_ADD ∨ c = C_SUB ∨ c = C_MUL ∨ c = C_SWP.

(** An empty stack and [ip] on an ADD nibble. *)
Definition at_add_empty : machine :=
  Machine (replicate 4 0) 0 1 [] [] [] [1] [] 0 0 1 0 true [].

(** The run as a sequence of turns.  A turn of the two nested loops
    [frloop]/[exe] is either one instruction or, when [exe] returns (range
    exhausted or RETURN), the frame pop of [frloop]. *)
Inductive turn : Type :=
| Resumed (m : machine)     (* the loops go on from [m] *)
| Finished (m : machine).   (* [frloop] returned *)

(** [if (!--fp) return; ip = fr[fp].ip; start = ...; end = ...; ra = ...] *)
Definition unwind (m : machine) : result turn :=
  let m := set_fp (fp m - 1) m in
  if fp m =? 0 then Ok (Finished m)
  else
    f ← or_undef (FrOOB (fp m)) (zget (fr m) (fp m));
    let m := set_ip (f_ip f) m in
    let m := set_start (f_start f) m in
    let m := set_end (f_end f) m in
    let m := set_ra (f_ra f) m in
    Ok (Resumed m).

Definition tick (m : machine) : result turn :=
  if ip m <? end_ m then
    '(k, m) ← exe_op jmp m;
    match k with
    | Continue => Ok (Resumed m)
    | Return => unwind m
    end
  else unwind m.

(** [run_above d m m']: turns lead from [m] to [m'] through states whose
    call depth stays above [d]. *)
Inductive run_above (d : Z) : machine → machine → Prop :=
| run_above_refl m : run_above d m m
| run_above_step m m1 m' :
    tick m = Ok (Resumed m1) → d < fp m1 → run_above d m1 m' →
    run_above d m m'.

(** [callee_run d m m']: from [m], above depth [d], the run first comes
    back to depth [d] in state [m']: the callee has returned. *)
Definition callee_run (d : Z) (m m' : machine) : Prop :=
  d < fp m ∧
  ∃ m_last, run_above d m m_last ∧ tick m_last = Ok (Resumed m') ∧ fp m' = d.

(** A call about to execute: the code of [dbl:2*:7=3 .dbl], with [dbl]
    defined, 7 in the register, 3 and the id on the stack, and [ip] on the
    CALL nibble. *)
Definition at_call : machine :=
  Machine [3; 4; 0; 0] 2 1 (replicate 4 (Frame 0 0 0 0))
          (<[4%nat := Func 4 8]> (replicate 8 (Func 0 0))) []
          [64; 154; 32; 58; 9; 167; 5; 163; 64; 170] (replicate 20 BADIP)
          19 0 20 7 true [].

(** The program that makes a forward and a backward jump share a table
    slot: in [f:1=[?]:] the body is [1=[?]]; the [[] at nibble 7 looks its
    target up under key 8 and so does the []] at nibble 9. *)
Definition collision_src : string := "f:1=[?]:1 .f 0 .f".

(** The second call of [f], at the [[] with 0 popped: the slot 8 was
    filled by the first call's loop-back. *)
Definition at_collision : machine :=
  Machine [1; 0; 0; 1] 2 2 (replicate 4 (Frame 0 0 0 0))
          (<[4%nat := Func 4 10]> (replicate 8 (Func 0 0))) []
          [64; 154; 176; 197; 214; 9; 11; 164; 10; 10; 164; 10]
          (<[8%nat := 8]> (replicate 23 BADIP))
          8 4 10 1 true [].

(** The assembler about to read the ['.'] of [".f"] and of [". "]. *)
Definition at_dot_name : asm := Asm [None; None] 0 [] 0 false.

(** A BCD opcode followed by the digit 3 and the bracket code 12. *)
Definition at_bad_bcd : machine :=
  Machine (replicate 4 0) 0 1 [] [] [] [48; 12] [] 0 0 3 0 true [].

(** Bracket structure of a nibble sequence, for an opening code [o] and a
    closing code [c], in the order a scan reads it. *)
Inductive balanced (o c : Z) : list Z → Prop :=
| bal_nil : balanced o c []
| bal_other x w : x ≠ o → x ≠ c → balanced o c w → balanced o c (x :: w)
| bal_pair w1 w2 :
    balanced o c w1 → balanced o c w2 → balanced o c (o :: w1 ++ c :: w2).

(** Balanced stretches separated by opening codes that nothing closes. *)
Inductive open_ended (o c : Z) : list Z → Prop :=
| oe_bal w : balanced o c w → open_ended o c w
| oe_open w1 w2 :
    balanced o c w1 → open_ended o c w2 → open_ended o c (w1 ++ o :: w2).

(** [reads code ip inc cs]: a scan from [ip] in steps of [inc] reads the
    nibbles [cs]. *)
Definition reads (code : list Z) (ip inc : Z) (cs : list Z) : Prop :=
  ∀ k x, cs !! k = Some x → nibble code (ip + Z.of_nat k * inc) = Ok x.

(** [clear_of_end inc end_ p n]: none of the [n] positions a scan from [p]
    in steps of [inc] passes is the boundary [end_]. *)
Definition clear_of_end (inc end_ p : Z) (n : nat) : Prop :=
  ∀ k, (k < n)%nat → p + Z.of_nat k * inc ≠ end_.

(** The closing bracket of an opening one, and the test the opening
    bracket makes on the value it pops. *)
Definition closing (o : Z) : Z := if o =? C_JAO then C_JAC else C_JBC.
Definition skips (o v : Z) : bool := if o =? C_JAO then v =? 0 else v <=? 0.

(** The nibbles of [![?!]]: a loop that is not at the start of its range. *)
Definition loop_code : list Z := [199; 118; 13].

(** Before the [[] of [loop_code], with 0 on the stack. *)
Definition at_loop_open : machine :=
  Machine (replicate 4 0) 1 1 [] [] [] loop_code (replicate 5 BADIP)
          1 0 5 0 true [].

(** Before the []] of [loop_code], with 2 in the register. *)
Definition at_loop_close : machine :=
  Machine (replicate 4 0) 0 1 [] [] [] loop_code (replicate 5 BADIP)
          4 0 5 2 true [].

(** Before the []] of [[?!]], a loop at the start of its range, with 1 in
    the register. *)
Definition at_loop_start : machine :=
  Machine (replicate 4 0) 0 1 [] [] [] [108; 215] (replicate 4 BADIP)
          3 0 4 1 true [].

(** Before an INDEX code, with the stack 7 8 9 and an index on top. *)
Definition at_index (i : Z) : machine :=
  Machine [7; 8; 9; i; 0; 0] 4 1 [] [] [] [4] [BADIP] 0 0 1 0 true [].

(** Before the code [c], with the stack 5 6 and 3 in the register. *)
Definition at_code (c : Z) : machine :=
  Machine [5; 6; 0; 0] 2 1 [] [] [] [c] [BADIP] 0 0 1 3 true [].

(** Before a CALL code with [id] on top of 8, no function defined. *)
Definition at_builtin (id : Z) : machine :=
  Machine [8; id; 0; 0] 2 1 (replicate 4 (Frame 0 0 0 0))
          (replicate 8 (Func 0 0)) [] [10] [BADIP] 0 0 1 0 true [].

(** Before a CALL code with the id of [say] on top of the stack
    9 0 72 105. *)
Definition at_say : machine :=
  Machine [9; 0; 72; 105; 1; 0] 5 1 (replicate 4 (Frame 0 0 0 0))
          (replicate 8 (Func 0 0)) [] [10] [BADIP] 0 0 1 0 true [].

(** The characters the assembler skips. *)
Definition blank (c : Z) : Prop := c = ch " " ∨ c = 10.

(** [text_at s p cs]: the text has the characters [cs] from position [p]
    on; the NUL that ends the text counts as its last character. *)
Definition text_at (s : list Z) (p : Z) (cs : list Z) : Prop :=
  ∀ k c, cs !! k = Some c → char_at s (p + Z.of_nat k) = Ok c.

(** The character of a digit. *)
Definition digit_char (d : Z) : Z := ch "0" + d.

(** What running code leaves in place: the code block, the names, the
    sizes of the arrays, the jump-table slots already resolved, the output
    already written. *)
Definition keeps (m m' : machine) : Prop :=
  code m' = code m ∧ nm m' = nm m ∧ ready m' = ready m ∧
  length (st m') = length (st m) ∧ length (fr m') = length (fr m) ∧
  length (fn m') = length (fn m) ∧ length (jtbl m') = length (jtbl m) ∧
  (∀ i t, zget (jtbl m) i = Some t → t ≠ BADIP → zget (jtbl m') i = Some t) ∧
  out m `prefix_of` out m'.

(** Before the three nibbles of [%], with 5 and 6 on the stack. *)
Definition at_dup : machine :=
  Machine [5; 6; 0; 0] 2 1 [] [] [] [160; 4] (replicate 3 BADIP)
          0 0 3 0 true [].

(** The characters [b4asmS] turns into one opcode each, whatever follows
    them. *)
Definition op_code (c : Z) : option Z :=
  if c =? ch "+" then Some C_ADD
  else if c =? ch "-" then Some C_SUB
  else if c =? ch "*" then Some C_MUL
  else if c =? ch "[" then Some C_JAO
  else if c =? ch "]" then Some C_JAC
  else if c =? ch "<" then Some C_JBO
  else if c =? ch ">" then Some C_JBC
  else if c =? ch ":" then Some C_DFN
  else if c =? ch "@" then Some C_RET
  else if c =? ch "$" then Some C_RWS
  else if c =? ch "!" then Some C_POP
  else if c =? ch "," then Some C_SWP
  else if c =? ch "=" then Some C_RDA
  else if c =? ch "?" then Some C_STA
  else None.

(** The characters no case of [b4asmS] takes. *)
Definition unknown_char (c : Z) : bool :=
  negb (isalpha c || (c =? ch "_")) && negb (c =? ch "'") &&
  negb ((c =? ch " ") || (c =? 10)) && negb (isdigit c) &&
  negb (bool_decide (is_Some (op_code c))) &&
  negb (c =? ch ".") && negb (c =? ch "%").

(** The characters that start and that continue an identifier. *)
Definition ident_start (c : Z) : bool := isalpha c || (c =? ch "_").
Definition ident_char (c : Z) : bool := isalnum c || (c =? ch "_").

(** What stands between the quotes of a string: plain characters, and
    characters made literal by a backslash before them. *)
Inductive item : Type := Plain (c : Z) | Escaped (c : Z).

Definition item_text (it : item) : list Z :=
  match it with Plain c => [c] | Escaped c => [ch "\"; c] end.

Definition item_char (it : item) : Z :=
  match it with Plain c => c | Escaped c => c end.

Definition item_ok (it : item) : Prop :=
  match it with
  | Plain c => c ≠ ch "'" ∧ c ≠ ch "\"
  | Escaped c => True
  end.

(** [emitBCD] for one value after the other. *)
Fixpoint emitBCD_list (q : buffer) (ip : Z) (vs : list Z)
  : result (buffer * Z) :=
  match vs with
  | [] => Ok (q, ip)
  | v :: vs => '(q, ip) ← emitBCD q ip v; emitBCD_list q ip vs
  end.

(** * Properties *)

(** ** Arithmetic and array helpers *)

Lemma wrap32_id z : -2^31 ≤ z < 2^31 → wrap32 z = z.
Proof. intros H. unfold wrap32. rewrite Z.mod_small; lia. Qed.

Lemma wrap32_range z : -2^31 ≤ wrap32 z < 2^31.
Proof.
  unfold wrap32.
  pose proof (Z.mod_pos_bound (z + 2^31) (2^32) ltac:(lia)). lia.
Qed.

Lemma zget_Some {A} (l : list A) i x :
  zget l i = Some x ↔ 0 ≤ i ∧ l !! Z.to_nat i = Some x.
Proof. unfold zget. case_bool_decide; split; try done; intros []; done. Qed.

Lemma zget_lt {A} (l : list A) i x :
  zget l i = Some x → 0 ≤ i < Z.of_nat (length l).
Proof.
  intros [? H%lookup_lt_Some]%zget_Some. lia.
Qed.

Lemma zget_is_Some {A} (l : list A) i :
  0 ≤ i < Z.of_nat (length l) → is_Some (zget l i).
Proof.
  intros H. unfold zget. rewrite bool_decide_eq_true_2 by lia.
  apply lookup_lt_is_Some. lia.
Qed.

Lemma zset_Some {A} (l l' : list A) i x :
  zset l i x = Some l' ↔
  0 ≤ i < Z.of_nat (length l) ∧ l' = <[Z.to_nat i := x]> l.
Proof.
  unfold zset. case_bool_decide; split.
  - by intros [= <-].
  - by intros [_ ->].
  - done.
  - by intros [? _].
Qed.

Lemma zset_in_range {A} (l : list A) i x :
  0 ≤ i < Z.of_nat (length l) → zset l i x = Some (<[Z.to_nat i := x]> l).
Proof. intros H. unfold zset. by rewrite bool_decide_eq_true_2. Qed.

Lemma zget_zset {A} (l l' : list A) i j x :
  zset l i x = Some l' →
  zget l' j = if bool_decide (i = j) then Some x else zget l j.
Proof.
  intros [Hi ->]%zset_Some.
  destruct (decide (i = j)) as [<-|Hij].
  - rewrite bool_decide_eq_true_2 by done. unfold zget.
    rewrite bool_decide_eq_true_2 by lia.
    apply list_lookup_insert_eq. lia.
  - rewrite bool_decide_eq_false_2 by done. unfold zget.
    case_bool_decide; [|done].
    apply list_lookup_insert_ne. lia.
Qed.

Lemma zset_length {A} (l l' : list A) i x :
  zset l i x = Some l' → length l' = length l.
Proof. intros [_ ->]%zset_Some. apply length_insert. Qed.

(** Monadic inversion. *)
Lemma bind_Ok {A B} (r : result A) (f : A → result B) b :
  r ≫= f = Ok b ↔ ∃ a, r = Ok a ∧ f a = Ok b.
Proof.
  destruct r; simpl; split; try done; try (by intros (? & ? & ?)).
  - by exists a.
  - by intros (? & [= ->] & ?).
Qed.

Lemma or_undef_Ok {A} u (o : option A) a : or_undef u o = Ok a ↔ o = Some a.
Proof. destruct o; simpl; split; congruence. Qed.

(** ** Nibbles of the output buffer *)

Lemma land1_mod z : Z.land z 1 = z mod 2.
Proof. apply (Z.land_ones z 1). lia. Qed.

Lemma land1_cases z : 0 ≤ z →
  (Z.land z 1 = 0 ∧ z = 2 * Z.quot z 2) ∨
  (Z.land z 1 = 1 ∧ z = 2 * Z.quot z 2 + 1).
Proof.
  intros Hz. rewrite land1_mod.
  rewrite Z.quot_div_nonneg by lia.
  pose proof (Z.mod_pos_bound z 2 ltac:(lia)).
  pose proof (Z.div_mod z 2 ltac:(lia)). lia.
Qed.

Lemma nibble_bits_check :
  forallb (λ b, forallb (λ c,
    (Z.land (Z.lor b (Z.shiftl c 4) mod 256) 15 =? b) &&
    (Z.shiftr (Z.lor b (Z.shiftl c 4) mod 256) 4 =? c) &&
    (Z.land (c mod 256) 15 =? c) && (c mod 256 <? 16) &&
    (Z.land c 15 =? c))
    (seqZ 0 16)) (seqZ 0 16) = true.
Proof. vm_compute. reflexivity. Qed.

Lemma nibble_bits b c : is_nibble b → is_nibble c →
  Z.land (Z.lor b (Z.shiftl c 4) mod 256) 15 = b ∧
  Z.shiftr (Z.lor b (Z.shiftl c 4) mod 256) 4 = c ∧
  Z.land (c mod 256) 15 = c ∧ c mod 256 < 16 ∧ Z.land c 15 = c.
Proof.
  intros Hb Hc. pose proof nibble_bits_check as H.
  rewrite forallb_forall in H.
  specialize (H b). rewrite <- list_elem_of_In, elem_of_seqZ in H.
  specialize (H ltac:(unfold is_nibble in *; lia)).
  rewrite forallb_forall in H.
  specialize (H c). rewrite <- list_elem_of_In, elem_of_seqZ in H.
  specialize (H ltac:(unfold is_nibble in *; lia)).
  rewrite !andb_true_iff in H. destruct H as [[[[H1 H2] H3] H4] H5].
  lia.
Qed.

Lemma land15_nibble c : is_nibble c → Z.land c 15 = c.
Proof. intros H. by apply (nibble_bits c c). Qed.

Lemma emit_spec q ip c :
  buf_ok q ip → room q ip 1 → is_nibble c →
  ∃ q', emit q ip c = Ok (q', ip + 1) ∧
        buf_ok q' (ip + 1) ∧ length q' = length q ∧
        bnib q' ip = Some c ∧
        (∀ j, 0 ≤ j < ip → bnib q' j = bnib q j).
Proof.
  intros [Hip Hodd] Hroom Hc. unfold room in Hroom. unfold emit.
  destruct (nibble_bits c c Hc Hc) as (_ & _ & Hc1 & Hc2 & _).
  destruct (land1_cases ip Hip) as [[He Hq]|[Ho Hq]].
  - rewrite He. simpl.
    rewrite zset_in_range by lia. simpl.
    eexists; split; [done|].
    assert (Hs : zset q (Z.quot ip 2) (Some (c mod 256)) =
                 Some (<[Z.to_nat (Z.quot ip 2) := Some (c mod 256)]> q))
      by (apply zset_in_range; lia).
    split_and!.
    + split; [lia|]. intros _.
      exists (c mod 256). split.
      * replace (Z.quot (ip + 1) 2) with (Z.quot ip 2)
          by (Z.to_euclidean_division_equations; lia).
        rewrite (zget_zset _ _ _ _ _ Hs). by rewrite bool_decide_eq_true_2.
      * pose proof (Z.mod_pos_bound c 256 ltac:(lia)). lia.
    + apply length_insert.
    + unfold bnib. rewrite (zget_zset _ _ _ _ _ Hs).
      rewrite bool_decide_eq_true_2 by done. rewrite He. simpl. by rewrite Hc1.
    + intros j Hj. unfold bnib. rewrite (zget_zset _ _ _ _ _ Hs).
      rewrite bool_decide_eq_false_2; [done|].
      Z.to_euclidean_division_equations; lia.
  - rewrite Ho. simpl.
    destruct Hodd as (b & Hb & Hbr); [lia|]. rewrite Hb. simpl.
    rewrite zset_in_range by lia. simpl.
    eexists; split; [done|].
    assert (Hs : zset q (Z.quot ip 2)
                   (Some (Z.lor b (Z.shiftl c 4) mod 256)) =
                 Some (<[Z.to_nat (Z.quot ip 2) :=
                           Some (Z.lor b (Z.shiftl c 4) mod 256)]> q))
      by (apply zset_in_range; lia).
    destruct (nibble_bits b c Hbr Hc) as (Hl & Hh & _).
    split_and!.
    + split; [lia|]. intros Hne. exfalso. apply Hne.
      rewrite land1_mod.
      replace (ip + 1) with (0 + (Z.quot ip 2 + 1) * 2) by lia.
      by rewrite Z.mod_add.
    + apply length_insert.
    + unfold bnib. rewrite (zget_zset _ _ _ _ _ Hs).
      rewrite bool_decide_eq_true_2 by done. rewrite Ho. simpl. by rewrite Hh.
    + intros j Hj. unfold bnib. rewrite (zget_zset _ _ _ _ _ Hs).
      case_bool_decide as E; [|done].
      rewrite <- E, Hb.
      assert (j = ip - 1) as ->.
      { Z.to_euclidean_division_equations; lia. }
      assert (Z.land (ip - 1) 1 = 0) as ->.
      { rewrite land1_mod.
        replace (ip - 1) with (0 + Z.quot ip 2 * 2) by lia.
        by rewrite Z.mod_add. }
      simpl. rewrite Hl. f_equal. symmetry. by apply land15_nibble.
Qed.

Lemma emit_list_spec cs : ∀ q ip,
  buf_ok q ip → room q ip (Z.of_nat (length cs)) → Forall is_nibble cs →
  ∃ q', emit_list q ip cs = Ok (q', ip + Z.of_nat (length cs)) ∧
        buf_ok q' (ip + Z.of_nat (length cs)) ∧ length q' = length q ∧
        (∀ k c, cs !! k = Some c → bnib q' (ip + Z.of_nat k) = Some c) ∧
        (∀ j, 0 ≤ j < ip → bnib q' j = bnib q j).
Proof.
  induction cs as [|c cs IH]; intros q ip Hok Hroom Hcs.
  - exists q. simpl. rewrite Z.add_0_r. split_and!; try done.
  - apply Forall_cons in Hcs as [Hc Hcs]. unfold room in *. simpl length in *.
    destruct (emit_spec q ip c Hok ltac:(unfold room; lia) Hc)
      as (q1 & E1 & Hok1 & Hlen1 & Hat & Hfr1).
    destruct (IH q1 (ip + 1) Hok1 ltac:(unfold room; lia) Hcs)
      as (q2 & E2 & Hok2 & Hlen2 & Hat2 & Hfr2).
    exists q2. simpl. rewrite E1. simpl. rewrite E2.
    replace (ip + 1 + Z.of_nat (length cs))
      with (ip + Z.of_nat (S (length cs))) in * by lia.
    destruct Hok as [Hip _].
    split_and!; try done; try congruence.
    + intros [|k] c' Hk; simpl in Hk.
      * injection Hk as <-. rewrite Z.add_0_r, Hfr2 by lia. done.
      * replace (ip + Z.of_nat (S k)) with (ip + 1 + Z.of_nat k) by lia. eauto.
    + intros j Hj. rewrite Hfr2, Hfr1 by lia. done.
Qed.

Lemma emit_list_app cs1 : ∀ cs2 q ip,
  emit_list q ip (cs1 ++ cs2) =
  '(q, ip) ← emit_list q ip cs1; emit_list q ip cs2.
Proof.
  induction cs1 as [|c cs1 IH]; intros cs2 q ip; simpl; [done|].
  destruct (emit q ip c) as [[q1 ip1]| | |]; simpl; [|done..]. apply IH.
Qed.

(** ** The codec *)

Lemma emitBCD_unfold q ip v :
  emitBCD q ip v =
  ds ← bcd_digits (Z.to_nat MAXNM) v [];
  match ds with [] => Undef NameOOB | _ => emit_list q ip (bcd_code ds) end.
Proof.
  unfold emitBCD. destruct (bcd_digits _ v []) as [[|b rest]| | |]; simpl; try done.
  destruct (emit q ip C_BCD) as [[q1 ip1]| | |]; simpl; [|done..].
  destruct (1 <? b); simpl.
  - destruct (emit q1 ip1 b) as [[q2 ip2]| | |]; simpl; [|done..].
    rewrite emit_list_app. destruct (emit_list q2 ip2 rest) as [[q3 ip3]| | |]; simpl; [|done..].
    by destruct (emit q3 ip3 _) as [[??]| | |].
  - rewrite emit_list_app. destruct (emit_list q1 ip1 rest) as [[q3 ip3]| | |]; simpl; [|done..].
    by destruct (emit q3 ip3 _) as [[??]| | |].
Qed.

Lemma decimal_snoc ds d : decimal (ds ++ [d]) = decimal ds * 10 + d.
Proof. unfold decimal. by rewrite fold_left_app. Qed.

Lemma fold_decimal ds : ∀ a,
  fold_left (λ a d, a * 10 + d) ds a =
  a * 10 ^ Z.of_nat (length ds) + decimal ds.
Proof.
  unfold decimal. induction ds as [|d ds IH]; intros a; simpl fold_left.
  - simpl. lia.
  - rewrite IH, (IH (0 * 10 + d)).
    replace (Z.of_nat (length (d :: ds))) with (Z.succ (Z.of_nat (length ds)))
      by (simpl length; lia).
    rewrite Z.pow_succ_r by lia. lia.
Qed.

Lemma decimal_cons d ds :
  decimal (d :: ds) = d * 10 ^ Z.of_nat (length ds) + decimal ds.
Proof. unfold decimal at 1. simpl. rewrite fold_decimal. lia. Qed.

Lemma decimal_bounds ds :
  Forall is_digit ds → 0 ≤ decimal ds < 10 ^ Z.of_nat (length ds).
Proof.
  induction ds as [|d ds IH] using rev_ind; intros H.
  - unfold decimal. simpl. lia.
  - apply Forall_app in H as [H1 H2]. rewrite Forall_singleton in H2.
    specialize (IH H1). rewrite decimal_snoc, length_app. simpl length.
    replace (Z.of_nat (length ds + 1)) with (Z.succ (Z.of_nat (length ds))) by lia.
    rewrite Z.pow_succ_r by lia. unfold is_digit in H2. lia.
Qed.

Lemma bcd_digits_spec room : ∀ v acc,
  0 ≤ v < 10 ^ Z.of_nat room → (0 < room)%nat →
  ∃ ds, bcd_digits room v acc = Ok (ds ++ acc) ∧ numeral v ds ∧
        (length ds ≤ room)%nat.
Proof.
  induction room as [|room IH]; intros v acc Hv Hroom.
  - lia.
  - simpl bcd_digits.
    rewrite Nat2Z.inj_succ, Z.pow_succ_r in Hv by lia.
    assert (Hr : 0 ≤ Z.rem v 10 ≤ 9 ∧ 0 ≤ Z.quot v 10 ∧
                 v = 10 * Z.quot v 10 + Z.rem v 10)
      by (Z.to_euclidean_division_equations; lia).
    destruct (Z.eqb_spec (Z.quot v 10) 0) as [E|E].
    + exists [Z.rem v 10]. split; [done|]. split; [|simpl; lia].
      split_and!; try done.
      * apply Forall_singleton. unfold is_digit. lia.
      * unfold decimal. simpl. lia.
      * simpl. by intros ->.
    + assert (0 < room)%nat by (destruct room; [simpl in Hv|]; lia).
      destruct (IH (Z.quot v 10) (Z.rem v 10 :: acc) ltac:(lia) ltac:(done))
        as (ds & Eds & (Hd & Hval & Hne & Hhd) & Hlen).
      exists (ds ++ [Z.rem v 10]). rewrite <- app_assoc. split; [done|].
      split; [|rewrite length_app; simpl; lia].
      split_and!.
      * apply Forall_app. split; [done|]. apply Forall_singleton.
        unfold is_digit. lia.
      * rewrite decimal_snoc. lia.
      * by destruct ds.
      * destruct ds as [|d ds]; [done|]. simpl. intros ->.
        specialize (Hhd eq_refl). injection Hhd as ->.
        unfold decimal in Hval. simpl in Hval. lia.
Qed.

Lemma acc_v_decimal es :
  Forall is_digit es → decimal es < 2^31 → acc_v 0 es = decimal es.
Proof.
  induction es as [|d es IH] using rev_ind; intros Hd Hlt; [done|].
  apply Forall_app in Hd as [H1 H2]. rewrite Forall_singleton in H2.
  rewrite decimal_snoc in *. pose proof (decimal_bounds es H1).
  unfold is_digit in H2.
  unfold acc_v in *. rewrite fold_left_app. simpl.
  rewrite IH by (done || lia). apply wrap32_id. lia.
Qed.

Lemma acc_b_pow n : 10 ^ Z.of_nat n < 2^31 → acc_b 1 n = 10 ^ Z.of_nat n.
Proof.
  induction n as [|n IH]; intros H; [done|].
  rewrite Nat2Z.inj_succ, Z.pow_succ_r in * by lia.
  unfold acc_b in *. simpl. rewrite IH by lia.
  assert (0 < 10 ^ Z.of_nat n) by (apply Z.pow_pos_nonneg; lia).
  rewrite wrap32_id; lia.
Qed.

Lemma acc_b_succ b n : acc_b (wrap32 (b * 10)) n = acc_b b (S n).
Proof.
  unfold acc_b. induction n as [|n IH]; [done|].
  simpl in *. by rewrite IH.
Qed.

Lemma bcd_loop_digits es : ∀ fuel code ip v b,
  (∀ k d, es !! k = Some d → nibble code (ip + Z.of_nat k) = Ok d) →
  Forall is_digit es →
  bcd_loop (length es + fuel) code ip v b =
  bcd_loop fuel code (ip + Z.of_nat (length es)) (acc_v v es)
           (acc_b b (length es)).
Proof.
  induction es as [|d es IH]; intros fuel code ip v b Hat Hd.
  - simpl. by rewrite Z.add_0_r.
  - apply Forall_cons in Hd as [Hd Hes].
    simpl length. simpl bcd_loop.
    pose proof (Hat O d eq_refl) as H0. simpl in H0. rewrite Z.add_0_r in H0.
    rewrite H0. simpl.
    unfold is_digit in Hd.
    rewrite (land15_nibble d) by (unfold is_nibble; lia).
    replace ((0 <=? d) && (d <=? 9)) with true by lia.
    rewrite IH; [|intros k d' Hk; specialize (Hat (S k) d' Hk);
                   by replace (ip + 1 + Z.of_nat k) with (ip + Z.of_nat (S k)) by lia|done].
    rewrite acc_b_succ. f_equal. lia.
Qed.

Lemma holds_cons code ip c cs :
  holds code ip (c :: cs) ↔ nibble code ip = Ok c ∧ holds code (ip + 1) cs.
Proof.
  unfold holds. split.
  - intros H. split.
    + specialize (H O c eq_refl). by rewrite Z.add_0_r in H.
    + intros k c' Hk. specialize (H (S k) c' Hk).
      by replace (ip + 1 + Z.of_nat k) with (ip + Z.of_nat (S k)) by lia.
  - intros [H0 H] [|k] c' Hk; simpl in Hk.
    + injection Hk as <-. by rewrite Z.add_0_r.
    + specialize (H k c' Hk).
      by replace (ip + Z.of_nat (S k)) with (ip + 1 + Z.of_nat k) by lia.
Qed.

Lemma holds_app code cs1 : ∀ ip cs2,
  holds code ip (cs1 ++ cs2) ↔
  holds code ip cs1 ∧ holds code (ip + Z.of_nat (length cs1)) cs2.
Proof.
  induction cs1 as [|c cs1 IH]; intros ip cs2.
  - simpl. rewrite Z.add_0_r. split; [|by intros [_ ?]].
    intros H. split; [|done]. by intros k c Hk.
  - simpl app. rewrite !holds_cons, IH. simpl length.
    replace (ip + 1 + Z.of_nat (length cs1))
      with (ip + Z.of_nat (S (length cs1))) by lia.
    tauto.
Qed.

Lemma nibble_in_block code j c :
  nibble code j = Ok c → 0 ≤ Z.quot j 2 < Z.of_nat (length code).
Proof.
  unfold nibble. intros (b & Hb & _)%bind_Ok.
  apply or_undef_Ok in Hb. by apply zget_lt in Hb.
Qed.

Lemma numeral_lower v d ds :
  numeral v (d :: ds) → 1 ≤ d → 10 ^ Z.of_nat (length ds) ≤ v.
Proof.
  intros (Hd & Hv & _) H1. rewrite decimal_cons in Hv.
  apply Forall_cons in Hd as [_ Hd]. pose proof (decimal_bounds ds Hd). nia.
Qed.

Lemma numeral_length v ds n :
  numeral v ds → v < 10 ^ Z.of_nat n → (0 < n)%nat → (length ds ≤ n)%nat.
Proof.
  intros Hn Hv Hpos. destruct ds as [|d ds]; [simpl; lia|].
  destruct (decide (d = 0)) as [->|Hd].
  - destruct Hn as (_ & _ & _ & H). specialize (H eq_refl).
    injection H as ->. simpl. lia.
  - assert (1 ≤ d).
    { destruct Hn as (H & _). apply Forall_cons in H as [H _].
      unfold is_digit in H. lia. }
    pose proof (numeral_lower v d ds Hn ltac:(done)) as Hlow.
    simpl length.
    destruct (decide (length ds < n)%nat); [lia|].
    assert (10 ^ Z.of_nat n ≤ 10 ^ Z.of_nat (length ds))
      by (apply Z.pow_le_mono_r; lia).
    lia.
Qed.

Lemma bcd_code_nibbles v ds :
  numeral v ds → Forall (λ c, 0 ≤ c ≤ 11) (bcd_code ds).
Proof.
  intros (Hd & _ & Hne & _). destruct ds as [|b rest]; [done|].
  apply Forall_cons in Hd as [Hb Hrest]. unfold is_digit in Hb.
  unfold bcd_code. apply Forall_cons. split; [unfold C_BCD; lia|].
  apply Forall_app. split.
  - destruct (1 <? b); [apply Forall_singleton; lia|constructor].
  - apply Forall_app. split.
    + eapply Forall_impl; [exact Hrest|]. unfold is_digit. simpl. lia.
    + apply Forall_singleton. destruct (b =? 1); lia.
Qed.

Lemma bcd_code_length ds :
  (length (bcd_code ds) ≤ length ds + 2)%nat.
Proof.
  destruct ds as [|b rest]; simpl; [lia|].
  rewrite !length_app. destruct (1 <? b); simpl; lia.
Qed.

(** What [emitBCD] does to the buffer. *)
Lemma emitBCD_spec q ip v :
  0 ≤ v < 2^31 → buf_ok q ip → room q ip 12 →
  ∃ ds q',
    numeral v ds ∧
    emitBCD q ip v = Ok (q', ip + Z.of_nat (length (bcd_code ds))) ∧
    buf_ok q' (ip + Z.of_nat (length (bcd_code ds))) ∧
    length q' = length q ∧
    (∀ k c, bcd_code ds !! k = Some c → bnib q' (ip + Z.of_nat k) = Some c) ∧
    (∀ j, 0 ≤ j < ip → bnib q' j = bnib q j) ∧
    (length (bcd_code ds) ≤ 12)%nat.
Proof.
  intros Hv Hok Hroom.
  destruct (bcd_digits_spec (Z.to_nat MAXNM) v [])
    as (ds & Eds & Hnum & _).
  { split; [lia|]. eapply Z.lt_trans; [apply Hv|]. by vm_compute. }
  { unfold MAXNM. lia. }
  rewrite app_nil_r in Eds.
  assert (Hlen : (length ds ≤ 10)%nat).
  { apply (numeral_length v ds 10 Hnum); [|lia].
    eapply Z.lt_trans; [apply Hv|]. by vm_compute. }
  pose proof (bcd_code_length ds) as Hcl.
  destruct (emit_list_spec (bcd_code ds) q ip Hok) as (q' & E & Hok' & Hl & Hat & Hfr).
  { unfold room in *. lia. }
  { eapply Forall_impl; [apply (bcd_code_nibbles v ds Hnum)|].
    unfold is_nibble. simpl. lia. }
  exists ds, q'. split; [done|].
  split; [|split_and!; try done; lia].
  rewrite emitBCD_unfold, Eds. simpl.
  destruct Hnum as (_ & _ & Hne & _). by destruct ds.
Qed.

(** Decoding what [bcd_code] describes. *)
Lemma bcd_loop_code code ip v ds :
  0 ≤ v < 2^31 → numeral v ds → 0 ≤ ip → holds code ip (bcd_code ds) →
  nibble code ip = Ok C_BCD ∧
  bcd_loop (code_fuel code) code (ip + 1) 0 1 =
    Ok (v, ip + Z.of_nat (length (bcd_code ds))).
Proof.
  intros Hv Hnum Hip Hh.
  destruct ds as [|b rest]; [by destruct Hnum as (_ & _ & ? & _)|].
  pose proof Hnum as (Hd & Hval & _ & Hzero).
  apply Forall_cons in Hd as [Hb Hrest]. unfold is_digit in Hb.
  unfold bcd_code in *. apply holds_cons in Hh as [H0 Hh]. split; [done|].
  set (es := (if 1 <? b then [b] else []) ++ rest) in *.
  set (t := if b =? 1 then 11 else 10) in *.
  rewrite app_assoc in Hh. fold es in Hh.
  apply holds_app in Hh as [Hes Ht]. apply holds_cons in Ht as [Ht _].
  assert (Hdes : Forall is_digit es).
  { unfold es. apply Forall_app. split; [|done].
    destruct (1 <? b); [apply Forall_singleton; unfold is_digit; lia|constructor]. }
  pose proof (nibble_in_block _ _ _ Ht) as Hblk.
  assert (∃ k, code_fuel code = (length es + S k)%nat) as [k ->].
  { exists (code_fuel code - length es - 1)%nat. unfold code_fuel.
    assert (ip + 1 + Z.of_nat (length es) < 2 * Z.of_nat (length code))
      by (Z.to_euclidean_division_equations; lia).
    lia. }
  rewrite bcd_loop_digits by done.
  simpl bcd_loop. rewrite Ht. simpl.
  assert (Ht15 : Z.land t 15 = t)
    by (apply land15_nibble; unfold is_nibble, t; destruct (b =? 1); lia).
  rewrite Ht15.
  replace ((0 <=? t) && (t <=? 9)) with false by (unfold t; destruct (b =? 1); lia).
  replace ((t =? BCD_N) || (t =? BCD_P)) with true
    by (unfold t, BCD_N, BCD_P; destruct (b =? 1); lia).
  assert (Hlen : length (C_BCD :: (if 1 <? b then [b] else []) ++ rest ++ [t])
                 = S (length es + 1)).
  { simpl. rewrite app_assoc, length_app. fold es. simpl. lia. }
  simpl length in Hlen. rewrite Hlen. f_equal. f_equal; [|lia].
  rewrite decimal_cons in Hval. pose proof (decimal_bounds rest Hrest) as Hbd.
  assert (0 < 10 ^ Z.of_nat (length rest)) by (apply Z.pow_pos_nonneg; lia).
  unfold t, es, BCD_P.
  destruct (Z.eqb_spec b 1) as [->|Hb1].
  - (* leading 1 left out, prefixed end *)
    simpl. rewrite acc_v_decimal by (done || lia).
    rewrite acc_b_pow by lia.
    rewrite Z.mul_1_r, (wrap32_id (10 ^ _)) by lia. rewrite wrap32_id; lia.
  - replace (10 =? 11) with false by done. rewrite Z.mul_0_r.
    change (wrap32 0) with 0. rewrite Z.add_0_r.
    destruct (Z.ltb_spec 1 b) as [Hb2|Hb2].
    + (* leading digit written out *)
      simpl app. rewrite acc_v_decimal; rewrite ?decimal_cons.
      * rewrite wrap32_id; lia.
      * by apply Forall_cons.
      * lia.
    + (* zero: no digit at all *)
      assert (b = 0) as -> by lia.
      specialize (Hzero eq_refl). injection Hzero as ->.
      simpl in *. unfold decimal in Hval. simpl in Hval. by subst v.
Qed.

Lemma emitted_written q ip cs :
  (∀ k c, cs !! k = Some c → bnib q (ip + Z.of_nat k) = Some c) →
  emitted q ip (ip + Z.of_nat (length cs)) = Some cs.
Proof.
  intros H. unfold emitted. apply mapM_Some.
  apply Forall2_same_length_lookup. split.
  - rewrite length_seqZ. lia.
  - intros i j c [-> _]%lookup_seqZ Hc. by apply H.
Qed.

Lemma emitted_holds q ip ip' cs code :
  emitted q ip ip' = Some cs →
  (∀ j c, ip ≤ j < ip' → bnib q j = Some c → nibble code j = Ok c) →
  holds code ip cs.
Proof.
  unfold emitted. intros Hm%mapM_Some Hc k c Hk.
  destruct (Forall2_lookup_r _ _ _ _ _ Hm Hk) as (j & [-> Hlt]%lookup_seqZ & Hj).
  apply Hc; [lia|done].
Qed.

(** ** The branch scan across nibbles that are no brackets *)

Section Scan.

Variables (code : list Z) (open close inc end_ : Z).

Lemma jmp_scan_skip n : ∀ fuel ip depth,
  (∀ k, (k < n)%nat →
        ip + Z.of_nat k * inc ≠ end_ ∧
        ∃ c, nibble code (ip + Z.of_nat k * inc) = Ok c ∧
             c ≠ open ∧ c ≠ close) →
  jmp_scan (n + fuel) code open close inc end_ ip depth =
  jmp_scan fuel code open close inc end_ (ip + Z.of_nat n * inc) depth.
Proof.
  induction n as [|n IH]; intros fuel ip depth H.
  - simpl. f_equal. lia.
  - destruct (H O ltac:(lia)) as (He & c & Hc & Ho & Hcl).
    simpl in He, Hc. rewrite Z.add_0_r in He, Hc.
    simpl jmp_scan.
    rewrite (proj2 (Z.eqb_neq _ _) He), Hc. simpl.
    rewrite (proj2 (Z.eqb_neq _ _) Ho), (proj2 (Z.eqb_neq _ _) Hcl).
    rewrite IH.
    + f_equal. lia.
    + intros k Hk. specialize (H (S k) ltac:(lia)).
      by replace (ip + inc + Z.of_nat k * inc)
        with (ip + Z.of_nat (S k) * inc) by lia.
Qed.

End Scan.

(** ** The codec: round trip, leading digit, nibble range *)

(** C2. Decoding what the encoder wrote gives the value back: for every
    [int] value [v >= 0], [emitBCD] succeeds wherever the buffer has room,
    and on any machine whose code block holds the nibbles it wrote, the
    decoder loop started after the BCD opcode yields [v] and stops right
    after the terminator; the BCD instruction as a whole pushes [v]. *)
Theorem codec_round_trip q p v :
  0 ≤ v < 2^31 → buf_ok q p → room q p 12 →
  ∃ q' ip',
    emitBCD q p v = Ok (q', ip') ∧
    ∀ m, ip m = p →
         (∀ j c, p ≤ j < ip' → bnib q' j = Some c →
                 nibble (code m) j = Ok c) →
         bcd_loop (code_fuel (code m)) (code m) (p + 1) 0 1 = Ok (v, ip') ∧
         exe_op jmp m = continue (push v (set_ip ip' m)).
Proof.
  intros Hv Hok Hroom.
  destruct (emitBCD_spec q p v Hv Hok Hroom)
    as (ds & q' & Hnum & E & _ & _ & Hat & _).
  eexists q', _. split; [exact E|].
  intros m Hip Hcode.
  assert (Hh : holds (code m) p (bcd_code ds)).
  { eapply emitted_holds; [by apply emitted_written|done]. }
  destruct (bcd_loop_code (code m) p v ds Hv Hnum (proj1 Hok) Hh) as [H0 Hl].
  split; [done|].
  unfold exe_op, rd, pk. rewrite Hip, H0.
  cbn -[bcd_loop code_fuel]. unfold bcd. cbn -[bcd_loop code_fuel].
  rewrite Hl. done.
Qed.

Lemma codec_round_trip_witness :
  ∃ q' ip',
    emitBCD (replicate 6 None) 0 1907 = Ok (q', ip') ∧
    ∀ m, ip m = 0 →
         (∀ j c, 0 ≤ j < ip' → bnib q' j = Some c →
                 nibble (code m) j = Ok c) →
         bcd_loop (code_fuel (code m)) (code m) (0 + 1) 0 1 = Ok (1907, ip') ∧
         exe_op jmp m = continue (push 1907 (set_ip ip' m)).
Proof.
  apply (codec_round_trip (replicate 6 None) 0 1907).
  - lia.
  - split; [lia|]. intros H. exfalso. apply H. reflexivity.
  - unfold room. simpl. lia.
Defined.

(** C8, as the code has it.  The encoder writes the BCD opcode, the
    decimal digits of [v] and a terminator; it leaves the leading digit
    out exactly when that digit is 1 or [v] is 0 (the numeral [0], whose
    only digit is not 1, is written with no digit at all), and it ends
    with the prefixed terminator exactly when the leading digit is 1, with
    the plain one otherwise. *)
Theorem encode_leading_digit q p v :
  0 ≤ v < 2^31 → buf_ok q p → room q p 12 →
  ∃ ds q' ip',
    numeral v ds ∧
    emitBCD q p v = Ok (q', ip') ∧
    emitted q' p ip' =
      Some (C_BCD ::
            (if (hd 0 ds =? 1) || (v =? 0) then tl ds else ds) ++
            [if hd 0 ds =? 1 then BCD_P else BCD_N]).
Proof.
  intros Hv Hok Hroom.
  destruct (emitBCD_spec q p v Hv Hok Hroom)
    as (ds & q' & Hnum & E & _ & _ & Hat & _).
  exists ds, q', (p + Z.of_nat (length (bcd_code ds))).
  split; [done|]. split; [done|].
  rewrite (emitted_written _ _ _ Hat). f_equal.
  destruct Hnum as (Hd & Hval & Hne & Hz).
  destruct ds as [|b rest]; [done|]. simpl.
  apply Forall_cons in Hd as [Hb Hd]. unfold is_digit in Hb.
  f_equal.
  destruct (Z.eqb_spec b 1) as [->|Hb1]; simpl; [done|].
  destruct (Z.eqb_spec v 0) as [->|Hv0].
  - rewrite decimal_cons in Hval. pose proof (decimal_bounds rest Hd).
    assert (0 < 10 ^ Z.of_nat (length rest)) by (apply Z.pow_pos_nonneg; lia).
    assert (b = 0) as -> by nia. done.
  - destruct (Z.ltb_spec 1 b); [done|].
    assert (b = 0) as -> by lia. specialize (Hz eq_refl).
    injection Hz as ->. unfold decimal in Hval. simpl in Hval. lia.
Qed.

Lemma encode_leading_digit_witness :
  ∃ ds q' ip',
    numeral 1907 ds ∧
    emitBCD (replicate 6 None) 0 1907 = Ok (q', ip') ∧
    emitted q' 0 ip' =
      Some (C_BCD ::
            (if (hd 0 ds =? 1) || (1907 =? 0) then tl ds else ds) ++
            [if hd 0 ds =? 1 then BCD_P else BCD_N]).
Proof.
  apply (encode_leading_digit (replicate 6 None) 0 1907).
  - lia.
  - split; [lia|]. intros H. exfalso. apply H. reflexivity.
  - unfold room. simpl. lia.
Defined.

(** C8 as stated fails at [v = 0]: the numeral of 0 is the single digit 0,
    which is not 1, and still no digit code is written: the encoding is
    the BCD opcode followed at once by the plain terminator. *)
Lemma encode_zero_omits_digit :
  numeral 0 [0] ∧
  ∃ q', emitBCD (replicate 2 None) 0 0 = Ok (q', 2) ∧
        emitted q' 0 2 = Some [C_BCD; BCD_N] ∧
        emitted q' 0 2 ≠
          Some (C_BCD :: (if hd 0 [0] =? 1 then tl [0] else [0]) ++
                [if hd 0 [0] =? 1 then BCD_P else BCD_N]).
Proof.
  split.
  - split_and!; try done. apply Forall_singleton. unfold is_digit. lia.
  - eexists. split; [vm_compute; reflexivity|]. split; [reflexivity|].
    vm_compute. discriminate.
Qed.

(** C10. Every nibble of an encoded literal is a digit code or one of the
    two terminators, so none is a bracket opcode; and a branch scan that
    crosses the literal, forward or backward, for either bracket family,
    comes out on the other side with its nesting depth unchanged. *)
Theorem literal_has_no_bracket q p v :
  0 ≤ v < 2^31 → buf_ok q p → room q p 12 →
  ∃ q' ip' cs,
    emitBCD q p v = Ok (q', ip') ∧
    emitted q' p ip' = Some cs ∧
    ip' = p + Z.of_nat (length cs) ∧
    Forall (λ c, 0 ≤ c ≤ 11) cs ∧
    ∀ code open close end_ depth fuel,
      holds code p cs →
      C_JAO ≤ open ≤ C_JBC → C_JAO ≤ close ≤ C_JBC →
      ¬ (p ≤ end_ < ip') →
      jmp_scan (length cs + fuel) code open close 1 end_ p depth =
        jmp_scan fuel code open close 1 end_ ip' depth ∧
      jmp_scan (length cs + fuel) code open close (-1) end_ (ip' - 1) depth =
        jmp_scan fuel code open close (-1) end_ (p - 1) depth.
Proof.
  intros Hv Hok Hroom.
  destruct (emitBCD_spec q p v Hv Hok Hroom)
    as (ds & q' & Hnum & E & _ & _ & Hat & _).
  exists q', (p + Z.of_nat (length (bcd_code ds))), (bcd_code ds).
  pose proof (bcd_code_nibbles v ds Hnum) as Hrange.
  split_and!; try done; [by apply emitted_written|].
  intros code open close end_ depth fuel Hh Ho Hc Hend.
  unfold C_JAO, C_JBC in *.
  rewrite Forall_lookup in Hrange.
  split.
  - rewrite jmp_scan_skip; [f_equal; lia|].
    intros k Hk. split; [lia|].
    destruct (lookup_lt_is_Some_2 (bcd_code ds) k Hk) as [c Hkc].
    exists c. specialize (Hrange k c Hkc). simpl in Hrange.
    split; [|lia]. rewrite Z.mul_1_r. by apply Hh.
  - rewrite jmp_scan_skip; [f_equal; lia|].
    intros k Hk. split; [lia|].
    destruct (lookup_lt_is_Some_2 (bcd_code ds)
                (length (bcd_code ds) - 1 - k) ltac:(lia)) as [c Hkc].
    exists c. specialize (Hrange _ c Hkc). simpl in Hrange.
    split; [|lia]. specialize (Hh _ c Hkc).
    rewrite <- Hh. f_equal. lia.
Qed.

Lemma literal_has_no_bracket_witness :
  ∃ q' ip' cs,
    emitBCD (replicate 6 None) 0 1907 = Ok (q', ip') ∧
    emitted q' 0 ip' = Some cs ∧
    ip' = 0 + Z.of_nat (length cs) ∧
    Forall (λ c, 0 ≤ c ≤ 11) cs ∧
    ∀ code open close end_ depth fuel,
      holds code 0 cs →
      C_JAO ≤ open ≤ C_JBC → C_JAO ≤ close ≤ C_JBC →
      ¬ (0 ≤ end_ < ip') →
      jmp_scan (length cs + fuel) code open close 1 end_ 0 depth =
        jmp_scan fuel code open close 1 end_ ip' depth ∧
      jmp_scan (length cs + fuel) code open close (-1) end_ (ip' - 1) depth =
        jmp_scan fuel code open close (-1) end_ (0 - 1) depth.
Proof.
  apply (literal_has_no_bracket (replicate 6 None) 0 1907).
  - lia.
  - split; [lia|]. intros H. exfalso. apply H. reflexivity.
  - unfold room. simpl. lia.
Defined.

(** ** DEFINE: the body scan *)

Lemma nibble_defined code j :
  0 ≤ j < 2 * Z.of_nat (length code) → ∃ c, nibble code j = Ok c.
Proof.
  intros Hj. unfold nibble.
  destruct (zget_is_Some code (Z.quot j 2)) as [b Hb].
  { Z.to_euclidean_division_equations; lia. }
  rewrite Hb. simpl. eauto.
Qed.

Section DefineScan.

Variables (code : list Z) (end_ : Z).
Hypothesis end_in_block : end_ ≤ 2 * Z.of_nat (length code).

Lemma dfn_skip_spec n : ∀ fuel p,
  Z.to_nat (end_ - p) = n → 0 ≤ p → (n < fuel)%nat →
  ∃ p', dfn_skip fuel code p end_ = Ok p' ∧ p ≤ p' ∧
        body_end n true code p =
          if p' <? end_
          then body_end (Z.to_nat (end_ - (p' + 1))) false code (p' + 1)
          else None.
Proof.
  induction n as [|n IH]; intros fuel p Hn Hp Hfuel.
  - destruct fuel as [|fuel]; [lia|]. simpl.
    assert (Hlt : (p <? end_) = false) by lia. rewrite Hlt.
    exists p. rewrite Hlt. split; [done|]. split; [lia|]. done.
  - destruct fuel as [|fuel]; [lia|]. simpl dfn_skip.
    assert (Hlt : (p <? end_) = true) by lia. rewrite Hlt.
    destruct (nibble_defined code p ltac:(lia)) as [c Hc].
    simpl body_end. rewrite Hc. simpl.
    destruct ((c =? BCD_N) || (c =? BCD_P)) eqn:Ht.
    + apply orb_true_iff in Ht.
      replace (negb (c =? BCD_N) && negb (c =? BCD_P)) with false
        by (destruct Ht as [->| ->]; simpl; by rewrite ?andb_false_r).
      exists p. rewrite Hlt.
      split; [done|]. split; [lia|].
      f_equal. lia.
    + apply orb_false_iff in Ht as [-> ->]. simpl.
      destruct (IH fuel (p + 1) ltac:(lia) ltac:(lia) ltac:(lia))
        as (p' & E & Hle & Hb).
      exists p'. split; [done|]. split; [lia|]. done.
Qed.

Lemma dfn_close_loop_spec fuel : ∀ p,
  0 ≤ p → (Z.to_nat (end_ - p) + 2 ≤ fuel)%nat →
  dfn_close_loop fuel code p end_ =
  match body_end (Z.to_nat (end_ - p)) false code p with
  | Some t => Ok (t + 1)
  | None => Exit NoMatchDfn
  end.
Proof.
  induction fuel as [|fuel IH]; intros p Hp Hfuel; [lia|].
  cbn [dfn_close_loop].
  destruct (Z.ltb_spec p end_) as [Hlt|Hge].
  - destruct (nibble_defined code p ltac:(lia)) as [c Hc].
    destruct (Z.to_nat (end_ - p)) as [|n] eqn:Hn; [lia|].
    rewrite Hc. cbn [mbind result_bind].
    destruct (Z.eqb_spec c C_DFN) as [->|Hd].
    + simpl. rewrite Hc. done.
    + destruct (Z.eqb_spec c C_BCD) as [->|Hb].
      * destruct (dfn_skip_spec (S n) (code_fuel code) p Hn Hp)
          as (p' & E & Hle & Hbody).
        { unfold code_fuel. lia. }
        rewrite E. cbn [mbind result_bind].
        assert (body_end (S n) false code p = body_end (S n) true code p) as ->
          by (simpl; rewrite Hc; done).
        rewrite Hbody.
        destruct (Z.ltb_spec p' end_).
        -- apply IH; lia.
        -- destruct fuel as [|fuel]; [lia|]. simpl.
           by replace (p' + 1 <? end_) with false by lia.
      * simpl. rewrite Hc.
        rewrite (proj2 (Z.eqb_neq _ _) Hd), (proj2 (Z.eqb_neq _ _) Hb).
        replace n with (Z.to_nat (end_ - (p + 1))) by lia. apply IH; lia.
  - replace (Z.to_nat (end_ - p)) with O by lia. done.
Qed.

End DefineScan.

(** C9. When DEFINE executes with id [id] on top of the stack, inside a
    range that lies in the code block: if the two-mode scan of the rest of
    the range finds a terminating DEFINE code at [t], the entry of [id]
    becomes the body from just after DEFINE up to [t] and execution goes on
    at [t + 1], nothing else changing; if it finds none, the run ends with
    the fatal "Couldn't match" error. *)
Theorem define_records_body m0 c m1 id m :
  rd m0 = Ok (c, m1) → Z.land c 15 = C_DFN → pop m1 = Ok (id, m) →
  0 ≤ id < Z.of_nat (length (fn m)) →
  0 ≤ ip m → end_ m ≤ 2 * Z.of_nat (length (code m)) →
  exe_op jmp m0 =
  match body_end (Z.to_nat (end_ m - ip m)) false (code m) (ip m) with
  | Some t =>
    Ok (Continue,
        set_fn (<[Z.to_nat id := Func (ip m) t]> (fn m)) (set_ip (t + 1) m))
  | None => Exit NoMatchDfn
  end.
Proof.
  intros Hrd Hc Hpop Hid Hip Hend.
  unfold exe_op. rewrite Hrd. cbn -[Z.land]. rewrite Hc.
  cbn -[Z.land]. rewrite Hpop. cbn.
  unfold dfn.
  destruct (zget_is_Some (fn m) id Hid) as [f Hf]. rewrite Hf. cbn.
  rewrite zset_in_range by done. cbn -[dfn_close_loop code_fuel].
  unfold dfn_close. cbn -[dfn_close_loop code_fuel].
  rewrite (dfn_close_loop_spec (code m) (end_ m) Hend) by
    (try done; unfold code_fuel; lia).
  destruct (body_end _ false (code m) (ip m)) as [t|]; [|done].
  cbn. 
  assert (Hs : zset (fn m) id (Func (ip m) (fn_end f)) =
               Some (<[Z.to_nat id := Func (ip m) (fn_end f)]> (fn m)))
    by (by apply zset_in_range).
  rewrite (zget_zset _ _ _ id _ Hs), bool_decide_eq_true_2 by done. cbn.
  rewrite zset_in_range by (by rewrite length_insert). cbn.
  rewrite list_insert_insert_eq. unfold set_fn, set_ip. cbn.
  by replace (t + 1 - 1) with t by lia.
Qed.

Lemma define_records_body_witness :
  exe_op jmp at_define =
  match body_end (Z.to_nat (9 - 4)) false (code at_define) 4 with
  | Some t =>
    Ok (Continue,
        set_fn (<[Z.to_nat 4 := Func 4 t]> (fn at_define))
               (set_ip (t + 1) (set_sp 0 (set_ip 4 at_define))))
  | None => Exit NoMatchDfn
  end.
Proof.
  apply (define_records_body at_define 9 (set_ip 4 at_define) 4
           (set_sp 0 (set_ip 4 at_define))).
  - reflexivity.
  - reflexivity.
  - reflexivity.
  - simpl. lia.
  - simpl. lia.
  - simpl. lia.
Defined.

(** ** The operand stack as a list *)

Lemma stack_length m :
  0 ≤ sp m ≤ Z.of_nat (length (st m)) → Z.of_nat (length (stack m)) = sp m.
Proof. intros H. unfold stack. rewrite length_take. lia. Qed.

Lemma pop_stack m l x :
  sp m ≤ Z.of_nat (length (st m)) → stack m = l ++ [x] →
  pop m = Ok (x, set_sp (sp m - 1) m) ∧
  stack (set_sp (sp m - 1) m) = l ∧ 1 ≤ sp m.
Proof.
  intros Hsp Hst. unfold stack in *.
  assert (Hlen : length (take (Z.to_nat (sp m)) (st m)) = S (length l))
    by (rewrite Hst, length_app; simpl; lia).
  rewrite length_take in Hlen.
  assert (Hn : Z.to_nat (sp m) = S (length l)) by lia.
  assert (Hn' : Z.to_nat (sp m - 1) = length l) by lia.
  assert (Hx : st m !! length l = Some x).
  { rewrite <- (lookup_take_lt _ (Z.to_nat (sp m))) by lia.
    rewrite Hst. by rewrite lookup_app_r, Nat.sub_diag by lia. }
  split_and!; [|simpl|lia].
  - unfold pop, zget. rewrite bool_decide_eq_true_2 by lia.
    rewrite Hn', Hx. done.
  - rewrite Hn'. rewrite Hn, (take_S_r _ _ x Hx) in Hst.
    by apply app_inj_tail in Hst as [-> _].
Qed.

Lemma push_stack v m :
  0 ≤ sp m < Z.of_nat (length (st m)) →
  let m' := set_sp (sp m + 1)
              (set_st (<[Z.to_nat (sp m) := v]> (st m)) m) in
  push v m = Ok m' ∧ stack m' = stack m ++ [v].
Proof.
  intros Hsp m'. split.
  - unfold push. rewrite zset_in_range by done. done.
  - unfold stack, m'. simpl.
    replace (Z.to_nat (sp m + 1)) with (S (Z.to_nat (sp m))) by lia.
    rewrite (take_S_r _ _ v) by (apply list_lookup_insert_eq; lia).
    by rewrite take_insert_ge by lia.
Qed.

(** ** Fuel *)

Section Fuel.

Variable resolve : Z → Z → Z → Z → machine → result machine.

Lemma exe_S n m :
  exe resolve (S n) m =
  if ip m <? end_ m then
    '(k, m) ← exe_op resolve m;
    match k with Return => Ok m | Continue => exe resolve n m end
  else Ok m.
Proof. reflexivity. Qed.

Lemma frloop_S n m :
  frloop resolve (S n) m =
  m ← exe resolve (S n) m;
  let m := set_fp (fp m - 1) m in
  if fp m =? 0 then Ok m
  else
    f ← or_undef (FrOOB (fp m)) (zget (fr m) (fp m));
    let m := set_ip (f_ip f) m in
    let m := set_start (f_start f) m in
    let m := set_end (f_end f) m in
    let m := set_ra (f_ra f) m in
    frloop resolve n m.
Proof. reflexivity. Qed.

Lemma exe_more_fuel n : ∀ m r,
  exe resolve n m = r → r ≠ OutOfFuel → exe resolve (S n) m = r.
Proof.
  induction n as [|n IH]; intros m r H Hr; [by subst r|].
  rewrite exe_S in H. rewrite exe_S.
  destruct (ip m <? end_ m); [|done].
  destruct (exe_op resolve m) as [[[] m']| | |]; cbn in H |- *; try done.
  by apply IH.
Qed.

Lemma exe_fuel_le n n' m r :
  exe resolve n m = r → r ≠ OutOfFuel → (n ≤ n')%nat →
  exe resolve n' m = r.
Proof.
  intros H Hr Hle. induction Hle as [|n' Hle IH]; [done|].
  by apply exe_more_fuel.
Qed.

Lemma frloop_more_fuel n : ∀ m r,
  frloop resolve n m = r → r ≠ OutOfFuel → frloop resolve (S n) m = r.
Proof.
  induction n as [|n IH]; intros m r H Hr; [by subst r|].
  rewrite frloop_S in H. rewrite frloop_S.
  destruct (exe resolve (S n) m) as [m1| | |] eqn:E;
    rewrite (exe_more_fuel _ _ _ E) by done; cbn in H |- *; try done.
  destruct (fp m1 - 1 =? 0); [done|].
  destruct (zget (fr m1) (fp m1 - 1)) as [f|]; [|done]. cbn in H |- *.
  by apply IH.
Qed.

Lemma frloop_fuel_le n n' m r :
  frloop resolve n m = r → r ≠ OutOfFuel → (n ≤ n')%nat →
  frloop resolve n' m = r.
Proof.
  intros H Hr Hle. induction Hle as [|n' Hle IH]; [done|].
  by apply frloop_more_fuel.
Qed.

(** More fuel does not change the outcome of a run. *)
Lemma b4cmd_fuel_le n n' cmd m0 r :
  b4cmd_with resolve n cmd m0 = r → r ≠ OutOfFuel → (n ≤ n')%nat →
  b4cmd_with resolve n' cmd m0 = r.
Proof.
  unfold b4cmd_with. intros H Hr Hle.
  destruct (if ready m0 then Ok m0 else init m0) as [m1| | |]; [|done..].
  cbn [mbind result_bind] in *.
  destruct (b4asm cmd (nm m1)) as [[[c csz] nm']| | |]; [|done..].
  cbn [mbind result_bind] in *.
  destruct (sym _ _) as [[entry nm'']| | |]; [|done..].
  cbn [mbind result_bind] in *.
  destruct (zset _ entry _) as [fn'|]; [|done].
  cbn [mbind result_bind or_undef] in *.
  destruct (run entry _) as [m2| | |]; [|done..].
  cbn [mbind result_bind] in *.
  destruct (frloop resolve n m2) as [a| | |] eqn:E;
    cbn [mbind result_bind] in H;
    try (rewrite (frloop_fuel_le _ _ _ _ E ltac:(done) Hle); done).
Qed.

(** A run that ends does so in the same state whatever the fuel. *)
Lemma b4cmd_fuel n n' cmd m0 m m' :
  b4cmd_with resolve n cmd m0 = Ok m → b4cmd_with resolve n' cmd m0 = Ok m' →
  m = m'.
Proof.
  intros H H'. destruct (Nat.le_ge_cases n n') as [Hle|Hle].
  - rewrite (b4cmd_fuel_le _ _ _ _ _ H ltac:(done) Hle) in H'. congruence.
  - rewrite (b4cmd_fuel_le _ _ _ _ _ H' ltac:(done) Hle) in H. congruence.
Qed.

End Fuel.

Lemma b4_fuel n n' src m m' :
  b4 n src = Ok m → b4 n' src = Ok m' → m = m'.
Proof. unfold b4, b4cmd. apply b4cmd_fuel. Qed.

Lemma b4_fuel_le n n' src r :
  b4 n src = r → r ≠ OutOfFuel → (n ≤ n')%nat → b4 n' src = r.
Proof. unfold b4, b4cmd. apply b4cmd_fuel_le. Qed.

(** ** ADD and SUB *)

Lemma rd_inv m c m1 :
  rd m = Ok (c, m1) →
  nibble (code m) (ip m) = Ok c ∧ m1 = set_ip (ip m + 1) m.
Proof.
  unfold rd, pk. intros (c' & Hc & [= <- <-])%bind_Ok. done.
Qed.

Lemma binop_stack (f : Z → Z → Z) m l a b :
  sp m ≤ Z.of_nat (length (st m)) → stack m = l ++ [a; b] →
  ∃ m', ('(x, m) ← pop m; '(y, m) ← pop m; continue (push (f x y) m))
          = Ok (Continue, m') ∧
        stack m' = l ++ [f b a] ∧
        ra m' = ra m ∧ ip m' = ip m ∧ sp m' = sp m - 1.
Proof.
  intros Hsp Hst.
  destruct (pop_stack m (l ++ [a]) b Hsp) as (E1 & Hst1 & Hsp1).
  { by rewrite <- app_assoc. }
  rewrite E1. cbn [mbind result_bind].
  destruct (pop_stack (set_sp (sp m - 1) m) l a ltac:(simpl; lia) Hst1)
    as (E2 & Hst2 & Hsp2).
  rewrite E2. cbn [mbind result_bind]. simpl in Hsp2.
  set (m2 := set_sp _ (set_sp _ m)) in *.
  destruct (push_stack (f b a) m2) as [E3 Hst3].
  { unfold m2. simpl. lia. }
  unfold continue. rewrite E3. cbn [mbind result_bind].
  eexists. split; [done|]. rewrite Hst3, Hst2.
  split_and!; try done. unfold m2. simpl. lia.
Qed.

(** C1, as the code has it.  ADD and SUB pop [x] and then [y] and push
    [x+y] and [x-y] (32-bit wrap-around): the first value popped, the top
    of the stack, is the left-hand operand.  So with [a] below [b] on the
    stack SUB leaves [b - a]; ["3 4 +"] ends with the stack [7] and
    ["5 2 -"] with the stack [-3]. *)
Theorem add_sub_operands m c m1 l a b :
  rd m = Ok (c, m1) →
  sp m ≤ Z.of_nat (length (st m)) → stack m = l ++ [a; b] →
  (Z.land c 15 = C_ADD →
   ∃ m', exe_op jmp m = Ok (Continue, m') ∧
         stack m' = l ++ [wrap32 (b + a)] ∧
         ra m' = ra m ∧ ip m' = ip m + 1) ∧
  (Z.land c 15 = C_SUB →
   ∃ m', exe_op jmp m = Ok (Continue, m') ∧
         stack m' = l ++ [wrap32 (b - a)] ∧
         ra m' = ra m ∧ ip m' = ip m + 1) ∧
  (∃ m', b4 100 "3 4 +" = Ok m' ∧ stack m' = [7]) ∧
  (∃ m', b4 100 "5 2 -" = Ok m' ∧ stack m' = [-3]).
Proof.
  intros Hrd Hsp Hst. pose proof (rd_inv _ _ _ Hrd) as [_ ->].
  split_and!.
  - intros Hc. unfold exe_op. rewrite Hrd. cbn -[Z.land]. rewrite Hc. cbn.
    destruct (binop_stack (λ x y, wrap32 (x + y)) (set_ip (ip m + 1) m) l a b
                Hsp Hst) as (m' & E & H1 & H2 & H3 & _).
    exists m'. by rewrite E.
  - intros Hc. unfold exe_op. rewrite Hrd. cbn -[Z.land]. rewrite Hc. cbn.
    destruct (binop_stack (λ x y, wrap32 (x - y)) (set_ip (ip m + 1) m) l a b
                Hsp Hst) as (m' & E & H1 & H2 & H3 & _).
    exists m'. by rewrite E.
  - eexists. split; [vm_compute; reflexivity|reflexivity].
  - eexists. split; [vm_compute; reflexivity|reflexivity].
Qed.

Lemma add_sub_operands_witness :
  (Z.land 2 15 = C_ADD →
   ∃ m', exe_op jmp at_sub = Ok (Continue, m') ∧
         stack m' = [] ++ [wrap32 (2 + 5)] ∧
         ra m' = ra at_sub ∧ ip m' = ip at_sub + 1) ∧
  (Z.land 2 15 = C_SUB →
   ∃ m', exe_op jmp at_sub = Ok (Continue, m') ∧
         stack m' = [] ++ [wrap32 (2 - 5)] ∧
         ra m' = ra at_sub ∧ ip m' = ip at_sub + 1) ∧
  (∃ m', b4 100 "3 4 +" = Ok m' ∧ stack m' = [7]) ∧
  (∃ m', b4 100 "5 2 -" = Ok m' ∧ stack m' = [-3]).
Proof.
  apply (add_sub_operands at_sub 2 (set_ip 1 at_sub) [] 5 2).
  - reflexivity.
  - simpl. lia.
  - reflexivity.
Defined.

(** C1 as stated fails: no run of ["5 2 -"] ends with the stack [3]. *)
Lemma sub_five_two_is_not_three :
  ¬ ∃ fuel m, b4 fuel "5 2 -" = Ok m ∧ stack m = [3].
Proof.
  intros (fuel & m & H & Hst).
  assert (H100 : ∃ m', b4 100 "5 2 -" = Ok m' ∧ stack m' = [-3])
    by (eexists; split; [vm_compute; reflexivity|reflexivity]).
  destruct H100 as (m' & H' & Hst').
  pose proof (b4_fuel _ _ _ _ _ H H') as ->. congruence.
Qed.

(** ** The stack pointer *)

Ltac bind_inv H :=
  let a := fresh "a" in
  let E := fresh "E" in
  apply bind_Ok in H as (a & E & H);
  lazymatch type of a with
  | (_ * _)%type => destruct a as [? ?]
  | _ => idtac
  end;
  cbn [mbind result_bind] in H.

Lemma pop_inv m v m' :
  pop m = Ok (v, m') →
  m' = set_sp (sp m - 1) m ∧ 0 ≤ sp m - 1 < Z.of_nat (length (st m)).
Proof.
  unfold pop. intros H. bind_inv H. injection H as <- <-.
  apply or_undef_Ok in E. by apply zget_lt in E.
Qed.

Lemma pop_ok m v m' : stack_ok m → pop m = Ok (v, m') → stack_ok m'.
Proof.
  unfold stack_ok. intros Hok [-> H]%pop_inv. simpl. lia.
Qed.

Lemma push_inv v m m' :
  push v m = Ok m' →
  0 ≤ sp m < Z.of_nat (length (st m)) ∧ sp m' = sp m + 1 ∧
  length (st m') = length (st m).
Proof.
  unfold push. intros H. bind_inv H. injection H as <-.
  apply or_undef_Ok in E. pose proof (zset_length _ _ _ _ E).
  apply zset_Some in E as [E _]. done.
Qed.

Lemma push_ok v m m' : push v m = Ok m' → stack_ok m'.
Proof. unfold stack_ok. intros (H1 & H2 & H3)%push_inv. lia. Qed.

Lemma bcd_ok m m' : bcd m = Ok m' → stack_ok m'.
Proof.
  unfold bcd. intros H. bind_inv H. by apply push_ok in H.
Qed.

Lemma rw_ok i m m' : stack_ok m → rw i m = Ok m' → stack_ok m'.
Proof.
  unfold rw. intros Hok H. destruct (0 <=? i).
  - bind_inv H. by apply push_ok in H.
  - bind_inv H. bind_inv H. injection H as <-.
    apply (pop_ok _ _ _ Hok) in E. unfold stack_ok in *. simpl.
    apply or_undef_Ok in E0. apply zset_length in E0. lia.
Qed.

Lemma say_scan_range fuel st0 : ∀ s s',
  0 ≤ s → say_scan fuel st0 s = Ok s' → 0 ≤ s' ≤ s.
Proof.
  induction fuel as [|fuel IH]; intros s s' Hs H; [done|].
  simpl in H. destruct (Z.eqb_spec s 0) as [->|Hne].
  - injection H as <-. lia.
  - bind_inv H. destruct (a =? 0).
    + injection H as <-. lia.
    + apply IH in H; lia.
Qed.

Lemma say_print_stack n : ∀ s m m',
  say_print n s m = Ok m' → st m' = st m ∧ sp m' = sp m.
Proof.
  induction n as [|n IH]; intros s m m' H; simpl in H.
  - by injection H as <-.
  - bind_inv H. by apply IH in H.
Qed.

Lemma swi_ok id m m' : stack_ok m → swi id m = Ok m' → stack_ok m'.
Proof.
  unfold swi, stack_ok. intros Hok H.
  destruct (id =? SI_TOP).
  - bind_inv H. by injection H as <-.
  - destruct (id =? SI_SAY).
    + bind_inv H. bind_inv H. injection H as <-. simpl.
      apply say_print_stack in E0 as [-> ->]. simpl.
      apply say_scan_range in E; lia.
    + by destruct (id =? SI_HLT).
Qed.

Lemma run_ok id m m' : stack_ok m → run id m = Ok m' → stack_ok m'.
Proof.
  unfold run. intros Hok H. bind_inv H.
  destruct (fn_end a =? 0); [by eapply swi_ok|].
  bind_inv H. by injection H as <-.
Qed.

Lemma dfn_stack id m m' : dfn id m = Ok m' → st m' = st m ∧ sp m' = sp m.
Proof.
  unfold dfn. intros H. do 2 bind_inv H.
  bind_inv H. unfold dfn_close in E1. bind_inv E1. injection E1 as <- <-.
  do 2 bind_inv H. by injection H as <-.
Qed.

Lemma jmp_stack o c i e m m' :
  jmp o c i e m = Ok m' → st m' = st m ∧ sp m' = sp m.
Proof.
  unfold jmp. intros H. bind_inv H.
  destruct (negb (a =? BADIP)); [by injection H as <-|].
  do 2 bind_inv H. by injection H as <-.
Qed.

Lemma LJ_stack o c m m' :
  LJ jmp o c m = Ok m' → st m' = st m ∧ sp m' = sp m.
Proof.
  unfold LJ. intros H. destruct (negb (ra m =? 0)).
  - by apply jmp_stack in H.
  - by injection H as <-.
Qed.

Lemma continue_inv r k m' :
  continue r = Ok (k, m') → r = Ok m' ∧ k = Continue.
Proof.
  unfold continue. intros H. bind_inv H. by injection H as <- <-.
Qed.

Lemma exe_op_ok m k m' :
  stack_ok m → exe_op jmp m = Ok (k, m') → stack_ok m'.
Proof.
  intros Hok H. unfold exe_op in H. bind_inv H.
  apply rd_inv in E as [_ ->].
  assert (Hok1 : stack_ok (set_ip (ip m + 1) m)) by done.
  revert H Hok1. generalize (set_ip (ip m + 1) m). clear m Hok.
  intros m H Hok. set (c := Z.land z 15) in *. clearbody c.
  repeat match type of H with
  | (if ?b then _ else _) = _ => destruct b
  end.
  - apply continue_inv in H as [H _]. by apply bcd_ok in H.
  - do 2 bind_inv H. apply continue_inv in H as [H _]. by apply push_ok in H.
  - do 2 bind_inv H. apply continue_inv in H as [H _]. by apply push_ok in H.
  - do 2 bind_inv H. apply continue_inv in H as [H _]. by apply push_ok in H.
  - bind_inv H. apply continue_inv in H as [H _].
    eapply rw_ok; [|done]. by eapply pop_ok.
  - bind_inv H. apply continue_inv in H as [[= <-] _].
    by apply (pop_ok _ _ _ Hok) in E.
  - apply continue_inv in H as [H _]. by apply push_ok in H.
  - bind_inv H. apply continue_inv in H as [[= <-] _]. by eapply pop_ok.
  - do 3 bind_inv H. apply continue_inv in H as [H _]. by apply push_ok in H.
  - bind_inv H. apply continue_inv in H as [H _].
    apply (pop_ok _ _ _ Hok) in E. apply dfn_stack in H as [H1 H2].
    unfold stack_ok in *. by rewrite H1, H2.
  - bind_inv H. apply continue_inv in H as [H _].
    eapply run_ok; [|done]. by eapply pop_ok.
  - by injection H as <- <-.
  - bind_inv H. apply (pop_ok _ _ _ Hok) in E.
    destruct (z0 =? 0); apply continue_inv in H as [H _].
    + apply jmp_stack in H as [H1 H2]. unfold stack_ok in *. by rewrite H1, H2.
    + by injection H as <-.
  - apply continue_inv in H as [H _]. apply LJ_stack in H as [H1 H2].
    unfold stack_ok in *. by rewrite H1, H2.
  - bind_inv H. apply (pop_ok _ _ _ Hok) in E.
    destruct (z0 <=? 0); apply continue_inv in H as [H _].
    + apply jmp_stack in H as [H1 H2]. unfold stack_ok in *. by rewrite H1, H2.
    + by injection H as <-.
  - apply continue_inv in H as [H _]. apply LJ_stack in H as [H1 H2].
    unfold stack_ok in *. by rewrite H1, H2.
Qed.

(** No instruction resizes [st]. *)
Lemma pop_len m v m' : pop m = Ok (v, m') → length (st m') = length (st m).
Proof. by intros [-> _]%pop_inv. Qed.

Lemma push_len v m m' : push v m = Ok m' → length (st m') = length (st m).
Proof. by intros (_ & _ & H)%push_inv. Qed.

Lemma rw_len i m m' : rw i m = Ok m' → length (st m') = length (st m).
Proof.
  unfold rw. intros H. destruct (0 <=? i).
  - bind_inv H. by apply push_len in H.
  - bind_inv H. bind_inv H. injection H as <-. simpl.
    apply pop_len in E. apply or_undef_Ok in E0. apply zset_length in E0.
    congruence.
Qed.

Lemma run_len id m m' : run id m = Ok m' → length (st m') = length (st m).
Proof.
  unfold run. intros H. bind_inv H. destruct (fn_end a =? 0).
  - unfold swi in H. destruct (id =? SI_TOP).
    + bind_inv H. by injection H as <-.
    + destruct (id =? SI_SAY); [|by destruct (id =? SI_HLT)].
      bind_inv H. bind_inv H. injection H as <-. simpl.
      by apply say_print_stack in E1 as [-> _].
  - bind_inv H. by injection H as <-.
Qed.

Lemma exe_op_len m k m' :
  exe_op jmp m = Ok (k, m') → length (st m') = length (st m).
Proof.
  intros H. unfold exe_op in H. bind_inv H.
  apply rd_inv in E as [_ ->].
  change (length (st m)) with (length (st (set_ip (ip m + 1) m))).
  revert H. generalize (set_ip (ip m + 1) m). clear m.
  intros m H. set (c := Z.land z 15) in *. clearbody c.
  repeat match type of H with
  | (if ?b then _ else _) = _ => destruct b
  end.
  - apply continue_inv in H as [H _]. unfold bcd in H. bind_inv H.
    by apply push_len in H.
  - do 2 bind_inv H. apply continue_inv in H as [H _].
    apply push_len in H. apply pop_len in E, E0. congruence.
  - do 2 bind_inv H. apply continue_inv in H as [H _].
    apply push_len in H. apply pop_len in E, E0. congruence.
  - do 2 bind_inv H. apply continue_inv in H as [H _].
    apply push_len in H. apply pop_len in E, E0. congruence.
  - bind_inv H. apply continue_inv in H as [H _].
    apply rw_len in H. apply pop_len in E. congruence.
  - bind_inv H. apply continue_inv in H as [[= <-] _].
    by apply pop_len in E.
  - apply continue_inv in H as [H _]. by apply push_len in H.
  - bind_inv H. apply continue_inv in H as [[= <-] _]. by apply pop_len in E.
  - do 3 bind_inv H. apply continue_inv in H as [H _].
    apply push_len in H, E1. apply pop_len in E, E0. congruence.
  - bind_inv H. apply continue_inv in H as [H _].
    apply dfn_stack in H as [H _]. apply pop_len in E. congruence.
  - bind_inv H. apply continue_inv in H as [H _].
    apply run_len in H. apply pop_len in E. congruence.
  - by injection H as <- <-.
  - bind_inv H. apply pop_len in E.
    destruct (z0 =? 0); apply continue_inv in H as [H _].
    + apply jmp_stack in H as [H _]. congruence.
    + by injection H as <-.
  - apply continue_inv in H as [H _]. apply LJ_stack in H as [H _]. congruence.
  - bind_inv H. apply pop_len in E.
    destruct (z0 <=? 0); apply continue_inv in H as [H _].
    + apply jmp_stack in H as [H _]. congruence.
    + by injection H as <-.
  - apply continue_inv in H as [H _]. apply LJ_stack in H as [H _]. congruence.
Qed.

Lemma pop_empty m : sp m = 0 → pop m = Undef (StOOB (-1)).
Proof. intros H. unfold pop, zget. rewrite H. done. Qed.

(** C4, as the code has it.  [pop] tests nothing.  A popping instruction
    met with an empty stack, or a two-operand instruction met with a
    single value, takes [sp] to -1 and reads [st[-1]], outside the array:
    nothing is printed and the run does not exit with a fault.  Every
    instruction that completes with all its accesses inside [st] leaves
    [sp] between 0 and the size of [st]. *)
Theorem pop_is_unchecked m c m1 :
  rd m = Ok (c, m1) →
  (sp m = 0 → pops_first (Z.land c 15) →
   exe_op jmp m = Undef (StOOB (-1))) ∧
  (sp m = 1 → 1 ≤ Z.of_nat (length (st m)) → pops_twice (Z.land c 15) →
   exe_op jmp m = Undef (StOOB (-1))) ∧
  (∀ k m', stack_ok m → exe_op jmp m = Ok (k, m') →
           stack_ok m' ∧ length (st m') = length (st m)).
Proof.
  intros Hrd. pose proof (rd_inv _ _ _ Hrd) as [_ ->]. split_and!.
  - intros Hsp Hc. unfold exe_op. rewrite Hrd. cbn -[Z.land].
    rewrite (pop_empty (set_ip _ m)) by done.
    unfold pops_first in Hc.
    destruct Hc as [-> | [-> | [-> | [-> | [-> | [-> | [-> | [-> | [-> | [-> | ->]]]]]]]]]];
      reflexivity.
  - intros Hsp Hlen Hc. unfold exe_op. rewrite Hrd. cbn -[Z.land].
    destruct (zget_is_Some (st m) 0 ltac:(lia)) as [x Hx].
    assert (E : pop (set_ip (ip m + 1) m) =
                Ok (x, set_sp 0 (set_ip (ip m + 1) m))).
    { unfold pop. cbn [sp st set_ip]. rewrite Hsp. change (1 - 1) with 0.
      rewrite Hx. done. }
    rewrite E. cbn [mbind result_bind].
    rewrite (pop_empty (set_sp 0 _)) by done.
    destruct Hc as [-> | [-> | [-> | ->]]]; reflexivity.
  - intros k m' Hok H. split; [by eapply exe_op_ok|by eapply exe_op_len].
Qed.

Lemma pop_is_unchecked_witness :
  (sp at_add_empty = 0 → pops_first (Z.land 1 15) →
   exe_op jmp at_add_empty = Undef (StOOB (-1))) ∧
  (sp at_add_empty = 1 → 1 ≤ Z.of_nat (length (st at_add_empty)) →
   pops_twice (Z.land 1 15) →
   exe_op jmp at_add_empty = Undef (StOOB (-1))) ∧
  (∀ k m', stack_ok at_add_empty → exe_op jmp at_add_empty = Ok (k, m') →
           stack_ok m' ∧ length (st m') = length (st at_add_empty)).
Proof.
  apply (pop_is_unchecked at_add_empty 1 (set_ip 1 at_add_empty)).
  reflexivity.
Defined.

(** C4 as stated fails: ADD on an empty stack reads [st[-1]] and no fault
    is reported, whatever the fuel; and with one value on the stack, the
    value INDEX pops, ["7 $"] reads [st[-8]]. *)
Lemma underflow_reports_nothing :
  exe_op jmp at_add_empty = Undef (StOOB (-1)) ∧
  b4 1 "+" = Undef (StOOB (-1)) ∧
  (∀ fuel f, b4 fuel "+" ≠ Exit f) ∧
  b4 2 "7 $" = Undef (StOOB (-8)).
Proof.
  assert (E1 : b4 1 "+" = Undef (StOOB (-1))) by (vm_compute; reflexivity).
  assert (E0 : b4 0 "+" = OutOfFuel) by (vm_compute; reflexivity).
  split_and!; [reflexivity|done| |vm_compute; reflexivity].
  intros [|fuel] f H.
  - rewrite E0 in H. discriminate.
  - rewrite (b4_fuel_le 1 (S fuel) _ _ E1) in H; [discriminate|done|lia].
Qed.

(** ** Call frames *)

(** What the instructions other than CALL leave alone. *)
Lemma push_frames v m m' :
  push v m = Ok m' → fr m' = fr m ∧ fp m' = fp m.
Proof. unfold push. intros H. bind_inv H. by injection H as <-. Qed.

Lemma pop_frames m v m' :
  pop m = Ok (v, m') → fr m' = fr m ∧ fp m' = fp m.
Proof. by intros [-> _]%pop_inv. Qed.

Lemma bcd_frames m m' : bcd m = Ok m' → fr m' = fr m ∧ fp m' = fp m.
Proof. unfold bcd. intros H. bind_inv H. by apply push_frames in H. Qed.

Lemma rw_frames i m m' : rw i m = Ok m' → fr m' = fr m ∧ fp m' = fp m.
Proof.
  unfold rw. intros H. destruct (0 <=? i).
  - bind_inv H. by apply push_frames in H.
  - bind_inv H. bind_inv H. injection H as <-. by apply pop_frames in E.
Qed.

Lemma say_print_frames n : ∀ s m m',
  say_print n s m = Ok m' → fr m' = fr m ∧ fp m' = fp m.
Proof.
  induction n as [|n IH]; intros s m m' H; simpl in H.
  - by injection H as <-.
  - bind_inv H. by apply IH in H.
Qed.

Lemma swi_frames id m m' : swi id m = Ok m' → fr m' = fr m ∧ fp m' = fp m.
Proof.
  unfold swi. intros H. destruct (id =? SI_TOP).
  - bind_inv H. by injection H as <-.
  - destruct (id =? SI_SAY); [|by destruct (id =? SI_HLT)].
    bind_inv H. bind_inv H. injection H as <-.
    by apply say_print_frames in E0.
Qed.

Lemma dfn_frames id m m' : dfn id m = Ok m' → fr m' = fr m ∧ fp m' = fp m.
Proof.
  unfold dfn. intros H. do 2 bind_inv H.
  bind_inv H. unfold dfn_close in E1. bind_inv E1. injection E1 as <- <-.
  do 2 bind_inv H. by injection H as <-.
Qed.

Lemma jmp_frames o c i e m m' :
  jmp o c i e m = Ok m' → fr m' = fr m ∧ fp m' = fp m.
Proof.
  unfold jmp. intros H. bind_inv H.
  destruct (negb (a =? BADIP)); [by injection H as <-|].
  do 2 bind_inv H. by injection H as <-.
Qed.

Lemma LJ_frames o c m m' :
  LJ jmp o c m = Ok m' → fr m' = fr m ∧ fp m' = fp m.
Proof.
  unfold LJ. intros H. destruct (negb (ra m =? 0)).
  - by apply jmp_frames in H.
  - by injection H as <-.
Qed.

(** A bound call: the frame written, the register cleared. *)
Lemma run_bound id m m' f :
  zget (fn m) id = Some f → fn_end f ≠ 0 → run id m = Ok m' →
  zget (fr m') (fp m) = Some (Frame (start m) (end_ m) (ip m) (ra m)) ∧
  fp m' = fp m + 1 ∧ ra m' = 0 ∧
  ip m' = fn_start f ∧ start m' = fn_start f ∧ end_ m' = fn_end f ∧
  (∀ d, d ≠ fp m → zget (fr m') d = zget (fr m) d) ∧
  st m' = st m ∧ sp m' = sp m.
Proof.
  unfold run. intros Hf Hb H. rewrite Hf in H. cbn in H.
  rewrite (proj2 (Z.eqb_neq _ _) Hb) in H. bind_inv H. injection H as <-.
  apply or_undef_Ok in E. simpl. split_and!; try done.
  - rewrite (zget_zset _ _ _ (fp m) _ E). by rewrite bool_decide_eq_true_2.
  - intros d Hd. rewrite (zget_zset _ _ _ d _ E).
    by rewrite bool_decide_eq_false_2.
Qed.

Lemma run_frames id m m' :
  run id m = Ok m' →
  fp m ≤ fp m' ∧ ∀ d, d < fp m → zget (fr m') d = zget (fr m) d.
Proof.
  intros H. pose proof H as H'. unfold run in H. bind_inv H.
  apply or_undef_Ok in E.
  destruct (Z.eqb_spec (fn_end a) 0) as [Hz|Hnz].
  - apply swi_frames in H as [-> ->]. split; [lia|done].
  - destruct (run_bound id m m' a E Hnz H') as (_ & Hfp & _ & _ & _ & _ & Hfr & _).
    split; [lia|]. intros d Hd. apply Hfr. lia.
Qed.

Lemma exe_op_frames m k m' :
  exe_op jmp m = Ok (k, m') →
  fp m ≤ fp m' ∧ ∀ d, d < fp m → zget (fr m') d = zget (fr m) d.
Proof.
  intros H. unfold exe_op in H. bind_inv H.
  apply rd_inv in E as [_ ->].
  change (fp m) with (fp (set_ip (ip m + 1) m)).
  change (fr m) with (fr (set_ip (ip m + 1) m)).
  revert H. generalize (set_ip (ip m + 1) m). clear m.
  intros m H. set (c := Z.land z 15) in *. clearbody c.
  assert (Hsame : fr m' = fr m ∧ fp m' = fp m →
            fp m ≤ fp m' ∧ ∀ d, d < fp m → zget (fr m') d = zget (fr m) d).
  { intros [-> ->]. split; [lia|done]. }
  repeat match type of H with
  | (if ?b then _ else _) = _ => destruct b
  end.
  - apply continue_inv in H as [H _]. apply Hsame. by eapply bcd_frames.
  - do 2 bind_inv H. apply continue_inv in H as [H _]. apply Hsame.
    apply push_frames in H as [-> ->]. apply pop_frames in E0 as [-> ->].
    by apply pop_frames in E.
  - do 2 bind_inv H. apply continue_inv in H as [H _]. apply Hsame.
    apply push_frames in H as [-> ->]. apply pop_frames in E0 as [-> ->].
    by apply pop_frames in E.
  - do 2 bind_inv H. apply continue_inv in H as [H _]. apply Hsame.
    apply push_frames in H as [-> ->]. apply pop_frames in E0 as [-> ->].
    by apply pop_frames in E.
  - bind_inv H. apply continue_inv in H as [H _]. apply Hsame.
    apply rw_frames in H as [-> ->]. by apply pop_frames in E.
  - bind_inv H. apply continue_inv in H as [[= <-] _]. apply Hsame.
    by apply pop_frames in E.
  - apply continue_inv in H as [H _]. apply Hsame. by eapply push_frames.
  - bind_inv H. apply continue_inv in H as [[= <-] _]. apply Hsame.
    by apply pop_frames in E.
  - do 3 bind_inv H. apply continue_inv in H as [H _]. apply Hsame.
    apply push_frames in H as [-> ->]. apply push_frames in E1 as [-> ->].
    apply pop_frames in E0 as [-> ->]. by apply pop_frames in E.
  - bind_inv H. apply continue_inv in H as [H _]. apply Hsame.
    apply dfn_frames in H as [-> ->]. by apply pop_frames in E.
  - bind_inv H. apply continue_inv in H as [H _].
    apply pop_frames in E as [<- <-]. by apply run_frames in H.
  - injection H as _ <-. by apply Hsame.
  - bind_inv H. apply Hsame. apply pop_frames in E as [<- <-].
    destruct (z0 =? 0); apply continue_inv in H as [H _].
    + by eapply jmp_frames.
    + by injection H as <-.
  - apply continue_inv in H as [H _]. apply Hsame. by eapply LJ_frames.
  - bind_inv H. apply Hsame. apply pop_frames in E as [<- <-].
    destruct (z0 <=? 0); apply continue_inv in H as [H _].
    + by eapply jmp_frames.
    + by injection H as <-.
  - apply continue_inv in H as [H _]. apply Hsame. by eapply LJ_frames.
Qed.

Lemma unwind_inv m m' :
  unwind m = Ok (Resumed m') →
  fp m' = fp m - 1 ∧ fr m' = fr m ∧ st m' = st m ∧ sp m' = sp m ∧
  ∃ f, zget (fr m) (fp m - 1) = Some f ∧
       ip m' = f_ip f ∧ start m' = f_start f ∧ end_ m' = f_end f ∧
       ra m' = f_ra f.
Proof.
  unfold unwind. cbn. destruct (fp m - 1 =? 0); [done|].
  intros H. bind_inv H. injection H as <-. apply or_undef_Ok in E.
  simpl. split_and!; try done. by exists a.
Qed.

Lemma tick_inv m m' :
  tick m = Ok (Resumed m') →
  exe_op jmp m = Ok (Continue, m') ∨
  ∃ ma, fp m ≤ fp ma ∧ (∀ d, d < fp m → zget (fr ma) d = zget (fr m) d) ∧
        unwind ma = Ok (Resumed m').
Proof.
  unfold tick. destruct (ip m <? end_ m).
  - intros H. bind_inv H. destruct c.
    + injection H as <-. by left.
    + right. exists m0. apply exe_op_frames in E as [? ?]. done.
  - intros H. right. exists m. split; [lia|done].
Qed.

Section Depth.

Variables (d : Z) (F : frame).

Lemma tick_keeps_frame m m1 :
  d < fp m → zget (fr m) d = Some F →
  tick m = Ok (Resumed m1) → zget (fr m1) d = Some F.
Proof.
  intros Hd HF [H|(ma & Hfp & Hfr & H)]%tick_inv.
  - apply exe_op_frames in H as [_ H]. by rewrite H.
  - apply unwind_inv in H as (_ & -> & _). by rewrite Hfr.
Qed.

Lemma run_above_keeps_frame m m' :
  run_above d m m' → d < fp m → zget (fr m) d = Some F →
  d < fp m' ∧ zget (fr m') d = Some F.
Proof.
  induction 1 as [m|m m1 m' Ht Hd1 _ IH]; intros Hd HF; [done|].
  apply IH; [done|]. by eapply tick_keeps_frame.
Qed.

(** The turn that brings the run back to depth [d] restores frame [d]. *)
Lemma callee_run_restores m m' :
  zget (fr m) d = Some F → callee_run d m m' →
  ra m' = f_ra F ∧ ip m' = f_ip F ∧ start m' = f_start F ∧
  end_ m' = f_end F.
Proof.
  intros HF (Hd & m_last & Hrun & Ht & Hfp).
  destruct (run_above_keeps_frame _ _ Hrun Hd HF) as [Hdl HFl].
  apply tick_inv in Ht as [H|(ma & Hle & Hfr & H)].
  - apply exe_op_frames in H as [H _]. lia.
  - apply unwind_inv in H as (Hfp' & _ & _ & _ & f & Hf & H1 & H2 & H3 & H4).
    assert (fp ma - 1 = d) as Hd' by lia. rewrite Hd' in Hf.
    rewrite Hfr in Hf by lia. rewrite HFl in Hf. injection Hf as <-. done.
Qed.

Lemma run_above_trans m1 m2 m3 :
  run_above d m1 m2 → run_above d m2 m3 → run_above d m1 m3.
Proof.
  induction 1 as [m|m ma mb Ht Hd1 _ IH]; [done|].
  intros H. apply (run_above_step d m ma m3); auto.
Qed.

Lemma exe_path k : ∀ m ma,
  exe jmp k m = Ok ma → d < fp m →
  ∃ m_last, run_above d m m_last ∧ d < fp m_last ∧
            tick m_last = unwind ma ∧ fp m_last ≤ fp ma.
Proof.
  induction k as [|k IH]; intros m ma H Hd; [done|].
  rewrite exe_S in H. destruct (ip m <? end_ m) eqn:Hip.
  - bind_inv H. destruct c.
    + pose proof (exe_op_frames _ _ _ E) as [Hfp _].
      destruct (IH m0 ma H ltac:(lia)) as (ml & Hr & Hdl & Ht & Hle).
      exists ml. split_and!; try done.
      apply (run_above_step d m m0 ml); [|lia|done].
      unfold tick. by rewrite Hip, E.
    + injection H as <-. exists m.
      split; [apply run_above_refl|]. split; [done|]. split.
      * unfold tick. by rewrite Hip, E.
      * by apply exe_op_frames in E as [? _].
  - injection H as <-. exists m.
    split; [apply run_above_refl|]. split; [done|]. split; [|lia].
    unfold tick. by rewrite Hip.
Qed.

(** A run that completes comes back from every depth above [d >= 1]. *)
Lemma frloop_returns n : ∀ m mf,
  frloop jmp n m = Ok mf → 1 ≤ d → d < fp m → ∃ m2, callee_run d m m2.
Proof.
  induction n as [|n IH]; intros m mf H H1 Hd; [done|].
  rewrite frloop_S in H. bind_inv H.
  destruct (exe_path _ _ _ E Hd) as (ml & Hr & Hdl & Ht & Hle).
  cbn in H. destruct (fp a - 1 =? 0) eqn:Hz; [lia|].
  bind_inv H. apply or_undef_Ok in E0.
  set (m_r := set_ra _ _) in H.
  assert (Hu : unwind a = Ok (Resumed m_r)).
  { unfold unwind. cbn. rewrite Hz, E0. done. }
  rewrite Hu in Ht.
  destruct (decide (fp a - 1 = d)) as [Heq|Hne].
  - exists m_r. split; [done|]. exists ml. by split_and!.
  - assert (Hdr : d < fp m_r) by (unfold m_r; simpl; lia).
    destruct (IH m_r mf H H1 Hdr) as (m2 & _ & ml2 & Hr2 & Ht2 & Hfp2).
    exists m2. split; [done|]. exists ml2. split_and!; try done.
    eapply run_above_trans; [exact Hr|].
    by apply (run_above_step d ml m_r ml2).
Qed.

End Depth.

(** C6. A CALL of a bound function saves the caller's register (with the
    return position and the caller's range) in the frame it pushes and
    starts the callee with the register at zero; when the run first comes
    back to the caller's depth, the register, the position and the range
    are the caller's again; and a run that completes does come back.  For
    example [dbl:2*:] doubles its argument: called with 3 while the
    register holds 7, it leaves 6 on the stack and 7 in the register, and
    a callee that pushes its register pushes 0. *)
Theorem call_saves_and_restores_register m0 c ma id m f m1 :
  rd m0 = Ok (c, ma) → Z.land c 15 = C_RUN → pop ma = Ok (id, m) →
  zget (fn m) id = Some f → fn_end f ≠ 0 →
  exe_op jmp m0 = Ok (Continue, m1) →
  zget (fr m1) (fp m0) =
    Some (Frame (start m0) (end_ m0) (ip m0 + 1) (ra m0)) ∧
  fp m1 = fp m0 + 1 ∧ ra m1 = 0 ∧
  ip m1 = fn_start f ∧ start m1 = fn_start f ∧ end_ m1 = fn_end f ∧
  (∀ m2, callee_run (fp m0) m1 m2 →
         ra m2 = ra m0 ∧ ip m2 = ip m0 + 1 ∧
         start m2 = start m0 ∧ end_ m2 = end_ m0) ∧
  (∀ n mf, 1 ≤ fp m0 → frloop jmp n m1 = Ok mf →
           ∃ m2, callee_run (fp m0) m1 m2) ∧
  (∃ mf, b4 100 "dbl:2*:7=3 .dbl" = Ok mf ∧ stack mf = [6] ∧ ra mf = 7) ∧
  (∃ mf, b4 100 "f:?:7=.f" = Ok mf ∧ stack mf = [0] ∧ ra mf = 7).
Proof.
  intros Hrd Hc Hpop Hf Hb Hexe.
  pose proof (rd_inv _ _ _ Hrd) as [_ ->].
  pose proof (pop_inv _ _ _ Hpop) as [-> _].
  unfold exe_op in Hexe. rewrite Hrd in Hexe. cbn -[Z.land] in Hexe.
  rewrite Hc in Hexe. cbn in Hexe. rewrite Hpop in Hexe.
  cbn [mbind result_bind] in Hexe. apply continue_inv in Hexe as [Hrun _].
  destruct (run_bound _ _ _ _ Hf Hb Hrun)
    as (Hfr & Hfp & Hra & Hip & Hst & Hen & _).
  simpl in Hfr, Hfp.
  split_and!; try done.
  - intros m2 Hcr.
    by destruct (callee_run_restores _ _ _ _ Hfr Hcr) as (? & ? & ? & ?).
  - intros n mf H1 Hfl. eapply frloop_returns; [done|done|lia].
  - eexists. split; [vm_compute; reflexivity|]. split; reflexivity.
  - eexists. split; [vm_compute; reflexivity|]. split; reflexivity.
Qed.

Lemma call_saves_and_restores_register_witness :
  zget (fr (set_ra 0 (set_ip 4 (set_end 8 (set_start 4 (set_fp 2
         (set_fr (<[1%nat := Frame 0 20 20 7]> (fr at_call))
                 (set_sp 1 at_call)))))))) (fp at_call) =
    Some (Frame (start at_call) (end_ at_call) (ip at_call + 1) (ra at_call)).
Proof.
  refine (proj1 (call_saves_and_restores_register at_call 10
           (set_ip 20 at_call) 4 (set_sp 1 (set_ip 20 at_call))
           (Func 4 8) _ _ _ _ _ _ _)).
  - reflexivity.
  - reflexivity.
  - reflexivity.
  - reflexivity.
  - simpl. lia.
  - reflexivity.
Defined.

(** ** The branch table *)

(** C3 fails on the code.  In [collision_src] the forward jump of the [[]
    at nibble 7 and the backward jump of the []] at nibble 9 use the same
    table slot, 8.  The first call of [f] loops back once and fills the
    slot with 8; in the second call the [[] pops 0, finds the slot filled
    and "jumps" to 8, into the body it should skip, where a scan would
    have gone to 10.  The run ends with the stack [1; 0; 1; 0]; with every
    jump resolved by the scan it ends with [1; 0]. *)
Theorem cache_key_collision :
  (∃ m, jmp C_JAO C_JAC 1 10 at_collision = Ok m ∧ ip m = 8) ∧
  (∃ m, jmp_fresh C_JAO C_JAC 1 10 at_collision = Ok m ∧ ip m = 10) ∧
  (∃ m, b4cmd_with jmp 100 (codes collision_src) boot = Ok m ∧
        stack m = [1; 0; 1; 0]) ∧
  (∃ m, b4cmd_with jmp_fresh 100 (codes collision_src) boot = Ok m ∧
        stack m = [1; 0]) ∧
  (∀ n n' m m',
     b4cmd_with jmp n (codes collision_src) boot = Ok m →
     b4cmd_with jmp_fresh n' (codes collision_src) boot = Ok m' →
     stack m ≠ stack m').
Proof.
  assert (Hc : ∃ m, b4cmd_with jmp 100 (codes collision_src) boot = Ok m ∧
                    stack m = [1; 0; 1; 0])
    by (eexists; split; [vm_compute; reflexivity|reflexivity]).
  assert (Hf : ∃ m, b4cmd_with jmp_fresh 100 (codes collision_src) boot = Ok m ∧
                    stack m = [1; 0])
    by (eexists; split; [vm_compute; reflexivity|reflexivity]).
  split; [|split; [|split; [exact Hc|split; [exact Hf|]]]].
  - eexists; split; [vm_compute; reflexivity|reflexivity].
  - eexists; split; [vm_compute; reflexivity|reflexivity].
  - intros n n' m m' H H'.
    destruct Hc as (mc & Ec & Hsc). destruct Hf as (mf & Ef & Hsf).
    rewrite (b4cmd_fuel _ _ _ _ _ _ _ H Ec).
    rewrite (b4cmd_fuel _ _ _ _ _ _ _ H' Ef).
    rewrite Hsc, Hsf. discriminate.
Qed.

(** ** The string built-in *)

(** C5 fails on the code.  After ['Hi'] the stack holds 0, 72, 105; the
    built-in walks down to the 0, sets [sp] there, and prints from that
    slot upward: the terminator is written out as a NUL byte before [H]
    and [i].  The stack part of the claim holds: the codes and the
    terminator are gone and what lay below (here 9) is untouched. *)
Theorem say_prints_terminator :
  (∃ m, b4 100 "'Hi'.say" = Ok m ∧
        out m = [PrintCodeSize 7; Putchar 0; Putchar 72; Putchar 105;
                 Putchar 10] ∧
        stack m = []) ∧
  (∃ m, b4 100 "9 'Hi'.say" = Ok m ∧
        out m = [PrintCodeSize 8; Putchar 0; Putchar 72; Putchar 105;
                 Putchar 10] ∧
        stack m = [9]) ∧
  (∀ fuel m, b4 fuel "'Hi'.say" = Ok m →
             out m ≠ [PrintCodeSize 7; Putchar 72; Putchar 105; Putchar 10]).
Proof.
  assert (H1 : ∃ m, b4 100 "'Hi'.say" = Ok m ∧
                    out m = [PrintCodeSize 7; Putchar 0; Putchar 72;
                             Putchar 105; Putchar 10] ∧
                    stack m = [])
    by (eexists; split; [vm_compute; reflexivity|split; reflexivity]).
  split; [exact H1|split].
  - eexists; split; [vm_compute; reflexivity|split; reflexivity].
  - intros fuel m H. destruct H1 as (m1 & E1 & Hout & _).
    rewrite (b4_fuel _ _ _ _ _ H E1), Hout. discriminate.
Qed.

(** ** The assembler's ['.'] *)

(** C7, as the code has it.  At a ['.'] the assembler looks at the next
    character.  If that is not a letter or an underscore (the NUL at the
    end of the text included) it emits one call code there and nothing
    else.  If it is, it emits nothing at that point: it only notes that a
    call is due, and the step that then reads the identifier emits the
    literal of the identifier's id followed by the call code. *)
Theorem dot_call_code s end_ a c' :
  char_at s (a_p a) = Ok (ch ".") → char_at s (a_p a + 1) = Ok c' →
  buf_ok (a_q a) (a_ip a) → room (a_q a) (a_ip a) 1 →
  (isalpha c' || (c' =? ch "_") = false →
   ∃ q', asm_step s end_ a =
           Ok (Asm q' (a_ip a + 1) (a_nm a) (a_p a + 1) (a_run a)) ∧
         emitted q' (a_ip a) (a_ip a + 1) = Some [C_RUN] ∧
         ∀ j, 0 ≤ j < a_ip a → bnib q' j = bnib (a_q a) j) ∧
  (isalpha c' || (c' =? ch "_") = true →
   let a' := Asm (a_q a) (a_ip a) (a_nm a) (a_p a + 1) true in
   asm_step s end_ a = Ok a' ∧
   ∀ name p' id nm',
     ident_loop (text_fuel s) s (a_p a + 1 + 1) [c'] = Ok (name, p') →
     sym name (a_nm a) = Ok (id, nm') → 0 ≤ id < 2^31 →
     room (a_q a) (a_ip a) 13 →
     ∃ ds q' ip',
       numeral id ds ∧
       asm_step s end_ a' = Ok (Asm q' ip' nm' p' false) ∧
       emitted q' (a_ip a) ip' = Some (bcd_code ds ++ [C_RUN])).
Proof.
  intros Hdot Hnext Hok Hroom. split.
  - intros Hc'. unfold asm_step. rewrite Hdot.
    cbn -[char_at emit]. rewrite Hnext. cbn -[emit]. rewrite Hc'.
    unfold emit1. cbn -[emit].
    destruct (emit_spec (a_q a) (a_ip a) C_RUN Hok Hroom)
      as (q' & E & _ & _ & Hat & Hfr); [unfold is_nibble, C_RUN; lia|].
    rewrite E. exists q'. split; [done|]. split; [|done].
    apply (emitted_written q' (a_ip a) [C_RUN]).
    intros [|k] c; simpl; [|done]. intros [= <-]. by rewrite Z.add_0_r.
  - intros Hc' a'. split.
    + unfold asm_step. rewrite Hdot.
      cbn -[char_at emit]. rewrite Hnext. cbn -[emit]. by rewrite Hc'.
    + intros name p' id nm' Hid Hsym Hrange Hroom'.
      destruct (emitBCD_spec (a_q a) (a_ip a) id Hrange Hok)
        as (ds & q1 & Hnum & E1 & Hok1 & Hlen1 & Hat1 & _ & Hlen);
        [unfold room in *; lia|].
      set (ip1 := a_ip a + Z.of_nat (length (bcd_code ds))) in *.
      destruct (emit_spec q1 ip1 C_RUN Hok1)
        as (q2 & E2 & _ & _ & Hat2 & Hfr2);
        [unfold room, ip1 in *; lia|unfold is_nibble, C_RUN; lia|].
      exists ds, q2, (ip1 + 1). split; [done|]. split.
      * unfold asm_step, a'. cbn [a_p a_q a_ip a_nm a_run].
        rewrite Hnext. cbn [mbind result_bind]. rewrite Hc'.
        rewrite Hid. cbn [mbind result_bind]. rewrite Hsym.
        cbn [mbind result_bind]. rewrite E1.
        cbn [mbind result_bind a_p a_q a_ip a_nm a_run]. by rewrite E2.
      * replace (ip1 + 1)
          with (a_ip a + Z.of_nat (length (bcd_code ds ++ [C_RUN])))
          by (rewrite length_app; simpl; unfold ip1; lia).
        apply emitted_written. intros k c Hk.
        destruct (decide (k < length (bcd_code ds))%nat) as [Hlt|Hge].
        -- rewrite lookup_app_l in Hk by done.
           rewrite Hfr2 by (destruct Hok; unfold ip1; lia). by apply Hat1.
        -- rewrite lookup_app_r in Hk by lia.
           destruct (k - length (bcd_code ds))%nat as [|k'] eqn:Hk';
             simpl in Hk; [|done].
           injection Hk as <-.
           replace (a_ip a + Z.of_nat k) with ip1 by (unfold ip1; lia). done.
Qed.

Lemma dot_call_code_witness :
  (isalpha (ch "f") || (ch "f" =? ch "_") = false →
   ∃ q', asm_step (codes ".f") 2 at_dot_name =
           Ok (Asm q' (a_ip at_dot_name + 1) (a_nm at_dot_name)
                   (a_p at_dot_name + 1) (a_run at_dot_name)) ∧
         emitted q' (a_ip at_dot_name) (a_ip at_dot_name + 1) = Some [C_RUN] ∧
         ∀ j, 0 ≤ j < a_ip at_dot_name → bnib q' j = bnib (a_q at_dot_name) j) ∧
  (isalpha (ch "f") || (ch "f" =? ch "_") = true →
   let a' := Asm (a_q at_dot_name) (a_ip at_dot_name) (a_nm at_dot_name)
                 (a_p at_dot_name + 1) true in
   asm_step (codes ".f") 2 at_dot_name = Ok a' ∧
   ∀ name p' id nm',
     ident_loop (text_fuel (codes ".f")) (codes ".f")
                (a_p at_dot_name + 1 + 1) [ch "f"] = Ok (name, p') →
     sym name (a_nm at_dot_name) = Ok (id, nm') → 0 ≤ id < 2^31 →
     room (a_q at_dot_name) (a_ip at_dot_name) 13 →
     ∃ ds q' ip',
       numeral id ds ∧
       asm_step (codes ".f") 2 a' = Ok (Asm q' ip' nm' p' false) ∧
       emitted q' (a_ip at_dot_name) ip' = Some (bcd_code ds ++ [C_RUN])).
Proof.
  apply (dot_call_code (codes ".f") 2 at_dot_name (ch "f")).
  - reflexivity.
  - reflexivity.
  - split; [simpl; lia|]. intros H. exfalso. apply H. reflexivity.
  - unfold room. simpl. lia.
Defined.

(** C7 as stated fails when a name follows: at the ['.'] of [".f"] the
    assembler emits nothing (buffer and [ip] are as before), and in the
    code of ["3.f"] the nibble after the literal 3 is the BCD opcode of
    the id's literal, the call code coming last; ["3. "] has the call
    code right after the literal. *)
Lemma dot_before_name_emits_nothing :
  asm_step (codes ".f") 2 at_dot_name = Ok (Asm [None; None] 0 [] 1 true) ∧
  b4asm (codes "3.f") [codes "top"; codes "say"; codes "hlt"; codes "_entry"]
    = Ok ([48; 10; 164; 10], 7,
          [codes "top"; codes "say"; codes "hlt"; codes "_entry"; codes "f"]) ∧
  nibble [48; 10; 164; 10] 3 = Ok C_BCD ∧
  nibble [48; 10; 164; 10] 6 = Ok C_RUN ∧
  b4asm (codes "3. ") [] = Ok ([48; 170], 4, []) ∧
  nibble [48; 170] 3 = Ok C_RUN.
Proof. split_and!; vm_compute; reflexivity. Qed.

(** ** The fuel of the inner loops is never exhausted *)

Lemma nibble_range code j c :
  nibble code j = Ok c → -1 ≤ j < 2 * Z.of_nat (length code).
Proof.
  intros H%nibble_in_block. Z.to_euclidean_division_equations; lia.
Qed.

Lemma bind_fuel {A B} (r : result A) (f : A → result B) :
  r ≠ OutOfFuel → (∀ a, r = Ok a → f a ≠ OutOfFuel) → r ≫= f ≠ OutOfFuel.
Proof. destruct r; simpl; intros H1 H2; try done. by apply H2. Qed.

Lemma or_undef_fuel {A} u (o : option A) : or_undef u o ≠ OutOfFuel.
Proof. by destruct o. Qed.

Lemma nibble_fuel code j : nibble code j ≠ OutOfFuel.
Proof.
  unfold nibble. apply bind_fuel; [apply or_undef_fuel|done].
Qed.

Lemma bcd_loop_fuel fuel : ∀ code ip v b,
  (0 < fuel)%nat →
  (-1 ≤ ip → 2 * Z.of_nat (length code) - ip < Z.of_nat fuel) →
  bcd_loop fuel code ip v b ≠ OutOfFuel.
Proof.
  induction fuel as [|fuel IH]; intros code ip v b Hpos Hm; [lia|].
  simpl. apply bind_fuel; [apply nibble_fuel|].
  intros c Hc%nibble_range.
  destruct ((0 <=? Z.land c 15) && (Z.land c 15 <=? 9)).
  - apply IH; lia.
  - by destruct ((Z.land c 15 =? BCD_N) || (Z.land c 15 =? BCD_P)).
Qed.

Lemma bcd_fuel m : bcd m ≠ OutOfFuel.
Proof.
  unfold bcd. apply bind_fuel.
  - apply bcd_loop_fuel; unfold code_fuel; lia.
  - intros [v ip'] _. unfold push. apply bind_fuel; [apply or_undef_fuel|done].
Qed.

Lemma jmp_scan_fuel_fwd fuel : ∀ code o c e ip depth,
  (0 < fuel)%nat →
  (-1 ≤ ip → 2 * Z.of_nat (length code) - ip < Z.of_nat fuel) →
  jmp_scan fuel code o c 1 e ip depth ≠ OutOfFuel.
Proof.
  induction fuel as [|fuel IH]; intros code o c e ip depth Hpos Hm; [lia|].
  simpl. destruct (ip =? e); [done|].
  apply bind_fuel; [apply nibble_fuel|].
  intros x Hx%nibble_range.
  destruct (x =? o); [apply IH; lia|].
  destruct (x =? c); [|apply IH; lia].
  destruct (depth =? 0); [done|apply IH; lia].
Qed.

Lemma jmp_scan_fuel_bwd fuel : ∀ code o c e ip depth,
  (0 < fuel)%nat →
  (ip < 2 * Z.of_nat (length code) → ip + 2 < Z.of_nat fuel) →
  jmp_scan fuel code o c (-1) e ip depth ≠ OutOfFuel.
Proof.
  induction fuel as [|fuel IH]; intros code o c e ip depth Hpos Hm; [lia|].
  simpl. destruct (ip =? e); [done|].
  apply bind_fuel; [apply nibble_fuel|].
  intros x Hx%nibble_range.
  destruct (x =? o); [apply IH; lia|].
  destruct (x =? c); [|apply IH; lia].
  destruct (depth =? 0); [done|apply IH; lia].
Qed.

Lemma jmp_fuel o c inc e m :
  inc = 1 ∨ inc = -1 → jmp o c inc e m ≠ OutOfFuel.
Proof.
  intros Hinc. unfold jmp. apply bind_fuel; [apply or_undef_fuel|].
  intros t _. destruct (negb (t =? BADIP)); [done|].
  apply bind_fuel.
  - destruct Hinc as [-> | ->].
    + apply jmp_scan_fuel_fwd; unfold code_fuel; lia.
    + apply jmp_scan_fuel_bwd; unfold code_fuel; lia.
  - intros t' _. apply bind_fuel; [apply or_undef_fuel|done].
Qed.

Lemma dfn_skip_fuel fuel : ∀ code ip e,
  (0 < fuel)%nat →
  (-1 ≤ ip → 2 * Z.of_nat (length code) - ip < Z.of_nat fuel) →
  dfn_skip fuel code ip e ≠ OutOfFuel.
Proof.
  induction fuel as [|fuel IH]; intros code ip e Hpos Hm; [lia|].
  simpl. destruct (ip <? e); [|done].
  apply bind_fuel; [apply nibble_fuel|].
  intros x Hx%nibble_range.
  destruct (negb (x =? BCD_N) && negb (x =? BCD_P)); [|done].
  apply IH; lia.
Qed.

Lemma dfn_skip_advances fuel : ∀ code ip e p,
  dfn_skip fuel code ip e = Ok p → ip ≤ p.
Proof.
  induction fuel as [|fuel IH]; intros code ip e p H; [done|].
  simpl in H. destruct (ip <? e); [|injection H as <-; lia].
  bind_inv H. destruct (negb (a =? BCD_N) && negb (a =? BCD_P)).
  - apply IH in H. lia.
  - injection H as <-. lia.
Qed.

Lemma dfn_close_loop_fuel fuel : ∀ code ip e,
  (0 < fuel)%nat →
  (-1 ≤ ip → 2 * Z.of_nat (length code) - ip < Z.of_nat fuel) →
  dfn_close_loop fuel code ip e ≠ OutOfFuel.
Proof.
  induction fuel as [|fuel IH]; intros code ip e Hpos Hm; [lia|].
  cbn [dfn_close_loop]. destruct (ip <? e); [|done].
  apply bind_fuel; [apply nibble_fuel|].
  intros x Hx%nibble_range.
  destruct (x =? C_DFN); [done|].
  apply bind_fuel.
  - destruct (x =? C_BCD); [|done].
    apply dfn_skip_fuel; unfold code_fuel; lia.
  - intros p Hp.
    assert (ip ≤ p).
    { destruct (x =? C_BCD); [by apply dfn_skip_advances in Hp|].
      injection Hp as <-. lia. }
    apply IH; lia.
Qed.

Lemma dfn_fuel id m : dfn id m ≠ OutOfFuel.
Proof.
  unfold dfn. apply bind_fuel; [apply or_undef_fuel|]. intros f _.
  apply bind_fuel; [apply or_undef_fuel|]. intros fn1 _.
  apply bind_fuel.
  - unfold dfn_close. apply bind_fuel; [|done].
    apply dfn_close_loop_fuel; unfold code_fuel; cbn [code set_fn]; lia.
  - intros [p m'] _. apply bind_fuel; [apply or_undef_fuel|]. intros f' _.
    apply bind_fuel; [apply or_undef_fuel|done].
Qed.

Lemma say_scan_fuel fuel : ∀ st0 s,
  (0 < fuel)%nat → (0 ≤ s → s < Z.of_nat fuel) →
  say_scan fuel st0 s ≠ OutOfFuel.
Proof.
  induction fuel as [|fuel IH]; intros st0 s Hpos Hs; [lia|].
  simpl. destruct (Z.eqb_spec s 0); [done|].
  apply bind_fuel; [apply or_undef_fuel|].
  intros v Hv%or_undef_Ok%zget_lt. destruct (v =? 0); [done|].
  apply IH; lia.
Qed.

Lemma say_print_fuel n : ∀ s m, say_print n s m ≠ OutOfFuel.
Proof.
  induction n as [|n IH]; intros s m; simpl; [done|].
  apply bind_fuel; [apply or_undef_fuel|]. intros v _. apply IH.
Qed.

Lemma swi_fuel id m : swi id m ≠ OutOfFuel.
Proof.
  unfold swi. destruct (id =? SI_TOP).
  - apply bind_fuel; [apply or_undef_fuel|done].
  - destruct (id =? SI_SAY); [|by destruct (id =? SI_HLT)].
    apply bind_fuel; [apply say_scan_fuel; lia|]. intros s _.
    apply bind_fuel; [apply say_print_fuel|done].
Qed.

Lemma pop_fuel m : pop m ≠ OutOfFuel.
Proof. unfold pop. apply bind_fuel; [apply or_undef_fuel|done]. Qed.

Lemma push_fuel v m : push v m ≠ OutOfFuel.
Proof. unfold push. apply bind_fuel; [apply or_undef_fuel|done]. Qed.

Lemma continue_fuel r : r ≠ OutOfFuel → continue r ≠ OutOfFuel.
Proof. intros H. unfold continue. by apply bind_fuel. Qed.

(** One instruction always comes to an outcome: the bounds the embedding
    gives the scans of [bcd], [jmp], [dfn_close] and the string built-in
    are never reached. *)
Lemma exe_op_fuel m : exe_op jmp m ≠ OutOfFuel.
Proof.
  unfold exe_op. apply bind_fuel.
  { unfold rd, pk. apply bind_fuel; [apply nibble_fuel|done]. }
  intros [c m1] _. generalize (Z.land c 15). clear c. intros c.
  repeat match goal with
  | |- (if ?b then _ else _) ≠ _ => destruct b
  end;
  repeat first
    [ apply continue_fuel
    | apply bcd_fuel | apply push_fuel | apply dfn_fuel
    | (apply bind_fuel; [apply pop_fuel|intros [? ?] _])
    | (apply bind_fuel; [apply push_fuel|intros ? _]) ]; try done.
  - unfold rw. destruct (0 <=? z).
    + apply bind_fuel; [apply or_undef_fuel|]. intros. apply push_fuel.
    + apply bind_fuel; [apply pop_fuel|]. intros [? ?] _.
      apply bind_fuel; [apply or_undef_fuel|done].
  - unfold run. apply bind_fuel; [apply or_undef_fuel|]. intros f _.
    destruct (fn_end f =? 0); [apply swi_fuel|].
    apply bind_fuel; [apply or_undef_fuel|done].
  - destruct (z =? 0); apply continue_fuel; [|done].
    apply jmp_fuel. by left.
  - unfold LJ. destruct (negb (ra m1 =? 0)); [|done].
    apply jmp_fuel. by right.
  - destruct (z <=? 0); apply continue_fuel; [|done].
    apply jmp_fuel. by left.
  - unfold LJ. destruct (negb (ra m1 =? 0)); [|done].
    apply jmp_fuel. by right.
Qed.

(** The same for the assembler, which always comes to an outcome. *)
Lemma char_at_range s p c :
  char_at s p = Ok c → 0 ≤ p ≤ Z.of_nat (length s).
Proof.
  unfold char_at. destruct (Z.eqb_spec p (Z.of_nat (length s))); [lia|].
  intros H%or_undef_Ok%zget_lt. lia.
Qed.

Lemma char_at_fuel s p : char_at s p ≠ OutOfFuel.
Proof.
  unfold char_at. destruct (p =? _); [done|apply or_undef_fuel].
Qed.

Lemma char_at_end s p c :
  char_at s p = Ok c → c ≠ 0 → p < Z.of_nat (length s).
Proof.
  intros H Hc. pose proof (char_at_range _ _ _ H).
  unfold char_at in H.
  destruct (Z.eqb_spec p (Z.of_nat (length s))); [|lia].
  by injection H as <-.
Qed.

Lemma emit_fuel q ip c : emit q ip c ≠ OutOfFuel.
Proof.
  unfold emit. destruct (Z.land ip 1 =? 0).
  - apply bind_fuel; [apply or_undef_fuel|done].
  - apply bind_fuel; [apply or_undef_fuel|]. intros cell _.
    apply bind_fuel; [apply or_undef_fuel|]. intros b _.
    apply bind_fuel; [apply or_undef_fuel|done].
Qed.

Lemma emit_list_fuel cs : ∀ q ip, emit_list q ip cs ≠ OutOfFuel.
Proof.
  induction cs as [|c cs IH]; intros q ip; simpl; [done|].
  apply bind_fuel; [apply emit_fuel|]. intros [q' ip'] _. apply IH.
Qed.

Lemma bcd_digits_fuel room : ∀ v acc, bcd_digits room v acc ≠ OutOfFuel.
Proof.
  induction room as [|room IH]; intros v acc; simpl; [done|].
  destruct (Z.quot v 10 =? 0); [done|apply IH].
Qed.

Lemma emitBCD_fuel q ip v : emitBCD q ip v ≠ OutOfFuel.
Proof.
  unfold emitBCD. apply bind_fuel; [apply bcd_digits_fuel|].
  intros [|b rest] _; [done|].
  apply bind_fuel; [apply emit_fuel|]. intros [q1 ip1] _.
  apply bind_fuel; [destruct (1 <? b); [apply emit_fuel|done]|].
  intros [q2 ip2] _.
  apply bind_fuel; [apply emit_list_fuel|]. intros [q3 ip3] _.
  apply emit_fuel.
Qed.

Lemma sym_fuel name nm0 : sym name nm0 ≠ OutOfFuel.
Proof.
  unfold sym. destruct (sym_find nm0 name 0); [done|].
  by destruct (_ =? MAXNP).
Qed.

Lemma isalnum_nonzero c : isalnum c || (c =? ch "_") = true → c ≠ 0.
Proof. intros H ->. by vm_compute in H. Qed.

Lemma isdigit_nonzero c : isdigit c = true → c ≠ 0.
Proof. intros H ->. by vm_compute in H. Qed.

Section TextLoops.

Variable s : list Z.

Lemma ident_loop_fuel fuel : ∀ p name,
  (0 < fuel)%nat → (0 ≤ p → Z.of_nat (length s) - p < Z.of_nat fuel) →
  ident_loop fuel s p name ≠ OutOfFuel.
Proof.
  induction fuel as [|fuel IH]; intros p name Hpos Hm; [lia|].
  simpl. apply bind_fuel; [apply char_at_fuel|]. intros c Hc.
  destruct (isalnum c || (c =? ch "_")) eqn:Hal; [|done].
  destruct (_ =? MAXNM); [done|].
  pose proof (char_at_range _ _ _ Hc).
  pose proof (char_at_end _ _ _ Hc (isalnum_nonzero _ Hal)).
  apply IH; lia.
Qed.

Lemma ident_loop_advances fuel : ∀ p name name' p',
  ident_loop fuel s p name = Ok (name', p') → p ≤ p'.
Proof.
  induction fuel as [|fuel IH]; intros p name name' p' H; [done|].
  simpl in H. bind_inv H. destruct (isalnum a || (a =? ch "_")).
  - destruct (_ =? MAXNM); [done|]. apply IH in H. lia.
  - injection H as _ <-. lia.
Qed.

Lemma digit_loop_fuel fuel : ∀ q ip p,
  (0 < fuel)%nat → (0 ≤ p → Z.of_nat (length s) - p < Z.of_nat fuel) →
  digit_loop fuel s q ip p ≠ OutOfFuel.
Proof.
  induction fuel as [|fuel IH]; intros q ip p Hpos Hm; [lia|].
  simpl. apply bind_fuel; [apply char_at_fuel|]. intros c Hc.
  destruct (isdigit c) eqn:Hd; [|done].
  apply bind_fuel; [apply emit_fuel|]. intros [q' ip'] _.
  pose proof (char_at_range _ _ _ Hc).
  pose proof (char_at_end _ _ _ Hc (isdigit_nonzero _ Hd)).
  apply IH; lia.
Qed.

Lemma digit_loop_advances fuel : ∀ q ip p q' ip' p',
  digit_loop fuel s q ip p = Ok (q', ip', p') → p ≤ p'.
Proof.
  induction fuel as [|fuel IH]; intros q ip p q' ip' p' H; [done|].
  simpl in H. bind_inv H. destruct (isdigit a).
  - bind_inv H. apply IH in H. lia.
  - injection H as _ _ <-. lia.
Qed.

Lemma quote_loop_fuel fuel : ∀ e q ip p,
  (0 < fuel)%nat → (0 ≤ p → Z.of_nat (length s) - p + 1 < Z.of_nat fuel) →
  quote_loop fuel s e q ip p ≠ OutOfFuel.
Proof.
  induction fuel as [|fuel IH]; intros e q ip p Hpos Hm; [lia|].
  simpl. destruct (p <? e); [|done].
  apply bind_fuel; [apply char_at_fuel|]. intros c Hc.
  destruct (negb (c =? ch "'")); [|done].
  apply bind_fuel; [apply char_at_fuel|]. intros c' Hc'.
  apply bind_fuel; [apply emitBCD_fuel|]. intros [q' ip'] _.
  pose proof (char_at_range _ _ _ Hc).
  pose proof (char_at_range _ _ _ Hc').
  destruct (c =? ch "\"); apply IH; lia.
Qed.

Lemma quote_loop_advances fuel : ∀ e q ip p q' ip' p',
  quote_loop fuel s e q ip p = Ok (q', ip', p') → p ≤ p'.
Proof.
  induction fuel as [|fuel IH]; intros e q ip p q' ip' p' H; [done|].
  simpl in H. destruct (p <? e); [|injection H as _ _ <-; lia].
  bind_inv H. destruct (negb (a =? ch "'")); [|injection H as _ _ <-; lia].
  do 2 bind_inv H. apply IH in H. destruct (a =? ch "\"); lia.
Qed.

Lemma emit1_fuel c a : emit1 c a ≠ OutOfFuel.
Proof.
  unfold emit1. apply bind_fuel; [apply emit_fuel|]. by intros [q ip] _.
Qed.

Lemma emit1_p c a a' : emit1 c a = Ok a' → a_p a' = a_p a.
Proof. unfold emit1. intros H. bind_inv H. by injection H as <-. Qed.

Lemma asm_step_fuel e a : asm_step s e a ≠ OutOfFuel.
Proof.
  unfold asm_step. apply bind_fuel; [apply char_at_fuel|]. intros c Hc.
  pose proof (char_at_range _ _ _ Hc) as Hp. cbn [a_p a_q a_ip a_nm a_run].
  repeat match goal with
  | |- (if ?b then _ else _) ≠ _ => destruct b
  end; try apply emit1_fuel; try done.
  - apply bind_fuel; [apply ident_loop_fuel; unfold text_fuel; lia|].
    intros [name p] _. apply bind_fuel; [apply sym_fuel|].
    intros [id nm'] _. apply bind_fuel; [apply emitBCD_fuel|].
    intros [q ip] _. cbn [a_run]. destruct (a_run a); [|done].
    apply bind_fuel; [apply emit_fuel|]. by intros [q' ip'] _.
  - apply bind_fuel; [apply emitBCD_fuel|]. intros [q ip] _.
    apply bind_fuel; [apply quote_loop_fuel; unfold text_fuel; lia|].
    intros [[q' ip'] p] _. by destruct (p =? e).
  - apply bind_fuel; [apply emit_fuel|]. intros [q ip] _.
    apply bind_fuel; [destruct (1 <? _); [apply emit_fuel|done]|].
    intros [q' ip'] _.
    apply bind_fuel; [apply digit_loop_fuel; unfold text_fuel; lia|].
    intros [[q2 ip2] p] _.
    apply bind_fuel; [apply emit_fuel|]. by intros [q3 ip3] _.
  - apply bind_fuel; [apply char_at_fuel|]. intros c' _.
    destruct (isalpha c' || (c' =? ch "_")); [done|apply emit1_fuel].
  - apply bind_fuel; [apply emit1_fuel|]. intros a1 _.
    apply bind_fuel; apply emit1_fuel || (intros; apply emit1_fuel).
Qed.

Lemma asm_step_advances e a a' :
  asm_step s e a = Ok a' →
  0 ≤ a_p a ≤ Z.of_nat (length s) ∧ a_p a < a_p a'.
Proof.
  unfold asm_step. intros H. bind_inv H.
  pose proof (char_at_range _ _ _ E) as Hp. split; [done|].
  cbn [a_p a_q a_ip a_nm a_run] in H.
  repeat match type of H with
  | (if ?b then _ else _) = _ => destruct b
  end;
  try (apply emit1_p in H; cbn [a_p] in H; lia).
  - do 3 bind_inv H. apply ident_loop_advances in E0.
    cbn [a_run a_q a_ip a_nm a_p] in H. destruct (a_run a).
    + bind_inv H. injection H as <-. simpl. lia.
    + injection H as <-. simpl. lia.
  - do 2 bind_inv H.
    match goal with
    | Hq : quote_loop _ _ _ _ _ _ = Ok (?x, _) |- _ =>
      destruct x; apply quote_loop_advances in Hq
    end.
    destruct (_ =? e); [done|]. injection H as <-. simpl. lia.
  - injection H as <-. simpl. lia.
  - do 3 bind_inv H.
    match goal with
    | Hq : digit_loop _ _ _ _ _ = Ok (?x, _) |- _ =>
      destruct x; apply digit_loop_advances in Hq
    end.
    bind_inv H. injection H as <-. simpl. lia.
  - bind_inv H.
    match type of H with
    | (if ?b then _ else _) = _ => destruct b
    end.
    + injection H as <-. simpl. lia.
    + apply emit1_p in H. cbn [a_p] in H. lia.
  - do 2 bind_inv H. apply emit1_p in H, E0, E1. cbn [a_p] in *. lia.
  - done.
Qed.

Lemma b4asmS_fuel fuel : ∀ e a,
  (0 < fuel)%nat →
  (0 ≤ a_p a → Z.of_nat (length s) - a_p a + 1 < Z.of_nat fuel) →
  b4asmS fuel s e a ≠ OutOfFuel.
Proof.
  induction fuel as [|fuel IH]; intros e a Hpos Hm; [lia|].
  simpl. destruct (a_p a <? e); [|done].
  apply bind_fuel; [apply asm_step_fuel|].
  intros a' [Hp Hadv]%asm_step_advances. apply IH; lia.
Qed.

End TextLoops.

Lemma copy_bytes_fuel n : ∀ q i, copy_bytes q i n ≠ OutOfFuel.
Proof.
  induction n as [|n IH]; intros q i; simpl; [done|].
  apply bind_fuel; [apply or_undef_fuel|]. intros cell _.
  apply bind_fuel; [apply or_undef_fuel|]. intros b _.
  apply bind_fuel; [apply IH|done].
Qed.

Lemma b4asm_fuel statement nm0 : b4asm statement nm0 ≠ OutOfFuel.
Proof.
  unfold b4asm. apply bind_fuel.
  - apply b4asmS_fuel; unfold text_fuel; simpl; lia.
  - intros a _. apply bind_fuel; [apply copy_bytes_fuel|done].
Qed.

(** ** The string built-in on any stack *)

Lemma say_scan_down (st0 : list Z) k : ∀ fuel s,
  (k < fuel)%nat → 0 ≤ s - Z.of_nat k →
  (∀ i, s - Z.of_nat k < i ≤ s → ∃ v, zget st0 i = Some v ∧ v ≠ 0) →
  (s - Z.of_nat k = 0 ∨ zget st0 (s - Z.of_nat k) = Some 0) →
  say_scan fuel st0 s = Ok (s - Z.of_nat k).
Proof.
  induction k as [|k IH]; intros fuel s Hfuel Hs Hnz Hz.
  - destruct fuel as [|fuel]; [lia|]. simpl.
    replace (s - Z.of_nat 0) with s in * by lia.
    destruct (Z.eqb_spec s 0); [done|].
    destruct Hz as [?|Hz]; [lia|]. by rewrite Hz.
  - destruct fuel as [|fuel]; [lia|]. simpl.
    destruct (Z.eqb_spec s 0); [lia|].
    destruct (Hnz s ltac:(lia)) as (v & Hv & Hv0). rewrite Hv. simpl.
    rewrite (proj2 (Z.eqb_neq _ _) Hv0).
    replace (s - Z.of_nat (S k)) with (s - 1 - Z.of_nat k) in * by lia.
    apply IH; [lia|done| |done].
    intros i Hi. apply Hnz. lia.
Qed.

Lemma say_print_out vs : ∀ s m,
  (∀ i v, vs !! i = Some v → zget (st m) (s + Z.of_nat i) = Some v) →
  ∃ m', say_print (length vs) s m = Ok m' ∧
        out m' = out m ++ map (λ v, Putchar (v mod 256)) vs ∧
        st m' = st m ∧ sp m' = sp m.
Proof.
  induction vs as [|v vs IH]; intros s m Hvs; simpl.
  - exists m. by rewrite app_nil_r.
  - pose proof (Hvs O v eq_refl) as H0. simpl in H0.
    rewrite Z.add_0_r in H0. rewrite H0. simpl.
    destruct (IH (s + 1) (emit_out (Putchar (v mod 256)) m))
      as (m' & E & Hout & Hst & Hsp).
    { intros i w Hi. simpl. specialize (Hvs (S i) w Hi).
      by replace (s + 1 + Z.of_nat i) with (s + Z.of_nat (S i)) by lia. }
    exists m'. split; [done|]. simpl in Hout. rewrite Hout, <- app_assoc.
    done.
Qed.

(** On a stack [l ++ 0 :: cs] with [cs] free of zeros, reached through
    CALL (the popped id, not 0, still lies in the slot above), the
    built-in writes the terminator's NUL, then [cs], then a newline, and
    leaves [l]. *)
Lemma say_writes_terminator m l cs x :
  sp m < Z.of_nat (length (st m)) → stack m = l ++ 0 :: cs →
  Forall (λ c, c ≠ 0) cs → zget (st m) (sp m) = Some x → x ≠ 0 →
  ∃ m', swi SI_SAY m = Ok m' ∧
        out m' = out m ++ map (λ v, Putchar (v mod 256)) (0 :: cs)
                       ++ [Putchar 10] ∧
        stack m' = l.
Proof.
  intros Hsp Hst Hcs Hx Hx0.
  assert (Hlen : Z.of_nat (length (stack m)) = sp m).
  { apply stack_length. apply zget_lt in Hx. lia. }
  rewrite Hst, length_app in Hlen. simpl length in Hlen.
  assert (Hat : ∀ i v, (l ++ 0 :: cs) !! i = Some v →
                       zget (st m) (Z.of_nat i) = Some v).
  { intros i v Hi. rewrite <- Hst in Hi. unfold stack in Hi.
    apply lookup_take_Some in Hi as [Hi _].
    unfold zget. rewrite bool_decide_eq_true_2 by lia.
    by rewrite Nat2Z.id. }
  set (k := S (length cs)).
  assert (Hscan : say_scan (S (Z.to_nat (sp m))) (st m) (sp m) =
                  Ok (sp m - Z.of_nat k)).
  { apply say_scan_down; unfold k; [lia|lia| |].
    - intros i Hi. destruct (decide (i = sp m)) as [->|Hne]; [by exists x|].
      assert (Hi' : (Z.to_nat i - S (length l) < length cs)%nat) by lia.
      destruct (lookup_lt_is_Some_2 cs _ Hi') as [v Hv].
      exists v. split.
      + replace i with (Z.of_nat (Z.to_nat i)) by lia. apply Hat.
        rewrite lookup_app_r by lia.
        replace (Z.to_nat i - length l)%nat
          with (S (Z.to_nat i - S (length l))) by lia. done.
      + rewrite Forall_lookup in Hcs. by apply (Hcs _ _ Hv).
    - right. replace (sp m - Z.of_nat (S (length cs)))
        with (Z.of_nat (length l)) by lia.
      apply Hat. by rewrite lookup_app_r, Nat.sub_diag by lia. }
  unfold swi. change (SI_SAY =? SI_TOP) with false.
  change (SI_SAY =? SI_SAY) with true. cbn [andb orb negb].
  cbv iota. rewrite Hscan. cbn [mbind result_bind].
  replace (Z.to_nat (sp m - (sp m - Z.of_nat k)))
    with (length (0 :: cs)) by (unfold k; simpl; lia).
  destruct (say_print_out (0 :: cs) (sp m - Z.of_nat k)
              (set_sp (sp m - Z.of_nat k) m)) as (m' & E & Hout & Hst' & Hsp').
  { intros i v Hi. simpl.
    replace (sp m - Z.of_nat k + Z.of_nat i)
      with (Z.of_nat (length l + i)) by (unfold k; lia).
    apply Hat. by rewrite lookup_app_r, Nat.add_comm, Nat.add_sub by lia. }
  rewrite E. cbn [mbind result_bind]. eexists. split; [done|]. split.
  - simpl out. rewrite Hout. simpl out. by rewrite <- app_assoc.
  - unfold stack. simpl. rewrite Hst', Hsp'. simpl.
    replace (Z.to_nat (sp m - Z.of_nat k)) with (length l) by (unfold k; lia).
    transitivity (take (length l) (take (Z.to_nat (sp m)) (st m))).
    + rewrite take_take. f_equal. lia.
    + change (take (Z.to_nat (sp m)) (st m)) with (stack m).
      rewrite Hst. apply take_app_length.
Qed.

(** The turn at which the callee returns is determined. *)
Lemma callee_run_unique d m m2 m2' :
  callee_run d m m2 → callee_run d m m2' → m2 = m2'.
Proof.
  intros (_ & ml & Hr & Ht & Hfp) (_ & ml' & Hr' & Ht' & Hfp').
  revert ml' Hr' Ht'.
  induction Hr as [m|m m1 ml Hm Hd _ IH]; intros ml' Hr' Ht'.
  - destruct Hr' as [m|m m1' ml' Hm' Hd' _]; [congruence|].
    rewrite Ht in Hm'. injection Hm' as <-. lia.
  - destruct Hr' as [m|m m1' ml' Hm' Hd' Hr'].
    + rewrite Hm in Ht'. injection Ht' as <-. lia.
    + rewrite Hm in Hm'. injection Hm' as <-. by eapply IH.
Qed.

(** * Further properties of the code *)

(** ** The name table *)

Lemma sym_find_Some nm0 name : ∀ i j,
  sym_find nm0 name i = Some j →
  i ≤ j ∧ nm0 !! Z.to_nat (j - i) = Some name.
Proof.
  induction nm0 as [|n nm0 IH]; intros i j H; [done|].
  simpl in H. case_bool_decide as Hn.
  - injection H as <-. subst n. split; [lia|]. by rewrite Z.sub_diag.
  - apply IH in H as [Hle Hj]. split; [lia|].
    replace (Z.to_nat (j - i)) with (S (Z.to_nat (j - (i + 1)))) by lia.
    done.
Qed.

Lemma sym_find_None nm0 name : ∀ i,
  sym_find nm0 name i = None ↔ name ∉ nm0.
Proof.
  induction nm0 as [|n nm0 IH]; intros i; simpl.
  - split; [intros _; apply not_elem_of_nil|done].
  - case_bool_decide as Hn.
    + subst n. split; [done|]. intros H. exfalso. apply H. left.
    + rewrite IH, not_elem_of_cons. split; [by intros ?|by intros [_ ?]].
Qed.

Lemma sym_find_app nm0 name extra : ∀ i j,
  sym_find nm0 name i = Some j → sym_find (nm0 ++ extra) name i = Some j.
Proof.
  induction nm0 as [|n nm0 IH]; intros i j H; [done|].
  simpl in *. case_bool_decide; [done|]. by apply IH.
Qed.

Lemma sym_find_snoc nm0 name : ∀ i,
  sym_find nm0 name i = None →
  sym_find (nm0 ++ [name]) name i = Some (i + Z.of_nat (length nm0)).
Proof.
  induction nm0 as [|n nm0 IH]; intros i H; simpl in *.
  - rewrite bool_decide_eq_true_2 by done. f_equal. lia.
  - case_bool_decide; [done|]. rewrite IH by done. f_equal. lia.
Qed.

Lemma sym_inv name nm0 id nm' :
  sym name nm0 = Ok (id, nm') →
  (sym_find nm0 name 0 = Some id ∧ nm' = nm0) ∨
  ((name ∉ nm0) ∧ id = Z.of_nat (length nm0) ∧ nm' = nm0 ++ [name] ∧
   Z.of_nat (length nm0) ≠ MAXNP).
Proof.
  unfold sym. destruct (sym_find nm0 name 0) as [i|] eqn:E.
  - intros [= <- <-]. by left.
  - destruct (Z.eqb_spec (Z.of_nat (length nm0)) MAXNP); [done|].
    intros [= <- <-]. right. by apply sym_find_None in E.
Qed.

Lemma sym_again name nm0 id nm' :
  sym name nm0 = Ok (id, nm') → sym name nm' = Ok (id, nm').
Proof.
  intros [[E ->]|(Hn & -> & -> & _)]%sym_inv; unfold sym.
  - by rewrite E.
  - apply sym_find_None with (i := 0) in Hn.
    by rewrite (sym_find_snoc _ _ _ Hn).
Qed.

Lemma sym_lookup name nm0 id nm' :
  sym name nm0 = Ok (id, nm') → zget nm' id = Some name.
Proof.
  intros [[E ->]|(Hn & -> & -> & _)]%sym_inv.
  - apply sym_find_Some in E as [Hle E]. apply zget_Some.
    split; [done|]. by rewrite Z.sub_0_r in E.
  - apply zget_Some. split; [lia|]. rewrite Nat2Z.id.
    by rewrite lookup_app_r, Nat.sub_diag by lia.
Qed.

Lemma sym_prefix name nm0 id nm' :
  sym name nm0 = Ok (id, nm') → nm0 `prefix_of` nm'.
Proof.
  intros [[_ ->]|(_ & _ & -> & _)]%sym_inv; [done|]. by apply prefix_app_r.
Qed.

Lemma sym_keeps name nm0 id nm' other j :
  sym name nm0 = Ok (id, nm') → sym other nm0 = Ok (j, nm0) →
  sym other nm' = Ok (j, nm').
Proof.
  intros H Ho. apply sym_inv in Ho as [[E _]|(_ & _ & Habs & _)].
  - destruct (sym_prefix _ _ _ _ H) as [k ->]. unfold sym.
    by rewrite (sym_find_app _ _ _ _ _ E).
  - exfalso. apply (f_equal length) in Habs. rewrite length_app in Habs.
    simpl in Habs. lia.
Qed.

(** X1. Interning is stable: the id returned indexes the name in the
    resulting table, the old table is a prefix of the new one (at most one
    entry longer), interning the same name again returns the same id and
    changes nothing, and a name interned before keeps its id. *)
Theorem sym_intern_stable name nm0 id nm' :
  sym name nm0 = Ok (id, nm') →
  zget nm' id = Some name ∧
  nm0 `prefix_of` nm' ∧ (length nm' ≤ S (length nm0))%nat ∧
  sym name nm' = Ok (id, nm') ∧
  ∀ other j, sym other nm0 = Ok (j, nm0) → sym other nm' = Ok (j, nm').
Proof.
  intros H. split_and!.
  - by eapply sym_lookup.
  - by eapply sym_prefix.
  - apply sym_inv in H as [[_ ->]|(_ & _ & -> & _)]; [lia|].
    rewrite length_app. simpl. lia.
  - by eapply sym_again.
  - intros other j. by eapply sym_keeps.
Qed.

Lemma sym_intern_stable_witness :
  zget [codes "top"; codes "say"] 1 = Some (codes "say") ∧
  [codes "top"] `prefix_of` [codes "top"; codes "say"] ∧
  (length [codes "top"; codes "say"] ≤ S (length [codes "top"]))%nat ∧
  sym (codes "say") [codes "top"; codes "say"]
    = Ok (1, [codes "top"; codes "say"]) ∧
  ∀ other j, sym other [codes "top"] = Ok (j, [codes "top"]) →
             sym other [codes "top"; codes "say"]
               = Ok (j, [codes "top"; codes "say"]).
Proof.
  apply (sym_intern_stable (codes "say") [codes "top"] 1
           [codes "top"; codes "say"]).
  reflexivity.
Defined.

(** X2. Two names interned one after the other get the same id exactly
    when they are the same name; and a table without repetition stays
    without repetition. *)
Theorem sym_ids_distinct n1 n2 nm0 i1 nm1 i2 nm2 :
  sym n1 nm0 = Ok (i1, nm1) → sym n2 nm1 = Ok (i2, nm2) →
  (i1 = i2 ↔ n1 = n2) ∧ (NoDup nm0 → NoDup nm2).
Proof.
  intros H1 H2. split; [split|].
  - intros <-. pose proof (sym_lookup _ _ _ _ H1) as L1.
    pose proof (sym_lookup _ _ _ _ H2) as L2.
    apply zget_Some in L1 as [? L1]. apply zget_Some in L2 as [? L2].
    pose proof (prefix_lookup_Some _ _ _ _ L1 (sym_prefix _ _ _ _ H2)).
    congruence.
  - intros <-. rewrite (sym_again _ _ _ _ H1) in H2. congruence.
  - assert (Hstep : ∀ n a i b, sym n a = Ok (i, b) → NoDup a → NoDup b).
    { intros n a i b [[_ ->]|(Hn & _ & -> & _)]%sym_inv Hnd; [done|].
      apply NoDup_app. split_and!; [done| |apply NoDup_singleton].
      intros x Hx ->%list_elem_of_singleton. done. }
    intros Hnd. eapply Hstep; [exact H2|]. by eapply Hstep.
Qed.

Lemma sym_ids_distinct_witness :
  (0 = 1 ↔ codes "top" = codes "say") ∧
  (NoDup (@nil (list Z)) → NoDup [codes "top"; codes "say"]).
Proof.
  apply (sym_ids_distinct (codes "top") (codes "say") [] 0 [codes "top"] 1
           [codes "top"; codes "say"]); reflexivity.
Defined.

(** X3. The table holds at most [MAXNP] names and every id is below
    [MAXNP]: interning into a table within the limit stays within it; in a
    full table a name already there is still found, and a new name is the
    fatal "Name table overflow". *)
Theorem sym_capacity name nm0 :
  Z.of_nat (length nm0) ≤ MAXNP →
  (∀ id nm', sym name nm0 = Ok (id, nm') →
             0 ≤ id < MAXNP ∧ Z.of_nat (length nm') ≤ MAXNP) ∧
  (Z.of_nat (length nm0) = MAXNP →
   (name ∈ nm0 → ∃ id, sym name nm0 = Ok (id, nm0)) ∧
   (name ∉ nm0 → sym name nm0 = Exit NameTableOverflow)).
Proof.
  intros Hcap. split.
  - intros id nm' H. pose proof (sym_lookup _ _ _ _ H) as L.
    apply zget_lt in L.
    apply sym_inv in H as [[_ ->]|(_ & -> & -> & Hne)]; [lia|].
    rewrite length_app in *. simpl in *. lia.
  - intros Hfull. split.
    + intros Hin. unfold sym.
      destruct (sym_find nm0 name 0) as [i|] eqn:E; [by exists i|].
      by apply sym_find_None in E.
    + intros Hn. unfold sym.
      apply sym_find_None with (i := 0) in Hn. rewrite Hn.
      by rewrite (proj2 (Z.eqb_eq _ _) Hfull).
Qed.

Lemma sym_capacity_witness :
  (∀ id nm', sym (codes "f") [codes "top"] = Ok (id, nm') →
             0 ≤ id < MAXNP ∧ Z.of_nat (length nm') ≤ MAXNP) ∧
  (Z.of_nat (length [codes "top"]) = MAXNP →
   (codes "f" ∈ [codes "top"] →
    ∃ id, sym (codes "f") [codes "top"] = Ok (id, [codes "top"])) ∧
   (codes "f" ∉ [codes "top"] →
    sym (codes "f") [codes "top"] = Exit NameTableOverflow)).
Proof.
  apply (sym_capacity (codes "f") [codes "top"]).
  vm_compute. discriminate.
Defined.

(** ** Packing nibbles into bytes *)

Lemma copy_bytes_lookup n : ∀ q i r,
  copy_bytes q i n = Ok r → 0 ≤ i →
  length r = n ∧
  ∀ k b, r !! k = Some b → zget q (i + Z.of_nat k) = Some (Some b).
Proof.
  induction n as [|n IH]; intros q i r H Hi; simpl in H.
  - injection H as <-. split; [done|]. by intros k b.
  - do 3 bind_inv H. injection H as <-.
    apply or_undef_Ok in E, E0. subst a.
    destruct (IH _ _ _ E1 ltac:(lia)) as [Hlen Hk]. split; [simpl; lia|].
    intros [|k] b Hb; simpl in Hb.
    + injection Hb as <-. by rewrite Z.add_0_r.
    + replace (i + Z.of_nat (S k)) with (i + 1 + Z.of_nat k) by lia. eauto.
Qed.

Lemma copy_bytes_nibble q n r j c :
  copy_bytes q 0 n = Ok r → 0 ≤ j < 2 * Z.of_nat n →
  bnib q j = Some c → nibble r j = Ok c.
Proof.
  intros H Hj Hb. destruct (copy_bytes_lookup _ _ _ _ H ltac:(lia)) as [Hlen Hk].
  assert (Hq : 0 ≤ Z.quot j 2 < Z.of_nat (length r))
    by (Z.to_euclidean_division_equations; lia).
  destruct (zget_is_Some r _ Hq) as [b Hr].
  pose proof Hr as Hr'. apply zget_Some in Hr' as [_ Hr'].
  specialize (Hk _ _ Hr'). rewrite Z.add_0_l, Z2Nat.id in Hk by lia.
  unfold bnib in Hb. rewrite Hk in Hb. injection Hb as <-.
  unfold nibble. by rewrite Hr.
Qed.

(** X4. Packing round trip.  Emitting the nibbles [cs] from index [ip]
    (where the buffer is in the state [emit] leaves it in) succeeds while
    there is room, leaves the nibbles before [ip] as they were, and after
    the copy of [b4asm] the interpreter's nibble fetch reads [cs] back in
    order from [ip], two nibbles per byte, low half first. *)
Theorem pack_round_trip q p cs :
  buf_ok q p → room q p (Z.of_nat (length cs)) → Forall is_nibble cs →
  ∃ q', emit_list q p cs = Ok (q', p + Z.of_nat (length cs)) ∧
        (∀ j, 0 ≤ j < p → bnib q' j = bnib q j) ∧
        ∀ n r, copy_bytes q' 0 n = Ok r →
               p + Z.of_nat (length cs) ≤ 2 * Z.of_nat n →
               length r = n ∧ holds r p cs.
Proof.
  intros Hok Hroom Hcs.
  destruct (emit_list_spec cs q p Hok Hroom Hcs)
    as (q' & E & _ & _ & Hat & Hfr).
  exists q'. split; [done|]. split; [done|].
  intros n r Hcopy Hn. split.
  - by destruct (copy_bytes_lookup _ _ _ _ Hcopy ltac:(lia)).
  - intros k c Hk. apply (copy_bytes_nibble q' n); [done| |by apply Hat].
    apply lookup_lt_Some in Hk. destruct Hok. lia.
Qed.

Lemma pack_round_trip_witness :
  ∃ q', emit_list [None; None] 0 [3; 12; 9]
          = Ok (q', 0 + Z.of_nat (length [3; 12; 9])) ∧
        (∀ j, 0 ≤ j < 0 → bnib q' j = bnib [None; None] j) ∧
        ∀ n r, copy_bytes q' 0 n = Ok r →
               0 + Z.of_nat (length [3; 12; 9]) ≤ 2 * Z.of_nat n →
               length r = n ∧ holds r 0 [3; 12; 9].
Proof.
  apply (pack_round_trip [None; None] 0 [3; 12; 9]).
  - split; [lia|]. intros H. exfalso. apply H. reflexivity.
  - unfold room. simpl. lia.
  - repeat constructor; unfold is_nibble; lia.
Defined.

(** ** The decoder on any digit string *)

Lemma bcd_loop_run code p es t :
  Forall is_digit es → holds code p (es ++ [t]) →
  ∃ k, code_fuel code = (length es + S k)%nat ∧
       bcd_loop (code_fuel code) code p 0 1 =
       bcd_loop (S k) code (p + Z.of_nat (length es)) (acc_v 0 es)
                (acc_b 1 (length es)).
Proof.
  intros Hes Hh. apply holds_app in Hh as [Hd Ht].
  apply holds_cons in Ht as [Ht _].
  assert (Hp : -1 ≤ p).
  { destruct es as [|d es].
    - simpl in Ht. rewrite Z.add_0_r in Ht. apply nibble_range in Ht. lia.
    - apply holds_cons in Hd as [Hd _]. apply nibble_range in Hd. lia. }
  apply nibble_range in Ht.
  exists (code_fuel code - length es - 1)%nat.
  assert (E : code_fuel code =
              (length es + S (code_fuel code - length es - 1))%nat)
    by (unfold code_fuel; lia).
  split; [done|]. rewrite E at 1. by apply bcd_loop_digits.
Qed.

Lemma bcd_loop_value code p es t :
  Forall is_digit es → holds code p (es ++ [t]) →
  t = BCD_N ∨ t = BCD_P →
  decimal es + (if t =? BCD_P then 10 ^ Z.of_nat (length es) else 0) < 2^31 →
  bcd_loop (code_fuel code) code p 0 1 =
  Ok (decimal es + (if t =? BCD_P then 10 ^ Z.of_nat (length es) else 0),
      p + Z.of_nat (length es) + 1).
Proof.
  intros Hes Hh Ht Hfit.
  destruct (bcd_loop_run code p es t Hes Hh) as (k & _ & ->).
  apply holds_app in Hh as [_ Hh]. apply holds_cons in Hh as [Hh _].
  pose proof (decimal_bounds es Hes) as Hb.
  assert (Hpow : 0 < 10 ^ Z.of_nat (length es)) by (apply Z.pow_pos_nonneg; lia).
  simpl bcd_loop. rewrite Hh. cbn [mbind result_bind].
  destruct Ht as [-> | ->].
  - change (BCD_N =? BCD_P) with false in *. cbv iota in Hfit |- *.
    change (Z.land BCD_N 15) with 10.
    change ((0 <=? 10) && (10 <=? 9)) with false.
    change ((10 =? BCD_N) || (10 =? BCD_P)) with true. cbv iota.
    rewrite Z.mul_0_r. change (wrap32 0) with 0. rewrite !Z.add_0_r in *.
    rewrite acc_v_decimal by (done || lia). rewrite wrap32_id by lia. done.
  - change (BCD_P =? BCD_P) with true in *. cbv iota in Hfit |- *.
    change (Z.land BCD_P 15) with 11.
    change ((0 <=? 11) && (11 <=? 9)) with false.
    change ((11 =? BCD_N) || (11 =? BCD_P)) with true. cbv iota.
    rewrite acc_v_decimal by (done || lia). rewrite acc_b_pow by lia.
    rewrite Z.mul_1_r, (wrap32_id (10 ^ _)) by lia.
    rewrite wrap32_id by lia. done.
Qed.

(** X5. What a literal means.  Any run of digit codes, leading zeros
    allowed, followed by a terminator decodes to the decimal value of the
    digits, plus [10^n] for [n] digits when the terminator is the prefixed
    one, as long as that value fits in 31 bits; the decoder stops right
    after the terminator. *)
Theorem bcd_decodes_digits code p es t :
  Forall is_digit es → holds code p (es ++ [t]) →
  t = BCD_N ∨ t = BCD_P →
  decimal es + (if t =? BCD_P then 10 ^ Z.of_nat (length es) else 0) < 2^31 →
  bcd_loop (code_fuel code) code p 0 1 =
  Ok (decimal es + (if t =? BCD_P then 10 ^ Z.of_nat (length es) else 0),
      p + Z.of_nat (length es) + 1).
Proof. apply bcd_loop_value. Qed.

Lemma bcd_decodes_digits_witness :
  bcd_loop (code_fuel [112; 10]) [112; 10] 0 0 1 =
  Ok (decimal [0; 7] + (if BCD_N =? BCD_P then 10 ^ Z.of_nat (length [0; 7])
                        else 0),
      0 + Z.of_nat (length [0; 7]) + 1).
Proof.
  apply (bcd_decodes_digits [112; 10] 0 [0; 7] BCD_N).
  - repeat constructor; unfold is_digit; lia.
  - intros [|[|[|k]]] c Hk; simpl in Hk; try done; injection Hk as <-;
      reflexivity.
  - by left.
  - by vm_compute.
Defined.

(** X6. A malformed literal.  When the digit codes of a literal are
    followed by a bracket code (12..15) instead of a terminator, the BCD
    instruction ends the run with the fatal "Bad BCD" error naming that
    code; nothing is pushed. *)
Theorem bcd_bad_code m c m1 es x :
  rd m = Ok (c, m1) → Z.land c 15 = C_BCD →
  Forall is_digit es → holds (code m) (ip m + 1) (es ++ [x]) →
  12 ≤ x ≤ 15 →
  exe_op jmp m = Exit (BadBCD x).
Proof.
  intros Hrd Hc Hes Hh Hx. pose proof (rd_inv _ _ _ Hrd) as [_ ->].
  unfold exe_op. rewrite Hrd. cbn -[Z.land]. rewrite Hc. cbn.
  unfold bcd. cbn [code ip set_ip].
  destruct (bcd_loop_run (code m) (ip m + 1) es x Hes Hh) as (k & _ & ->).
  apply holds_app in Hh as [_ Hh]. apply holds_cons in Hh as [Hh _].
  simpl bcd_loop. rewrite Hh. cbn [mbind result_bind].
  rewrite (land15_nibble x) by (unfold is_nibble; lia).
  replace ((0 <=? x) && (x <=? 9)) with false by lia.
  replace ((x =? BCD_N) || (x =? BCD_P)) with false
    by (unfold BCD_N, BCD_P; lia).
  done.
Qed.

Lemma bcd_bad_code_witness : exe_op jmp at_bad_bcd = Exit (BadBCD 12).
Proof.
  apply (bcd_bad_code at_bad_bcd 0 (set_ip 1 at_bad_bcd) [3] 12).
  - reflexivity.
  - reflexivity.
  - repeat constructor; unfold is_digit; lia.
  - intros [|[|k]] c Hk; simpl in Hk; try done; injection Hk as <-;
      reflexivity.
  - lia.
Defined.

(** ** Bracket matching *)

Section Matching.

Variables (code : list Z) (o c inc end_ : Z).
Hypothesis o_not_c : o ≠ c.

Lemma reads_cons p x w :
  reads code p inc (x :: w) ↔
  nibble code p = Ok x ∧ reads code (p + inc) inc w.
Proof.
  unfold reads. split.
  - intros H. split.
    + specialize (H O x eq_refl). simpl in H. by rewrite Z.add_0_r in H.
    + intros k y Hk. specialize (H (S k) y Hk).
      by replace (p + inc + Z.of_nat k * inc)
        with (p + Z.of_nat (S k) * inc) by lia.
  - intros [H0 H] [|k] y Hk; simpl in Hk.
    + injection Hk as <-. simpl. by rewrite Z.add_0_r.
    + specialize (H k y Hk).
      by replace (p + Z.of_nat (S k) * inc)
        with (p + inc + Z.of_nat k * inc) by lia.
Qed.

Lemma reads_app w1 : ∀ p w2,
  reads code p inc (w1 ++ w2) ↔
  reads code p inc w1 ∧ reads code (p + Z.of_nat (length w1) * inc) inc w2.
Proof.
  induction w1 as [|x w1 IH]; intros p w2.
  - simpl. rewrite Z.add_0_r. split; [|by intros [_ ?]].
    intros H. split; [|done]. by intros k y Hk.
  - simpl app. rewrite !reads_cons, IH. simpl length.
    replace (p + inc + Z.of_nat (length w1) * inc)
      with (p + Z.of_nat (S (length w1)) * inc) by lia.
    tauto.
Qed.

Lemma clear_cons p n :
  clear_of_end inc end_ p (S n) → p ≠ end_ ∧ clear_of_end inc end_ (p + inc) n.
Proof.
  intros H. split.
  - specialize (H O ltac:(lia)). simpl in H. by rewrite Z.add_0_r in H.
  - intros k Hk. specialize (H (S k) ltac:(lia)).
    by replace (p + inc + Z.of_nat k * inc)
      with (p + Z.of_nat (S k) * inc) by lia.
Qed.

Lemma clear_app p n1 n2 :
  clear_of_end inc end_ p (n1 + n2) →
  clear_of_end inc end_ p n1 ∧ clear_of_end inc end_ (p + Z.of_nat n1 * inc) n2.
Proof.
  intros H. split.
  - intros k Hk. apply H. lia.
  - intros k Hk. specialize (H (n1 + k)%nat ltac:(lia)).
    by replace (p + Z.of_nat n1 * inc + Z.of_nat k * inc)
      with (p + Z.of_nat (n1 + k) * inc) by lia.
Qed.

Lemma scan_step_open fuel p d :
  p ≠ end_ → nibble code p = Ok o →
  jmp_scan (S fuel) code o c inc end_ p d =
  jmp_scan fuel code o c inc end_ (p + inc) (d + 1).
Proof.
  intros He Hn. simpl. rewrite (proj2 (Z.eqb_neq _ _) He), Hn. simpl.
  by rewrite Z.eqb_refl.
Qed.

Lemma scan_step_close fuel p d :
  p ≠ end_ → nibble code p = Ok c →
  jmp_scan (S fuel) code o c inc end_ p d =
  if d =? 0 then Ok (p + 1)
  else jmp_scan fuel code o c inc end_ (p + inc) (d - 1).
Proof.
  intros He Hn. simpl. rewrite (proj2 (Z.eqb_neq _ _) He), Hn. simpl.
  rewrite (proj2 (Z.eqb_neq c o)) by done. by rewrite Z.eqb_refl.
Qed.

Lemma scan_step_other fuel p d x :
  p ≠ end_ → nibble code p = Ok x → x ≠ o → x ≠ c →
  jmp_scan (S fuel) code o c inc end_ p d =
  jmp_scan fuel code o c inc end_ (p + inc) d.
Proof.
  intros He Hn Ho Hc. simpl. rewrite (proj2 (Z.eqb_neq _ _) He), Hn. simpl.
  by rewrite (proj2 (Z.eqb_neq _ _) Ho), (proj2 (Z.eqb_neq _ _) Hc).
Qed.

(** A balanced stretch is crossed at the depth it was entered with. *)
Lemma scan_balanced w :
  balanced o c w → ∀ fuel p d,
  0 ≤ d → reads code p inc w → clear_of_end inc end_ p (length w) →
  jmp_scan (length w + fuel) code o c inc end_ p d =
  jmp_scan fuel code o c inc end_ (p + Z.of_nat (length w) * inc) d.
Proof.
  induction 1 as [|x w Hxo Hxc Hw IH|w1 w2 Hw1 IH1 Hw2 IH2];
    intros fuel p d Hd Hr Hcl.
  - simpl. f_equal. lia.
  - apply reads_cons in Hr as [Hx Hr]. apply clear_cons in Hcl as [He Hcl].
    simpl length. rewrite Nat.add_succ_l.
    rewrite (scan_step_other _ _ _ x) by done.
    rewrite IH by done. f_equal. lia.
  - apply reads_cons in Hr as [Ho Hr]. apply reads_app in Hr as [Hr1 Hr].
    apply reads_cons in Hr as [Hc Hr2].
    simpl length in *. rewrite length_app in *. simpl length in *.
    apply clear_cons in Hcl as [He Hcl].
    apply clear_app in Hcl as [Hcl1 Hcl]. apply clear_cons in Hcl as [Hec Hcl2].
    replace (S (length w1 + S (length w2)) + fuel)%nat
      with (S (length w1 + S (length w2 + fuel))) by lia.
    rewrite scan_step_open by done.
    rewrite IH1 by (done || lia).
    rewrite scan_step_close by done.
    replace (d + 1 =? 0) with false by lia.
    replace (d + 1 - 1) with d by lia.
    rewrite IH2 by done. f_equal. lia.
Qed.

(** Unmatched opening codes only raise the depth. *)
Lemma scan_open_ended w :
  open_ended o c w → ∀ fuel p d,
  0 ≤ d → reads code p inc w → clear_of_end inc end_ p (length w) →
  ∃ d', d ≤ d' ∧
    jmp_scan (length w + fuel) code o c inc end_ p d =
    jmp_scan fuel code o c inc end_ (p + Z.of_nat (length w) * inc) d'.
Proof.
  induction 1 as [w Hw|w1 w2 Hw1 Hw2 IH]; intros fuel p d Hd Hr Hcl.
  - exists d. split; [lia|]. by apply scan_balanced.
  - apply reads_app in Hr as [Hr1 Hr]. apply reads_cons in Hr as [Ho Hr2].
    rewrite length_app in *. simpl length in *.
    apply clear_app in Hcl as [Hcl1 Hcl]. apply clear_cons in Hcl as [He Hcl2].
    replace (length w1 + S (length w2) + fuel)%nat
      with (length w1 + S (length w2 + fuel))%nat by lia.
    rewrite (scan_balanced _ Hw1) by done.
    rewrite scan_step_open by done.
    destruct (IH fuel _ (d + 1) ltac:(lia) Hr2 Hcl2) as (d' & Hd' & ->).
    exists d'. split; [lia|]. f_equal. lia.
Qed.

End Matching.

Lemma reads_holds code p w : reads code p 1 w ↔ holds code p w.
Proof.
  unfold reads, holds.
  split; intros H k x Hk; specialize (H k x Hk);
    by rewrite Z.mul_1_r in *.
Qed.

Lemma reads_reverse code p w :
  holds code p w →
  reads code (p + Z.of_nat (length w) - 1) (-1) (reverse w).
Proof.
  intros H k x Hk.
  assert (k < length w)%nat as Hlt.
  { apply lookup_lt_Some in Hk. by rewrite length_reverse in Hk. }
  rewrite reverse_lookup in Hk by done.
  specialize (H _ _ Hk).
  by replace (p + Z.of_nat (length w) - 1 + Z.of_nat k * -1)
    with (p + Z.of_nat (length w - S k)) by lia.
Qed.

Lemma balanced_app o c w1 w2 :
  balanced o c w1 → balanced o c w2 → balanced o c (w1 ++ w2).
Proof.
  intros H1 H2. induction H1 as [|x w Hxo Hxc Hw IH|u1 u2 Hu1 IH1 Hu2 IH2].
  - done.
  - simpl. by constructor.
  - simpl. rewrite <- app_assoc. simpl. by constructor.
Qed.

(** Read backwards, a balanced stretch is balanced with the two brackets
    exchanged. *)
Lemma balanced_reverse o c w :
  balanced o c w → balanced c o (reverse w).
Proof.
  induction 1 as [|x w Hxo Hxc Hw IH|w1 w2 Hw1 IH1 Hw2 IH2].
  - constructor.
  - rewrite reverse_cons. apply balanced_app; [done|].
    constructor; [done|done|constructor].
  - rewrite reverse_cons, reverse_app, reverse_cons, <- !app_assoc.
    apply balanced_app; [done|]. simpl.
    apply (bal_pair c o (reverse w1) []); [done|constructor].
Qed.

Lemma scan_fuel_enough code inc p n x y :
  inc = 1 ∨ inc = -1 →
  nibble code p = Ok x → nibble code (p + Z.of_nat n * inc) = Ok y →
  (n + 2 ≤ code_fuel code)%nat.
Proof.
  intros Hinc H1%nibble_range H2%nibble_range. unfold code_fuel.
  destruct Hinc as [-> | ->]; lia.
Qed.

Lemma jmp_scan_match code o c inc e p w :
  o ≠ c → inc = 1 ∨ inc = -1 → balanced o c w →
  reads code p inc (w ++ [c]) → clear_of_end inc e p (S (length w)) →
  jmp_scan (code_fuel code) code o c inc e p 0 =
  Ok (p + Z.of_nat (length w) * inc + 1).
Proof.
  intros Hoc Hinc Hw Hr Hcl.
  assert (length w + 2 ≤ code_fuel code)%nat as Hfuel.
  { apply (scan_fuel_enough code inc p (length w) (hd c w) c Hinc).
    - rewrite <- (Z.add_0_r p) at 1. apply (Hr O (hd c w)). by destruct w.
    - apply (Hr (length w) c).
      by rewrite lookup_app_r, Nat.sub_diag by lia. }
  apply reads_app in Hr as [Hr Hc]. apply reads_cons in Hc as [Hc _].
  replace (S (length w)) with (length w + 1)%nat in Hcl by lia.
  apply clear_app in Hcl as [Hcl He]. apply clear_cons in He as [He _].
  replace (code_fuel code)
    with (length w + S (code_fuel code - S (length w)))%nat by lia.
  rewrite (scan_balanced code o c inc e Hoc w Hw) by (done || lia).
  by rewrite scan_step_close.
Qed.

Lemma jmp_scan_unmatched code o c inc p w :
  o ≠ c → inc = 1 ∨ inc = -1 → open_ended o c w →
  reads code p inc w →
  jmp_scan (code_fuel code) code o c inc
           (p + Z.of_nat (length w) * inc) p 0 = Exit (NoMatch o).
Proof.
  intros Hoc Hinc Hw Hr.
  assert (length w + 1 ≤ code_fuel code)%nat as Hfuel.
  { destruct w as [|x w'] eqn:E; [unfold code_fuel; simpl; lia|].
    rewrite <- E in *.
    assert (∃ y, w !! (length w - 1)%nat = Some y) as [y Hy].
    { apply lookup_lt_is_Some. rewrite E. simpl. lia. }
    assert (length w - 1 + 2 ≤ code_fuel code)%nat; [|lia].
    apply (scan_fuel_enough code inc p (length w - 1) x y Hinc).
    - rewrite <- (Z.add_0_r p) at 1. apply (Hr O x). by rewrite E.
    - by apply Hr. }
  assert (clear_of_end inc (p + Z.of_nat (length w) * inc) p (length w))
    as Hcl.
  { intros k Hk. destruct Hinc as [-> | ->]; lia. }
  replace (code_fuel code)
    with (length w + S (code_fuel code - S (length w)))%nat by lia.
  destruct (scan_open_ended code o c inc _ Hoc w Hw
              (S (code_fuel code - S (length w))) p 0 ltac:(lia) Hr Hcl)
    as (d' & _ & ->).
  simpl. by rewrite Z.eqb_refl.
Qed.

Lemma jmp_scan_target fuel : ∀ code o c inc e p d t,
  jmp_scan fuel code o c inc e p d = Ok t →
  ∃ q, nibble code q = Ok c ∧ t = q + 1.
Proof.
  induction fuel as [|fuel IH]; intros code o c inc e p d t H; [done|].
  simpl in H. destruct (p =? e); [done|].
  destruct (nibble code p) as [x| | |] eqn:Hx; try done.
  cbn [mbind result_bind] in H.
  destruct (x =? o); [by eapply IH|].
  destruct (x =? c) eqn:Hc; [|by eapply IH].
  apply Z.eqb_eq in Hc as ->.
  destruct (d =? 0); [|by eapply IH].
  injection H as <-. by exists p.
Qed.

Lemma jmp_match o c inc e m w :
  o ≠ c → inc = 1 ∨ inc = -1 →
  zget (jtbl m) (ip m) = Some BADIP →
  balanced o c w →
  reads (code m) (ip m) inc (w ++ [c]) →
  clear_of_end inc e (ip m) (S (length w)) →
  let t := ip m + Z.of_nat (length w) * inc + 1 in
  jmp o c inc e m =
  Ok (set_ip t (set_jtbl (<[Z.to_nat (ip m) := t]> (jtbl m)) m)).
Proof.
  intros Hoc Hinc Hslot Hw Hr Hcl t. unfold jmp. rewrite Hslot.
  cbn [or_undef mbind result_bind]. change (negb (BADIP =? BADIP)) with false.
  cbv iota. rewrite (jmp_scan_match _ o c inc e (ip m) w) by done.
  cbn [mbind result_bind]. fold t.
  rewrite zset_in_range by (by eapply zget_lt). done.
Qed.

(** X7. The branch resolver, on a position whose table slot is still empty,
    scanning forwards or backwards: when the nibbles it reads are a balanced
    stretch followed by the closing code, and the boundary is not among the
    positions read, it stops at that closing code, sets [ip] to the position
    after it and stores this position in the slot of the starting [ip]. *)
Theorem jmp_finds_match o c inc e m w :
  o ≠ c → inc = 1 ∨ inc = -1 →
  zget (jtbl m) (ip m) = Some BADIP →
  balanced o c w →
  reads (code m) (ip m) inc (w ++ [c]) →
  clear_of_end inc e (ip m) (S (length w)) →
  let t := ip m + Z.of_nat (length w) * inc + 1 in
  jmp o c inc e m =
  Ok (set_ip t (set_jtbl (<[Z.to_nat (ip m) := t]> (jtbl m)) m)).
Proof. apply jmp_match. Qed.

Lemma jmp_finds_match_witness :
  jmp C_JAO C_JAC 1 5 (set_ip 2 at_loop_open) =
  Ok (set_ip 5 (set_jtbl [BADIP; BADIP; 5; BADIP; BADIP]
                         (set_ip 2 at_loop_open))).
Proof.
  apply (jmp_finds_match C_JAO C_JAC 1 5 (set_ip 2 at_loop_open) [6; 7]).
  - discriminate.
  - by left.
  - reflexivity.
  - repeat constructor; discriminate.
  - intros [|[|[|k]]] x Hk; simpl in Hk; try done; injection Hk as <-;
      reflexivity.
  - intros k Hk. change (ip (set_ip 2 at_loop_open)) with 2.
    simpl in Hk. lia.
Defined.

Lemma jmp_no_match o c inc m w :
  o ≠ c → inc = 1 ∨ inc = -1 →
  zget (jtbl m) (ip m) = Some BADIP →
  open_ended o c w →
  reads (code m) (ip m) inc w →
  jmp o c inc (ip m + Z.of_nat (length w) * inc) m = Exit (NoMatch o).
Proof.
  intros Hoc Hinc Hslot Hw Hr. unfold jmp. rewrite Hslot.
  cbn [or_undef mbind result_bind]. change (negb (BADIP =? BADIP)) with false.
  cbv iota. by rewrite (jmp_scan_unmatched _ o c inc (ip m) w).
Qed.

(** X8. The branch resolver, on a position whose table slot is still empty:
    when the nibbles between the starting position and the boundary hold no
    closing code that is left unmatched (balanced stretches, with any number
    of unmatched opening codes between them), the scan reaches the boundary
    and the program stops with the message for the opening code. *)
Theorem jmp_unmatched o c inc m w :
  o ≠ c → inc = 1 ∨ inc = -1 →
  zget (jtbl m) (ip m) = Some BADIP →
  open_ended o c w →
  reads (code m) (ip m) inc w →
  jmp o c inc (ip m + Z.of_nat (length w) * inc) m = Exit (NoMatch o).
Proof. apply jmp_no_match. Qed.

Lemma jmp_unmatched_witness :
  jmp C_JAO C_JAC 1 4 (set_end 4 (set_ip 2 at_loop_open)) =
  Exit (NoMatch C_JAO).
Proof.
  apply (jmp_unmatched C_JAO C_JAC 1 (set_end 4 (set_ip 2 at_loop_open))
           [6; 7]).
  - discriminate.
  - by left.
  - reflexivity.
  - apply oe_bal. repeat constructor; discriminate.
  - intros [|[|k]] x Hk; simpl in Hk; try done; injection Hk as <-;
      reflexivity.
Defined.

Lemma bracket_codes o :
  o = C_JAO ∨ o = C_JBO →
  o ≠ closing o ∧ Z.land o 15 = o ∧ Z.land (closing o) 15 = closing o ∧
  (closing o = C_JAC ∨ closing o = C_JBC).
Proof.
  intros [-> | ->]; vm_compute; split_and!;
    first [done | left; done | right; done].
Qed.

(** X9. An opening bracket ([[] or [<]) pops one value.  When the test on
    it fails (the value is not 0 for [[], is positive for [<]) the body is
    entered; when it holds, and the slot of the position after the bracket
    is still empty, execution continues after the closing bracket that
    balances it.  The rest of the stack and the register are unchanged. *)
Theorem bracket_open m o body l v :
  o = C_JAO ∨ o = C_JBO →
  stack_ok m → stack m = l ++ [v] →
  balanced o (closing o) body →
  holds (code m) (ip m) (o :: body ++ [closing o]) →
  ip m + Z.of_nat (length body) + 1 < end_ m →
  (skips o v = true → zget (jtbl m) (ip m + 1) = Some BADIP) →
  ∃ m', exe_op jmp m = Ok (Continue, m') ∧
        stack m' = l ∧ ra m' = ra m ∧
        ip m' = if skips o v then ip m + Z.of_nat (length body) + 2
                else ip m + 1.
Proof.
  intros Ho Hok Hst Hbal Hh Hend Hslot.
  destruct (bracket_codes o Ho) as (Hoc & Hland & _ & _).
  apply holds_cons in Hh as [Hop Hh].
  unfold exe_op, rd, pk. rewrite Hop. cbn [mbind result_bind].
  rewrite Hland.
  set (m1 := set_ip (ip m + 1) m).
  destruct (pop_stack m1 l v) as (Hpop & Hst1 & Hsp); [apply Hok|done|].
  set (m2 := set_sp (sp m1 - 1) m1) in *.
  assert (Hjmp : skips o v = true →
    jmp o (closing o) 1 (end_ m2) m2 =
    Ok (set_ip (ip m + Z.of_nat (length body) + 2)
          (set_jtbl (<[Z.to_nat (ip m + 1) :=
                        ip m + Z.of_nat (length body) + 2]> (jtbl m)) m2))).
  { intros Hs.
    rewrite (jmp_match o (closing o) 1 (end_ m2) m2 body);
      try done.
    - unfold m2, m1. simpl.
      by replace (ip m + 1 + Z.of_nat (length body) * 1 + 1)
        with (ip m + Z.of_nat (length body) + 2) by lia.
    - by left.
    - by apply Hslot.
    - by apply reads_holds.
    - intros k Hk. unfold m2, m1. simpl. lia. }
  destruct Ho as [-> | ->]; unfold skips, closing in *; cbn -[pop jmp] in *;
    rewrite Hpop; cbn [mbind result_bind].
  - destruct (v =? 0) eqn:Hv.
    + change (end_ m2) with (end_ m). rewrite Hjmp by done.
      eexists. split; [reflexivity|]. by split_and!.
    + eexists. split; [reflexivity|]. by split_and!.
  - destruct (v <=? 0) eqn:Hv.
    + change (end_ m2) with (end_ m). rewrite Hjmp by done.
      eexists. split; [reflexivity|]. by split_and!.
    + eexists. split; [reflexivity|]. by split_and!.
Qed.

Lemma bracket_open_witness :
  ∃ m', exe_op jmp at_loop_open = Ok (Continue, m') ∧
        stack m' = [] ∧ ra m' = 0 ∧ ip m' = 5.
Proof.
  apply (bracket_open at_loop_open C_JAO [6; 7] [] 0).
  - by left.
  - split; simpl; lia.
  - reflexivity.
  - repeat constructor; discriminate.
  - intros [|[|[|[|k]]]] x Hk; simpl in Hk; try done; injection Hk as <-;
      reflexivity.
  - simpl. lia.
  - reflexivity.
Defined.

Lemma close_step m o :
  o = C_JAO ∨ o = C_JBO →
  nibble (code m) (ip m) = Ok (closing o) →
  exe_op jmp m =
  continue (LJ jmp (closing o) o (set_ip (ip m + 1) m)).
Proof.
  intros Ho Hc. unfold exe_op, rd, pk. rewrite Hc.
  cbn [mbind result_bind].
  by destruct Ho as [-> | ->].
Qed.

(** The layout of a loop read backwards from the nibble before its closing
    bracket. *)
Lemma loop_backwards code q o c body :
  holds code q (o :: body ++ [c]) →
  nibble code (q + Z.of_nat (length body) + 1) = Ok c ∧
  reads code (q + Z.of_nat (length body)) (-1) (reverse body) ∧
  reads code (q + Z.of_nat (length body)) (-1) (reverse body ++ [o]).
Proof.
  intros Hh. apply holds_cons in Hh as [Ho Hh].
  apply holds_app in Hh as [Hb Hc]. apply holds_cons in Hc as [Hc _].
  apply reads_reverse in Hb.
  replace (q + 1 + Z.of_nat (length body) - 1)
    with (q + Z.of_nat (length body)) in Hb by lia.
  split; [by rewrite <- Z.add_assoc, (Z.add_comm _ 1), Z.add_assoc|].
  split; [done|].
  apply reads_app. split; [done|]. apply reads_cons.
  rewrite length_reverse.
  replace (q + Z.of_nat (length body) + Z.of_nat (length body) * -1)
    with q by lia.
  split; [done|]. by intros k y Hk.
Qed.

(** X10. A closing bracket ([]] or [>]) leaves the stack alone and tests the
    register.  When it is 0 execution goes on after the bracket.  When it
    is not 0, the bracket is the one that balances an opening bracket lying
    after the first nibble of the current range, and the slot of the
    position before the closing bracket is still empty, the register is
    decremented and execution continues with the first nibble of the loop
    body. *)
Theorem bracket_close m o body q :
  o = C_JAO ∨ o = C_JBO →
  balanced o (closing o) body →
  holds (code m) q (o :: body ++ [closing o]) →
  ip m = q + Z.of_nat (length body) + 1 →
  start m < q →
  (ra m ≠ 0 → zget (jtbl m) (ip m - 1) = Some BADIP) →
  ∃ m', exe_op jmp m = Ok (Continue, m') ∧
        stack m' = stack m ∧
        (ra m = 0 → ip m' = ip m + 1 ∧ ra m' = 0) ∧
        (ra m ≠ 0 → ip m' = q + 1 ∧ ra m' = wrap32 (ra m - 1)).
Proof.
  intros Ho Hbal Hh Hip Hstart Hslot.
  destruct (bracket_codes o Ho) as (Hoc & _ & _ & _).
  destruct (loop_backwards _ _ _ _ _ Hh) as (Hc & _ & Hr).
  rewrite <- Hip in Hc. rewrite (close_step m o Ho Hc).
  unfold LJ. cbn [ra set_ip].
  destruct (ra m =? 0) eqn:Hra; cbn [negb].
  - apply Z.eqb_eq in Hra. eexists. split; [reflexivity|].
    split_and!; [done| |by intros []]. by intros _.
  - apply Z.eqb_neq in Hra.
    set (m2 := set_ip _ (set_ra _ _)).
    assert (ip m2 = q + Z.of_nat (length body)) as Hip2.
    { unfold m2. simpl. lia. }
    rewrite (jmp_match (closing o) o (-1) (start m2) m2
               (reverse body)).
    + eexists. split; [reflexivity|].
      split_and!; [done|by intros ?|]. intros _.
      split; [|done]. cbn [ip set_ip]. rewrite Hip2, length_reverse. lia.
    + done.
    + by right.
    + rewrite Hip2. specialize (Hslot Hra). rewrite Hip in Hslot.
      by replace (q + Z.of_nat (length body) + 1 - 1)
        with (q + Z.of_nat (length body)) in Hslot by lia.
    + by apply balanced_reverse.
    + by rewrite Hip2.
    + intros k Hk. rewrite length_reverse in Hk. rewrite Hip2.
      change (start m2) with (start m). lia.
Qed.

Lemma bracket_close_witness :
  ∃ m', exe_op jmp at_loop_close = Ok (Continue, m') ∧
        stack m' = [] ∧ ip m' = 2 ∧ ra m' = 1.
Proof.
  destruct (bracket_close at_loop_close C_JAO [6; 7] 1)
    as (m' & E & Hst & _ & Hloop).
  - by left.
  - repeat constructor; discriminate.
  - intros [|[|[|[|k]]]] x Hk; simpl in Hk; try done; injection Hk as <-;
      reflexivity.
  - reflexivity.
  - simpl. lia.
  - reflexivity.
  - exists m'. split; [exact E|]. split; [exact Hst|].
    apply Hloop. discriminate.
Defined.

(** X11. A loop whose opening bracket is the first nibble of the current
    range (the first instruction of a function body or of the program)
    cannot be repeated: the backward scan of its closing bracket stops
    before it looks at the first nibble, and with a register that is not 0
    and an empty slot the program stops with the message for the closing
    bracket. *)
Theorem loop_at_range_start m o body :
  o = C_JAO ∨ o = C_JBO →
  balanced o (closing o) body →
  holds (code m) (start m) (o :: body ++ [closing o]) →
  ip m = start m + Z.of_nat (length body) + 1 →
  ra m ≠ 0 →
  zget (jtbl m) (ip m - 1) = Some BADIP →
  exe_op jmp m = Exit (NoMatch (closing o)).
Proof.
  intros Ho Hbal Hh Hip Hra Hslot.
  destruct (bracket_codes o Ho) as (Hoc & _ & _ & _).
  destruct (loop_backwards _ _ _ _ _ Hh) as (Hc & Hr & _).
  rewrite <- Hip in Hc. rewrite (close_step m o Ho Hc).
  unfold LJ. cbn [ra set_ip].
  rewrite (proj2 (Z.eqb_neq _ _) Hra). cbn [negb].
  set (m2 := set_ip _ (set_ra _ _)).
  assert (ip m2 = start m + Z.of_nat (length body)) as Hip2.
  { unfold m2. simpl. lia. }
  replace (start m2)
    with (ip m2 + Z.of_nat (length (reverse body)) * -1).
  2:{ rewrite Hip2, length_reverse. change (start m2) with (start m). lia. }
  rewrite (jmp_no_match (closing o) o (-1) m2 (reverse body)); try done.
  - by right.
  - rewrite Hip2. rewrite Hip in Hslot.
    by replace (start m + Z.of_nat (length body) + 1 - 1)
      with (start m + Z.of_nat (length body)) in Hslot by lia.
  - apply oe_bal. by apply balanced_reverse.
  - by rewrite Hip2.
Qed.

Lemma loop_at_range_start_witness :
  exe_op jmp at_loop_start = Exit (NoMatch C_JAC).
Proof.
  apply (loop_at_range_start at_loop_start C_JAO [6; 7]).
  - by left.
  - repeat constructor; discriminate.
  - intros [|[|[|[|k]]]] x Hk; simpl in Hk; try done; injection Hk as <-;
      reflexivity.
  - reflexivity.
  - discriminate.
  - reflexivity.
Defined.

(** X12. The jump table: whenever the branch resolver returns, the target
    it took is not the empty marker and is what the slot of the starting
    position holds afterwards.  So every later branch from that position,
    whatever its brackets, direction and boundary, takes the same target
    without looking at the code. *)
Theorem jmp_cache_reuse o c inc e m m' :
  jmp o c inc e m = Ok m' →
  zget (jtbl m') (ip m) = Some (ip m') ∧ ip m' ≠ BADIP ∧
  ∀ o2 c2 inc2 e2 m2,
    jtbl m2 = jtbl m' → ip m2 = ip m →
    jmp o2 c2 inc2 e2 m2 = Ok (set_ip (ip m') m2).
Proof.
  intros H.
  assert (zget (jtbl m') (ip m) = Some (ip m') ∧ ip m' ≠ BADIP) as [H1 H2].
  { unfold jmp in H.
    destruct (zget (jtbl m) (ip m)) as [t|] eqn:Ht; [|done].
    cbn [or_undef mbind result_bind] in H.
    destruct (t =? BADIP) eqn:Hb; cbn [negb] in H.
    - destruct (jmp_scan _ _ _ _ _ _ _ _) as [t'| | |] eqn:Hs; try done.
      cbn [mbind result_bind] in H.
      destruct (zset (jtbl m) (ip m) t') as [jt|] eqn:Hz; [|done].
      cbn [or_undef mbind result_bind] in H. injection H as <-.
      cbn [jtbl ip set_ip set_jtbl].
      split.
      + rewrite (zget_zset _ _ _ (ip m) _ Hz). by rewrite bool_decide_eq_true_2.
      + apply jmp_scan_target in Hs as (q & Hq%nibble_range & ->).
        unfold BADIP. lia.
    - injection H as <-. cbn [jtbl ip set_ip]. split; [done|].
      by apply Z.eqb_neq in Hb. }
  split; [done|]. split; [done|].
  intros o2 c2 inc2 e2 m2 Hj Hi. unfold jmp. rewrite Hi, Hj, H1.
  cbn [or_undef mbind result_bind].
  by rewrite (proj2 (Z.eqb_neq _ _) H2).
Qed.

Lemma jmp_cache_reuse_witness :
  jmp C_JAC C_JAO (-1) 0
      (set_ip 2 (set_jtbl [BADIP; BADIP; 5; BADIP; BADIP] at_loop_close)) =
  Ok (set_ip 5
      (set_ip 2 (set_jtbl [BADIP; BADIP; 5; BADIP; BADIP] at_loop_close))).
Proof.
  apply (jmp_cache_reuse C_JAO C_JAC 1 5 (set_ip 2 at_loop_open)
           (set_ip 5 (set_jtbl [BADIP; BADIP; 5; BADIP; BADIP]
                               (set_ip 2 at_loop_open)))).
  - reflexivity.
  - reflexivity.
  - reflexivity.
Defined.

(** ** Stack instructions *)

Lemma stack_lookup m k x :
  stack m !! k = Some x → st m !! k = Some x ∧ (k < Z.to_nat (sp m))%nat.
Proof.
  unfold stack. intros H.
  assert (k < Z.to_nat (sp m))%nat as Hk.
  { apply lookup_lt_Some in H. rewrite length_take in H. lia. }
  by rewrite lookup_take_lt in H.
Qed.

Lemma index_step m c m1 l i :
  rd m = Ok (c, m1) → Z.land c 15 = C_RWS →
  stack_ok m → stack m = l ++ [i] →
  (0 ≤ i → ∀ x, reverse l !! Z.to_nat i = Some x →
     ∃ m', exe_op jmp m = Ok (Continue, m') ∧ stack m' = l ++ [x] ∧
           ra m' = ra m ∧ ip m' = ip m + 1) ∧
  (i < 0 → ∀ l' v, l = l' ++ [v] → - i ≤ Z.of_nat (length l') →
     ∃ m', exe_op jmp m = Ok (Continue, m') ∧
           stack m' = <[(length l' - Z.to_nat (- i))%nat := v]> l' ∧
           ra m' = ra m ∧ ip m' = ip m + 1).
Proof.
  intros Hrd Hc Hok Hst. pose proof (rd_inv _ _ _ Hrd) as [_ ->].
  unfold exe_op. rewrite Hrd. cbn -[Z.land]. rewrite Hc. cbn.
  set (m1 := set_ip (ip m + 1) m).
  destruct (pop_stack m1 l i) as (Hpop & Hst1 & Hsp); [apply Hok|done|].
  rewrite Hpop. cbn [mbind result_bind].
  set (m2 := set_sp (sp m1 - 1) m1) in *.
  assert (Z.of_nat (length l) = sp m2) as Hlen.
  { rewrite <- Hst1. apply stack_length. unfold m2, m1, stack_ok in *.
    simpl in *. lia. }
  split.
  - intros Hi x Hx. unfold rw.
    rewrite (proj2 (Z.leb_le _ _) Hi).
    assert (Z.to_nat i < length l)%nat as Hil.
    { apply lookup_lt_Some in Hx. by rewrite length_reverse in Hx. }
    rewrite reverse_lookup in Hx by done. rewrite <- Hst1 in Hx.
    apply stack_lookup in Hx as [Hx _]. rewrite Hst1 in Hx.
    assert (zget (st m2) (sp m2 - 1 - i) = Some x) as ->.
    { apply zget_Some. split; [lia|].
      by replace (Z.to_nat (sp m2 - 1 - i))
        with (length l - S (Z.to_nat i))%nat by lia. }
    cbn [or_undef mbind result_bind].
    destruct (push_stack x m2) as [E Hst2].
    { unfold m2, m1, stack_ok in *. simpl in *. lia. }
    unfold continue. rewrite E. cbn [mbind result_bind].
    eexists. split; [reflexivity|]. rewrite Hst2, Hst1. by split_and!.
  - intros Hi l' v -> Hdepth. unfold rw.
    rewrite (proj2 (Z.leb_gt _ _) Hi).
    destruct (pop_stack m2 l' v) as (Hpop2 & Hst2 & Hsp2); [|done|].
    { unfold m2, m1, stack_ok in *. simpl in *. lia. }
    rewrite Hpop2. cbn [mbind result_bind].
    set (m3 := set_sp (sp m2 - 1) m2) in *.
    rewrite length_app in Hlen. simpl length in Hlen.
    assert (Z.of_nat (length l') = sp m3) as Hlen3.
    { change (sp m3) with (sp m2 - 1). lia. }
    rewrite zset_in_range.
    2:{ unfold m3, m2, m1, stack_ok in *. simpl in *. lia. }
    unfold continue. cbn [or_undef mbind result_bind].
    eexists. split; [reflexivity|]. split_and!; [|done|done].
    unfold stack in *. cbn [sp st set_st].
    replace (Z.to_nat (sp m3 + i))
      with (length l' - Z.to_nat (- i))%nat by lia.
    rewrite take_insert_lt by lia. by rewrite Hst2.
Qed.

(** X13. INDEX pops an index [i].  For [i >= 0] it pushes a copy of the
    value [i] places below the top of what remains (0 copies the top).  For
    [i < 0] it pops a second value [v] and stores it [-i] places below the
    top of what remains: slot [sp + i] of the stack after both pops. *)
Theorem index_op m c m1 l i :
  rd m = Ok (c, m1) → Z.land c 15 = C_RWS →
  stack_ok m → stack m = l ++ [i] →
  (0 ≤ i → ∀ x, reverse l !! Z.to_nat i = Some x →
     ∃ m', exe_op jmp m = Ok (Continue, m') ∧ stack m' = l ++ [x] ∧
           ra m' = ra m ∧ ip m' = ip m + 1) ∧
  (i < 0 → ∀ l' v, l = l' ++ [v] → - i ≤ Z.of_nat (length l') →
     ∃ m', exe_op jmp m = Ok (Continue, m') ∧
           stack m' = <[(length l' - Z.to_nat (- i))%nat := v]> l' ∧
           ra m' = ra m ∧ ip m' = ip m + 1).
Proof. apply index_step. Qed.

Lemma index_op_witness :
  (∃ m', exe_op jmp (at_index 1) = Ok (Continue, m') ∧
         stack m' = [7; 8; 9; 8]) ∧
  (∃ m', exe_op jmp (at_index (-1)) = Ok (Continue, m') ∧
         stack m' = [7; 9]).
Proof.
  split.
  - destruct (index_op (at_index 1) 4 (set_ip 1 (at_index 1)) [7; 8; 9] 1)
      as [Hread _].
    + reflexivity.
    + reflexivity.
    + split; simpl; lia.
    + reflexivity.
    + destruct (Hread ltac:(lia) 8 eq_refl) as (m' & E & Hst & _).
      by exists m'.
  - destruct (index_op (at_index (-1)) 4 (set_ip 1 (at_index (-1)))
                [7; 8; 9] (-1)) as [_ Hwrite].
    + reflexivity.
    + reflexivity.
    + split; simpl; lia.
    + reflexivity.
    + destruct (Hwrite ltac:(lia) [7; 8] 9 eq_refl ltac:(simpl; lia))
        as (m' & E & Hst & _).
      by exists m'.
Defined.

(** X14. The stack and register instructions, on a stack that ends with
    [a] below [b]: SWAP exchanges the two, DROP removes [b], [=] moves [b]
    into the register, and [?] pushes a copy of the register when a slot is
    free.  [push] is as unchecked as [pop]: on a full stack [?] writes
    beyond the end of [st]. *)
Theorem stack_shuffles m c m1 l a b :
  rd m = Ok (c, m1) → stack_ok m → stack m = l ++ [a; b] →
  (Z.land c 15 = C_SWP →
   ∃ m', exe_op jmp m = Ok (Continue, m') ∧ stack m' = l ++ [b; a] ∧
         ra m' = ra m ∧ ip m' = ip m + 1) ∧
  (Z.land c 15 = C_POP →
   ∃ m', exe_op jmp m = Ok (Continue, m') ∧ stack m' = l ++ [a] ∧
         ra m' = ra m ∧ ip m' = ip m + 1) ∧
  (Z.land c 15 = C_RDA →
   ∃ m', exe_op jmp m = Ok (Continue, m') ∧ stack m' = l ++ [a] ∧
         ra m' = b ∧ ip m' = ip m + 1) ∧
  (Z.land c 15 = C_STA → sp m < Z.of_nat (length (st m)) →
   ∃ m', exe_op jmp m = Ok (Continue, m') ∧ stack m' = l ++ [a; b; ra m] ∧
         ra m' = ra m ∧ ip m' = ip m + 1) ∧
  (Z.land c 15 = C_STA → sp m = Z.of_nat (length (st m)) →
   exe_op jmp m = Undef (StOOB (sp m))).
Proof.
  intros Hrd Hok Hst. pose proof (rd_inv _ _ _ Hrd) as [_ ->].
  set (m1 := set_ip (ip m + 1) m) in *.
  destruct (pop_stack m1 (l ++ [a]) b) as (Hpop & Hst1 & Hsp);
    [apply Hok|by rewrite <- app_assoc|].
  set (m2 := set_sp (sp m1 - 1) m1) in *.
  split_and!; intros Hc; unfold exe_op; rewrite Hrd; cbn -[Z.land];
    rewrite Hc; cbn.
  - rewrite Hpop. cbn [mbind result_bind].
    destruct (pop_stack m2 l a) as (Hpop2 & Hst2 & Hsp2); [|done|].
    { unfold m2, m1, stack_ok in *. simpl in *. lia. }
    rewrite Hpop2. cbn [mbind result_bind].
    set (m3 := set_sp (sp m2 - 1) m2) in *.
    destruct (push_stack b m3) as [E3 Hst3].
    { unfold m3, m2, m1, stack_ok in *. simpl in *. lia. }
    rewrite E3. cbn [mbind result_bind].
    set (m4 := set_sp _ (set_st _ m3)) in *.
    destruct (push_stack a m4) as [E4 Hst4].
    { unfold m4, m3, m2, m1, stack_ok in *. simpl in *.
      rewrite length_insert. lia. }
    unfold continue. rewrite E4. cbn [mbind result_bind].
    eexists. split; [reflexivity|].
    rewrite Hst4, Hst3, Hst2, <- app_assoc. by split_and!.
  - rewrite Hpop. cbn [mbind result_bind].
    eexists. split; [reflexivity|]. by split_and!.
  - rewrite Hpop. cbn [mbind result_bind].
    eexists. split; [reflexivity|]. by split_and!.
  - intros Hroom. fold m1.
    destruct (push_stack (ra m1) m1) as [E Hst'].
    { unfold m1, stack_ok in *. simpl in *. lia. }
    change (ra m1) with (ra m) in *.
    unfold continue. rewrite E. cbn [mbind result_bind].
    eexists. split; [reflexivity|].
    change (stack m1) with (stack m) in Hst'.
    rewrite Hst', Hst, <- app_assoc. by split_and!.
  - intros Hfull. fold m1. unfold continue, push, zset.
    rewrite bool_decide_eq_false_2; [done|].
    unfold m1. simpl. lia.
Qed.

Lemma stack_shuffles_witness :
  ∃ m', exe_op jmp (at_code C_SWP) = Ok (Continue, m') ∧
        stack m' = [6; 5] ∧ ra m' = 3 ∧ ip m' = 1.
Proof.
  destruct (stack_shuffles (at_code C_SWP) C_SWP (set_ip 1 (at_code C_SWP))
              [] 5 6) as [Hswap _].
  - reflexivity.
  - split; simpl; lia.
  - reflexivity.
  - exact (Hswap eq_refl).
Defined.

(** X15. CALL on an id whose table entry has end 0 runs no code and pushes
    no frame: id 0 prints the value below the id and leaves it in place
    (reading below the stack when there is none), id 2 ends the program,
    and every id other than 0, 1 and 2 ends it with the message for an
    unknown function. *)
Theorem call_builtin m c m1 l id f :
  rd m = Ok (c, m1) → Z.land c 15 = C_RUN →
  stack_ok m → stack m = l ++ [id] →
  zget (fn m) id = Some f → fn_end f = 0 →
  (id = SI_TOP → ∀ l0 v, l = l0 ++ [v] →
     exe_op jmp m =
     Ok (Continue, emit_out (PrintTop v) (set_sp (sp m - 1) m1))) ∧
  (id = SI_TOP → l = [] → exe_op jmp m = Undef (StOOB (-1))) ∧
  (id = SI_HLT → exe_op jmp m = Exit Hlt) ∧
  (id ≠ SI_TOP → id ≠ SI_SAY → id ≠ SI_HLT →
     exe_op jmp m = Exit (BadFunction id)).
Proof.
  intros Hrd Hc Hok Hst Hf Hend. pose proof (rd_inv _ _ _ Hrd) as [_ ->].
  set (m1 := set_ip (ip m + 1) m) in *.
  destruct (pop_stack m1 l id) as (Hpop & Hst1 & Hsp); [apply Hok|done|].
  set (m2 := set_sp (sp m1 - 1) m1) in *.
  assert (exe_op jmp m = continue (swi id m2)) as ->.
  { unfold exe_op. rewrite Hrd. cbn -[Z.land]. rewrite Hc. cbn.
    fold m1. rewrite Hpop. cbn [mbind result_bind]. unfold run.
    change (fn m2) with (fn m). rewrite Hf. cbn [or_undef mbind result_bind].
    by rewrite Hend. }
  assert (Z.of_nat (length l) = sp m2) as Hlen.
  { rewrite <- Hst1. apply stack_length. unfold m2, m1, stack_ok in *.
    simpl in *. lia. }
  split_and!.
  - intros -> l0 v ->. unfold swi, top. cbn [Z.eqb SI_TOP].
    assert (zget (st m2) (sp m2 - 1) = Some v) as ->; [|done].
    apply zget_Some. rewrite length_app in Hlen. simpl length in Hlen.
    split; [lia|].
    assert (stack m2 !! length l0 = Some v) as H.
    { rewrite Hst1. by rewrite lookup_app_r, Nat.sub_diag by lia. }
    apply stack_lookup in H as [H _].
    by replace (Z.to_nat (sp m2 - 1)) with (length l0) by lia.
  - intros -> ->. unfold swi, top. cbn [Z.eqb SI_TOP].
    simpl length in Hlen. rewrite <- Hlen. done.
  - by intros ->.
  - intros H0 H1 H2. unfold swi.
    by rewrite (proj2 (Z.eqb_neq _ _) H0), (proj2 (Z.eqb_neq _ _) H1),
      (proj2 (Z.eqb_neq _ _) H2).
Qed.

Lemma call_builtin_witness :
  exe_op jmp (at_builtin 0) =
    Ok (Continue, emit_out (PrintTop 8)
                    (set_sp 1 (set_ip 1 (at_builtin 0)))) ∧
  exe_op jmp (at_builtin 5) = Exit (BadFunction 5).
Proof.
  split.
  - destruct (call_builtin (at_builtin 0) 10 (set_ip 1 (at_builtin 0)) [8] 0
                (Func 0 0) eq_refl eq_refl ltac:(split; simpl; lia)
                eq_refl eq_refl eq_refl) as [Htop _].
    exact (Htop eq_refl [] 8 eq_refl).
  - destruct (call_builtin (at_builtin 5) 10 (set_ip 1 (at_builtin 5)) [8] 5
                (Func 0 0) eq_refl eq_refl ltac:(split; simpl; lia)
                eq_refl eq_refl eq_refl) as (_ & _ & _ & Hbad).
    apply Hbad; discriminate.
Defined.

Lemma say_print_regs n : ∀ s m m',
  say_print n s m = Ok m' → ip m' = ip m ∧ fp m' = fp m ∧ ra m' = ra m.
Proof.
  induction n as [|n IH]; intros s m m' H; simpl in H.
  - by injection H as <-.
  - destruct (zget (st m) s); [|done].
    cbn [or_undef mbind result_bind] in H. by apply IH in H.
Qed.

Lemma swi_regs id m m' :
  swi id m = Ok m' → ip m' = ip m ∧ fp m' = fp m ∧ ra m' = ra m.
Proof.
  unfold swi. intros H.
  destruct (id =? SI_TOP).
  { destruct (top m); try done. cbn [mbind result_bind] in H.
    by injection H as <-. }
  destruct (id =? SI_SAY); [|by destruct (id =? SI_HLT)].
  destruct (say_scan _ _ _) as [s| | |]; try done.
  cbn [mbind result_bind] in H.
  destruct (say_print _ _ _) as [m3| | |] eqn:E3; try done.
  cbn [mbind result_bind] in H. injection H as <-.
  by apply say_print_regs in E3.
Qed.

(** X16. Calling [say] (id 1, no body defined) on a stack that ends with a
    0, characters that are not 0, and the id: the scan starts at the slot
    the id was popped from, which is not 0, walks down to the 0, and the
    built-in prints that 0 as a NUL byte, then the characters (each as an
    unsigned byte), then a newline.  The 0 and the characters are removed,
    what lay below stays, and no frame is pushed. *)
Theorem say_call m c m1 l cs f :
  rd m = Ok (c, m1) → Z.land c 15 = C_RUN → stack_ok m →
  stack m = l ++ 0 :: cs ++ [SI_SAY] → Forall (λ c, c ≠ 0) cs →
  zget (fn m) SI_SAY = Some f → fn_end f = 0 →
  ∃ m', exe_op jmp m = Ok (Continue, m') ∧
        out m' = out m ++ Putchar 0 ::
                   map (λ v, Putchar (v mod 256)) cs ++ [Putchar 10] ∧
        stack m' = l ∧ ip m' = ip m + 1 ∧ fp m' = fp m.
Proof.
  intros Hrd Hc Hok Hst Hcs Hf Hend. pose proof (rd_inv _ _ _ Hrd) as [_ ->].
  set (m1 := set_ip (ip m + 1) m) in *.
  destruct (pop_stack m1 (l ++ 0 :: cs) SI_SAY) as (Hpop & Hst1 & Hsp).
  { apply Hok. }
  { change (stack m1) with (stack m). by rewrite Hst, <- app_assoc. }
  set (m2 := set_sp (sp m1 - 1) m1) in *.
  assert (exe_op jmp m = continue (swi SI_SAY m2)) as ->.
  { unfold exe_op. rewrite Hrd. cbn -[Z.land]. rewrite Hc. cbn.
    fold m1. rewrite Hpop. cbn [mbind result_bind]. unfold run.
    change (fn m2) with (fn m). rewrite Hf. cbn [or_undef mbind result_bind].
    by rewrite Hend. }
  assert (zget (st m2) (sp m2) = Some SI_SAY) as Hid.
  { unfold pop in Hpop. change (sp m1 - 1) with (sp m2) in Hpop.
    change (st m1) with (st m2) in Hpop.
    destruct (zget (st m2) (sp m2)); [|done].
    cbn [or_undef mbind result_bind] in Hpop. by injection Hpop as ->. }
  destruct (say_writes_terminator m2 l cs SI_SAY) as (m' & E & Hout & Hst');
    [|done|done|done|done|].
  { apply zget_lt in Hid. lia. }
  unfold continue. rewrite E. cbn [mbind result_bind].
  exists m'. split; [done|]. split; [exact Hout|]. split; [done|].
  apply swi_regs in E as (-> & -> & _). done.
Qed.

Lemma say_call_witness :
  ∃ m', exe_op jmp at_say = Ok (Continue, m') ∧
        out m' = [Putchar 0; Putchar 72; Putchar 105; Putchar 10] ∧
        stack m' = [9] ∧ ip m' = 1 ∧ fp m' = 1.
Proof.
  apply (say_call at_say 10 (set_ip 1 at_say) [9] [72; 105] (Func 0 0)).
  - reflexivity.
  - reflexivity.
  - split; simpl; lia.
  - reflexivity.
  - repeat constructor; discriminate.
  - reflexivity.
  - reflexivity.
Defined.

(** ** Blank and empty programs *)

Lemma strlen_nonzero s : Forall (λ c, c ≠ 0) s → strlen s = Z.of_nat (length s).
Proof.
  induction 1 as [|c s Hc Hs IH]; [done|]. simpl strlen.
  rewrite (proj2 (Z.eqb_neq _ _) Hc), IH. simpl length. lia.
Qed.

Lemma char_at_lookup s p c :
  s !! p = Some c → char_at s (Z.of_nat p) = Ok c.
Proof.
  intros H. unfold char_at.
  pose proof (lookup_lt_Some _ _ _ H).
  rewrite (proj2 (Z.eqb_neq _ _)) by lia.
  unfold zget. rewrite bool_decide_eq_true_2 by lia.
  by rewrite Nat2Z.id, H.
Qed.

Lemma asm_step_blank s e a c :
  char_at s (a_p a) = Ok c → blank c →
  asm_step s e a = Ok (Asm (a_q a) (a_ip a) (a_nm a) (a_p a + 1) (a_run a)).
Proof.
  intros Hc Hb. unfold asm_step. rewrite Hc. cbn [mbind result_bind].
  by destruct Hb as [-> | ->].
Qed.

Lemma b4asmS_blanks s : Forall blank s → ∀ fuel a,
  0 ≤ a_p a ≤ Z.of_nat (length s) →
  Z.of_nat (length s) - a_p a < Z.of_nat fuel →
  b4asmS fuel s (Z.of_nat (length s)) a =
  Ok (Asm (a_q a) (a_ip a) (a_nm a) (Z.of_nat (length s)) (a_run a)).
Proof.
  intros Hs. induction fuel as [|fuel IH]; intros a Hp Hfuel; [lia|].
  simpl. destruct (Z.ltb_spec (a_p a) (Z.of_nat (length s))) as [Hlt|Hge].
  - destruct (lookup_lt_is_Some_2 s (Z.to_nat (a_p a)) ltac:(lia)) as [c Hc].
    pose proof (char_at_lookup _ _ _ Hc) as Hch.
    rewrite Z2Nat.id in Hch by lia.
    rewrite (asm_step_blank s _ a c Hch).
    2:{ rewrite Forall_lookup in Hs. by apply (Hs _ _ Hc). }
    cbn [mbind result_bind]. rewrite IH; simpl; [done|lia|lia].
  - destruct a as [q i n p r]. simpl in *. do 2 f_equal. lia.
Qed.

Lemma blank_nonzero s : Forall blank s → Forall (λ c, c ≠ 0) s.
Proof.
  intros H. eapply Forall_impl; [exact H|].
  intros c [-> | ->]; discriminate.
Qed.

Lemma b4asm_blank s nm0 : Forall blank s → b4asm s nm0 = Ok ([], 0, nm0).
Proof.
  intros Hs. unfold b4asm.
  rewrite (strlen_nonzero s) by by apply blank_nonzero.
  rewrite (b4asmS_blanks s Hs); [done| |]; unfold text_fuel; simpl; lia.
Qed.

(** X17. A program text with nothing but spaces and newlines (the empty
    text included) is not run as an empty program: its entry function gets
    the end 0, which CALL takes for "not defined", and the first command of
    a session ends with the message for an unknown function, naming the id
    of [_entry]. *)
Theorem blank_program fuel s :
  Forall blank s → b4cmd fuel s boot = Exit (BadFunction 3).
Proof.
  intros Hs. unfold b4cmd, b4cmd_with.
  change (ready boot) with false. cbv iota.
  change (init boot)
    with (Ok (set_ready true
                (set_nm [codes "top"; codes "say"; codes "hlt";
                         codes "_entry"] boot))).
  cbn [mbind result_bind].
  rewrite (b4asm_blank s _ Hs). reflexivity.
Qed.

Lemma blank_program_witness :
  b4cmd 5 [ch " "; 10; ch " "] boot = Exit (BadFunction 3).
Proof.
  apply blank_program. repeat constructor; (by left) || by right.
Defined.

(** ** Numbers in the program text *)

Lemma text_at_cons s p c cs :
  text_at s p (c :: cs) ↔ char_at s p = Ok c ∧ text_at s (p + 1) cs.
Proof.
  unfold text_at. split.
  - intros H. split.
    + specialize (H O c eq_refl). by rewrite Z.add_0_r in H.
    + intros k x Hk. specialize (H (S k) x Hk).
      by replace (p + 1 + Z.of_nat k) with (p + Z.of_nat (S k)) by lia.
  - intros [H0 H] [|k] x Hk; simpl in Hk.
    + injection Hk as <-. by rewrite Z.add_0_r.
    + specialize (H k x Hk).
      by replace (p + Z.of_nat (S k)) with (p + 1 + Z.of_nat k) by lia.
Qed.

Lemma text_at_app s cs1 : ∀ p cs2,
  text_at s p (cs1 ++ cs2) ↔
  text_at s p cs1 ∧ text_at s (p + Z.of_nat (length cs1)) cs2.
Proof.
  induction cs1 as [|c cs1 IH]; intros p cs2.
  - simpl. rewrite Z.add_0_r. split; [|by intros [_ ?]].
    intros H. split; [|done]. by intros k y Hk.
  - simpl app. rewrite !text_at_cons, IH. simpl length.
    replace (p + 1 + Z.of_nat (length cs1))
      with (p + Z.of_nat (S (length cs1))) by lia.
    tauto.
Qed.

Lemma text_at_length s p cs :
  0 ≤ p → cs ≠ [] → text_at s p cs →
  p + Z.of_nat (length cs) ≤ Z.of_nat (length s) + 1.
Proof.
  intros Hp Hne H.
  destruct (lookup_lt_is_Some_2 cs (length cs - 1)) as [c Hc].
  { destruct cs; [done|]. simpl. lia. }
  apply H, char_at_range in Hc. destruct cs; [done|]. simpl in *. lia.
Qed.

Lemma digit_char_class d :
  is_digit d →
  isdigit (digit_char d) = true ∧ isalpha (digit_char d) = false ∧
  digit_char d - ch "0" = d.
Proof.
  unfold is_digit, digit_char, isdigit, isalpha. change (ch "0") with 48.
  intros H. split_and!; lia.
Qed.

Lemma digit_loop_spec s rest : ∀ fuel q i p t,
  text_at s p (map digit_char rest ++ [t]) → Forall is_digit rest →
  isdigit t = false → (length rest < fuel)%nat →
  digit_loop fuel s q i p =
  '(q', i') ← emit_list q i rest; Ok (q', i', p + Z.of_nat (length rest)).
Proof.
  induction rest as [|d rest IH]; intros fuel q i p t Ht Hd Hnd Hfuel;
    (destruct fuel as [|fuel]; [simpl in Hfuel; lia|]).
  - apply text_at_cons in Ht as [Ht _]. simpl. rewrite Ht.
    cbn [mbind result_bind]. rewrite Hnd. by rewrite Z.add_0_r.
  - simpl map in Ht. simpl app in Ht. apply text_at_cons in Ht as [Hc Ht].
    apply Forall_cons in Hd as [Hd0 Hd].
    destruct (digit_char_class d Hd0) as (E1 & _ & E3).
    simpl digit_loop. rewrite Hc. cbn [mbind result_bind]. rewrite E1, E3.
    simpl emit_list.
    destruct (emit q i d) as [[q1 i1]| | |]; cbn [mbind result_bind];
      [|done..].
    rewrite (IH fuel q1 i1 (p + 1) t) by (done || simpl in Hfuel; lia).
    destruct (emit_list q1 i1 rest) as [[q2 i2]| | |];
      cbn [mbind result_bind]; [|done..].
    simpl length. do 2 f_equal. lia.
Qed.

(** On a run of digits the assembler writes the same nibbles as [emitBCD]
    does for a digit string. *)
Lemma asm_step_digits s e a b rest t :
  0 ≤ a_p a →
  text_at s (a_p a) (map digit_char (b :: rest) ++ [t]) →
  Forall is_digit (b :: rest) → isdigit t = false →
  asm_step s e a =
  '(q, i) ← emit_list (a_q a) (a_ip a) (bcd_code (b :: rest));
  Ok (Asm q i (a_nm a) (a_p a + Z.of_nat (length (b :: rest))) (a_run a)).
Proof.
  intros Hp Ht Hd Hnd.
  pose proof (text_at_length s (a_p a) (map digit_char (b :: rest) ++ [t])
                Hp) as Hlen.
  specialize (Hlen ltac:(done) Ht).
  rewrite length_app, length_map in Hlen. simpl length in Hlen.
  simpl map in Ht. simpl app in Ht. apply text_at_cons in Ht as [Hc Ht].
  apply Forall_cons in Hd as [Hb Hd].
  destruct (digit_char_class b Hb) as (E1 & E2 & E3).
  unfold asm_step. rewrite Hc. cbn [mbind result_bind].
  rewrite E2.
  replace (digit_char b =? ch "_") with false
    by (unfold digit_char, is_digit in *; change (ch "0") with 48;
        change (ch "_") with 95; lia).
  replace (digit_char b =? ch "'") with false
    by (unfold digit_char, is_digit in *; change (ch "0") with 48;
        change (ch "'") with 39; lia).
  replace ((digit_char b =? ch " ") || (digit_char b =? 10)) with false
    by (unfold digit_char, is_digit in *; change (ch "0") with 48;
        change (ch " ") with 32; lia).
  cbn [orb]. cbv iota. rewrite E1, E3. cbn [a_q a_ip a_p a_nm a_run].
  unfold bcd_code. simpl emit_list.
  destruct (emit (a_q a) (a_ip a) C_BCD) as [[q1 i1]| | |];
    cbn [mbind result_bind]; [|done..].
  assert (Hrest : ∀ q i,
    ('(q0, i0, p) ← digit_loop (text_fuel s) s q i (a_p a + 1);
     '(q2, i2) ← emit q0 i0 (if b =? 1 then 11 else 10);
     Ok (Asm q2 i2 (a_nm a) p (a_run a))) =
    ('(q2, i2) ← emit_list q i (rest ++ [if b =? 1 then 11 else 10]);
     Ok (Asm q2 i2 (a_nm a) (a_p a + Z.of_nat (S (length rest)))
             (a_run a)))).
  { intros q i.
    rewrite (digit_loop_spec s rest (text_fuel s) q i (a_p a + 1) t)
      by (done || unfold text_fuel; lia).
    rewrite emit_list_app.
    destruct (emit_list q i rest) as [[q2 i2]| | |]; cbn [mbind result_bind];
      [|done..].
    simpl emit_list.
    destruct (emit q2 i2 _) as [[q3 i3]| | |]; cbn [mbind result_bind];
      [|done..].
    do 2 f_equal. lia. }
  destruct (1 <? b).
  - simpl app. simpl emit_list.
    destruct (emit q1 i1 b) as [[q2 i2]| | |]; cbn [mbind result_bind];
      [|done..].
    apply Hrest.
  - simpl app. apply Hrest.
Qed.

Lemma bcd_code_digits ds :
  Forall is_digit ds → Forall is_nibble (bcd_code ds).
Proof.
  intros Hd. destruct ds as [|b rest]; [constructor|].
  apply Forall_cons in Hd as [Hb Hd]. unfold bcd_code.
  constructor; [by vm_compute|].
  apply Forall_app. split.
  - destruct (1 <? b); [|constructor].
    constructor; [|constructor]. unfold is_digit, is_nibble in *. lia.
  - apply Forall_app. split.
    + eapply Forall_impl; [exact Hd|]. unfold is_digit, is_nibble. lia.
    + constructor; [|constructor]. unfold is_nibble.
      destruct (b =? 1); lia.
Qed.

(** The literal of a digit string decodes to its decimal value, leading
    zeros or not. *)
Lemma bcd_code_value code p ds :
  ds ≠ [] → Forall is_digit ds → decimal ds < 2^31 →
  holds code p (bcd_code ds) →
  bcd_loop (code_fuel code) code (p + 1) 0 1 =
  Ok (decimal ds, p + Z.of_nat (length (bcd_code ds))).
Proof.
  intros Hne Hd Hfit Hh. destruct ds as [|b rest]; [done|].
  apply Forall_cons in Hd as [Hb Hd].
  pose proof (decimal_bounds rest Hd) as Hr.
  rewrite decimal_cons in *.
  assert (0 < 10 ^ Z.of_nat (length rest)) as Hpow
    by (apply Z.pow_pos_nonneg; lia).
  unfold bcd_code in *. apply holds_cons in Hh as [_ Hh].
  rewrite app_assoc in Hh. unfold is_digit in Hb.
  set (es := (if 1 <? b then [b] else []) ++ rest) in *.
  set (t := if b =? 1 then 11 else 10) in *.
  assert (Forall is_digit es) as Hes.
  { apply Forall_app. split; [|done].
    destruct (1 <? b); constructor; [done|constructor]. }
  assert (t = BCD_N ∨ t = BCD_P) as Ht.
  { unfold t. destruct (b =? 1); [by right|by left]. }
  assert (decimal es + (if t =? BCD_P then 10 ^ Z.of_nat (length es) else 0)
          = b * 10 ^ Z.of_nat (length rest) + decimal rest ∧
          length ((C_BCD :: es) ++ [t]) = S (length es + 1)) as [Hv Hl].
  { split; [|by rewrite length_app]. unfold es, t.
    destruct (Z.ltb_spec 1 b) as [H1|H1].
    - rewrite (proj2 (Z.eqb_neq b 1)) by lia.
      change (10 =? BCD_P) with false. cbv iota. simpl app.
      rewrite decimal_cons. lia.
    - simpl app. destruct (Z.eqb_spec b 1) as [->|H0].
      + change (11 =? BCD_P) with true. cbv iota. lia.
      + change (10 =? BCD_P) with false. cbv iota.
        replace b with 0 by lia. lia. }
  rewrite (bcd_loop_value code (p + 1) es t Hes Hh Ht) by (rewrite Hv; lia).
  rewrite Hv. f_equal. f_equal.
  rewrite (app_assoc _ rest [t]). fold es.
  change (C_BCD :: es ++ [t]) with ((C_BCD :: es) ++ [t]).
  rewrite Hl. lia.
Qed.

(** X18. A number in the program text.  At a run of digits (leading zeros
    allowed) the assembler consumes the whole run and writes one literal:
    the BCD opcode, the first digit unless it is 0 or 1, the other digits,
    and the prefixed terminator when the first digit is 1, the plain one
    otherwise.  Nothing written before is changed, and on every code block
    that holds these nibbles the decoder yields the decimal value of the
    run, when it fits in 31 bits. *)
Theorem digit_run_literal s e a ds t :
  ds ≠ [] → Forall is_digit ds →
  text_at s (a_p a) (map digit_char ds ++ [t]) → isdigit t = false →
  buf_ok (a_q a) (a_ip a) →
  room (a_q a) (a_ip a) (Z.of_nat (length ds) + 2) →
  let i' := a_ip a + Z.of_nat (length (bcd_code ds)) in
  ∃ q', asm_step s e a =
          Ok (Asm q' i' (a_nm a) (a_p a + Z.of_nat (length ds)) (a_run a)) ∧
        emitted q' (a_ip a) i' = Some (bcd_code ds) ∧
        (∀ j, 0 ≤ j < a_ip a → bnib q' j = bnib (a_q a) j) ∧
        ∀ code, holds code (a_ip a) (bcd_code ds) → decimal ds < 2^31 →
          bcd_loop (code_fuel code) code (a_ip a + 1) 0 1 =
          Ok (decimal ds, i').
Proof.
  intros Hne Hd Ht Hnd Hok Hroom i'.
  assert (0 ≤ a_p a) as Hp.
  { specialize (Ht O (digit_char (hd 0 ds))). rewrite Z.add_0_r in Ht.
    destruct ds; [done|]. by apply (char_at_range s _ _ (Ht eq_refl)). }
  pose proof (bcd_code_length ds) as Hcl.
  destruct (emit_list_spec (bcd_code ds) (a_q a) (a_ip a) Hok)
    as (q' & E & _ & _ & Hat & Hfr).
  { unfold room in *. lia. }
  { by apply bcd_code_digits. }
  exists q'. split_and!.
  - destruct ds as [|b rest]; [done|].
    rewrite (asm_step_digits s e a b rest t Hp Ht Hd Hnd), E. done.
  - by apply emitted_written.
  - done.
  - intros code Hh Hfit. by apply bcd_code_value.
Qed.

Lemma digit_run_literal_witness :
  ∃ q', asm_step (codes "007") 3 (Asm (replicate 4 None) 0 [] 0 false) =
          Ok (Asm q' 4 [] 3 false) ∧
        emitted q' 0 4 = Some [C_BCD; 0; 7; BCD_N] ∧
        (∀ j, 0 ≤ j < 0 → bnib q' j = bnib (replicate 4 None) j) ∧
        ∀ code, holds code 0 [C_BCD; 0; 7; BCD_N] → decimal [0; 0; 7] < 2^31 →
          bcd_loop (code_fuel code) code 1 0 1 = Ok (7, 4).
Proof.
  apply (digit_run_literal (codes "007") 3 (Asm (replicate 4 None) 0 [] 0 false)
           [0; 0; 7] 0).
  - discriminate.
  - repeat constructor; unfold is_digit; lia.
  - intros [|[|[|[|k]]]] c Hk; simpl in Hk; try done; injection Hk as <-;
      reflexivity.
  - reflexivity.
  - split; [simpl; lia|]. intros H. exfalso. apply H. reflexivity.
  - unfold room. simpl. lia.
Defined.

(** ** What a run leaves in place *)

Lemma keeps_refl m : keeps m m.
Proof. by unfold keeps. Qed.

Lemma keeps_trans m1 m2 m3 : keeps m1 m2 → keeps m2 m3 → keeps m1 m3.
Proof.
  unfold keeps.
  intros (A1 & A2 & A3 & A4 & A5 & A6 & A7 & A8 & A9)
         (B1 & B2 & B3 & B4 & B5 & B6 & B7 & B8 & B9).
  split_and!; try congruence.
  - intros i t Hi Ht. apply B8; [by apply A8|done].
  - by etrans.
Qed.

Ltac keeps_same := unfold keeps; simpl; by split_and!.

Lemma pop_keeps m v m' : pop m = Ok (v, m') → keeps m m'.
Proof. intros [-> _]%pop_inv. keeps_same. Qed.

Lemma push_keeps v m m' : push v m = Ok m' → keeps m m'.
Proof.
  unfold push. intros H. bind_inv H. injection H as <-.
  apply or_undef_Ok, zset_length in E. unfold keeps. simpl.
  by split_and!.
Qed.

Lemma bcd_keeps m m' : bcd m = Ok m' → keeps m m'.
Proof. unfold bcd. intros H. bind_inv H. by apply push_keeps in H. Qed.

Lemma rw_keeps i m m' : rw i m = Ok m' → keeps m m'.
Proof.
  unfold rw. intros H. destruct (0 <=? i).
  - bind_inv H. by apply push_keeps in H.
  - bind_inv H. bind_inv H. injection H as <-.
    apply pop_keeps in E. apply or_undef_Ok, zset_length in E0.
    eapply keeps_trans; [exact E|]. unfold keeps. simpl. by split_and!.
Qed.

Lemma say_print_keeps n : ∀ s m m', say_print n s m = Ok m' → keeps m m'.
Proof.
  induction n as [|n IH]; intros s m m' H; simpl in H.
  - injection H as <-. keeps_same.
  - bind_inv H. apply IH in H. eapply keeps_trans; [|exact H].
    unfold keeps. simpl. split_and!; try done. by apply prefix_app_r.
Qed.

Lemma swi_keeps id m m' : swi id m = Ok m' → keeps m m'.
Proof.
  unfold swi. intros H. destruct (id =? SI_TOP).
  - bind_inv H. injection H as <-. unfold keeps. simpl.
    split_and!; try done. by apply prefix_app_r.
  - destruct (id =? SI_SAY); [|by destruct (id =? SI_HLT)].
    bind_inv H. bind_inv H. injection H as <-.
    apply say_print_keeps in E0. eapply keeps_trans; [exact E0|].
    unfold keeps. simpl. split_and!; try done. by apply prefix_app_r.
Qed.

Lemma dfn_keeps id m m' : dfn id m = Ok m' → keeps m m'.
Proof.
  unfold dfn. intros H. do 2 bind_inv H.
  bind_inv H. unfold dfn_close in E1. bind_inv E1. injection E1 as <- <-.
  do 2 bind_inv H. injection H as <-.
  apply or_undef_Ok, zset_length in E0, E3. simpl in *.
  unfold keeps. simpl. split_and!; try done. congruence.
Qed.

Lemma run_keeps id m m' : run id m = Ok m' → keeps m m'.
Proof.
  unfold run. intros H. bind_inv H.
  destruct (fn_end a =? 0); [by apply swi_keeps in H|].
  bind_inv H. injection H as <-. apply or_undef_Ok, zset_length in E0.
  unfold keeps. simpl. by split_and!.
Qed.

Lemma jmp_keeps o c i e m m' : jmp o c i e m = Ok m' → keeps m m'.
Proof.
  unfold jmp. intros H. bind_inv H. apply or_undef_Ok in E.
  destruct (Z.eqb_spec a BADIP) as [->|Hne]; cbn [negb] in H.
  - do 2 bind_inv H. injection H as <-. apply or_undef_Ok in E1.
    pose proof (zset_length _ _ _ _ E1).
    unfold keeps. simpl. split_and!; try done.
    intros j t Hj Ht. rewrite (zget_zset _ _ _ j _ E1).
    case_bool_decide as Hij; [|done]. subst j. congruence.
  - injection H as <-. keeps_same.
Qed.

Lemma LJ_keeps o c m m' : LJ jmp o c m = Ok m' → keeps m m'.
Proof.
  unfold LJ. intros H. destruct (negb (ra m =? 0)).
  - by apply jmp_keeps in H.
  - injection H as <-. keeps_same.
Qed.

Lemma exe_op_keeps m k m' : exe_op jmp m = Ok (k, m') → keeps m m'.
Proof.
  intros H. unfold exe_op in H. bind_inv H.
  apply rd_inv in E as [_ ->].
  assert (keeps m (set_ip (ip m + 1) m)) as H0 by keeps_same.
  revert H0 H. generalize (set_ip (ip m + 1) m). intros m1 H0 H.
  set (c := Z.land z 15) in *. clearbody c.
  eapply keeps_trans; [exact H0|]. clear H0.
  repeat match type of H with
  | (if ?b then _ else _) = _ => destruct b
  end.
  - apply continue_inv in H as [H _]. by apply bcd_keeps.
  - do 2 bind_inv H. apply continue_inv in H as [H _].
    apply pop_keeps in E, E0. apply push_keeps in H.
    eauto using keeps_trans.
  - do 2 bind_inv H. apply continue_inv in H as [H _].
    apply pop_keeps in E, E0. apply push_keeps in H.
    eauto using keeps_trans.
  - do 2 bind_inv H. apply continue_inv in H as [H _].
    apply pop_keeps in E, E0. apply push_keeps in H.
    eauto using keeps_trans.
  - bind_inv H. apply continue_inv in H as [H _].
    apply pop_keeps in E. apply rw_keeps in H. eauto using keeps_trans.
  - bind_inv H. apply continue_inv in H as [[= <-] _].
    by apply pop_keeps in E.
  - apply continue_inv in H as [H _]. by apply push_keeps in H.
  - bind_inv H. apply continue_inv in H as [[= <-] _].
    by apply pop_keeps in E.
  - do 3 bind_inv H. apply continue_inv in H as [H _].
    apply pop_keeps in E, E0. apply push_keeps in E1, H.
    eauto using keeps_trans.
  - bind_inv H. apply continue_inv in H as [H _].
    apply pop_keeps in E. apply dfn_keeps in H. eauto using keeps_trans.
  - bind_inv H. apply continue_inv in H as [H _].
    apply pop_keeps in E. apply run_keeps in H. eauto using keeps_trans.
  - injection H as _ <-. keeps_same.
  - bind_inv H. apply pop_keeps in E.
    destruct (z0 =? 0); apply continue_inv in H as [H _].
    + apply jmp_keeps in H. eauto using keeps_trans.
    + by injection H as <-.
  - apply continue_inv in H as [H _]. by apply LJ_keeps in H.
  - bind_inv H. apply pop_keeps in E.
    destruct (z0 <=? 0); apply continue_inv in H as [H _].
    + apply jmp_keeps in H. eauto using keeps_trans.
    + by injection H as <-.
  - apply continue_inv in H as [H _]. by apply LJ_keeps in H.
Qed.

Lemma exe_keeps fuel : ∀ m m',
  exe jmp fuel m = Ok m' → keeps m m' ∧ (stack_ok m → stack_ok m').
Proof.
  induction fuel as [|fuel IH]; intros m m' H; [done|].
  rewrite exe_S in H. destruct (ip m <? end_ m).
  - bind_inv H. pose proof (exe_op_keeps _ _ _ E) as Hk.
    pose proof (λ Hok, exe_op_ok _ _ _ Hok E) as Hs.
    destruct c.
    + apply IH in H as [H1 H2]. split; [by eapply keeps_trans|auto].
    + injection H as <-. done.
  - injection H as <-. split; [keeps_same|done].
Qed.

Lemma frloop_keeps fuel : ∀ m m',
  frloop jmp fuel m = Ok m' →
  keeps m m' ∧ fp m' = 0 ∧ (stack_ok m → stack_ok m').
Proof.
  induction fuel as [|fuel IH]; intros m m' H; [done|].
  rewrite frloop_S in H. bind_inv H.
  apply exe_keeps in E as [Hk Hs]. cbn [fp set_fp] in H.
  destruct (Z.eqb_spec (fp a - 1) 0) as [Hz|Hnz].
  - injection H as <-. by split_and!.
  - bind_inv H. apply IH in H as (H1 & H2 & H3).
    split_and!; [|done|auto]. eapply keeps_trans; [exact Hk|exact H1].
Qed.

(** X19. Whatever code runs, a run that returns has left the code block,
    the names and the sizes of the stack, frame, function and jump tables as
    they were, has overwritten no resolved jump-table slot, has only added
    to the output, and has brought the frame pointer to 0; the stack
    pointer, if it was within the stack, still is. *)
Theorem frloop_preserves fuel m m' :
  frloop jmp fuel m = Ok m' →
  keeps m m' ∧ fp m' = 0 ∧ (stack_ok m → stack_ok m').
Proof. apply frloop_keeps. Qed.

Lemma frloop_preserves_witness :
  ∃ m', frloop jmp 3 at_loop_open = Ok m' ∧
        keeps at_loop_open m' ∧ fp m' = 0 ∧
        (stack_ok at_loop_open → stack_ok m').
Proof.
  eexists. split; [vm_compute; reflexivity|].
  apply (frloop_preserves 3 at_loop_open). vm_compute. reflexivity.
Defined.

(** ** A command from text to result *)

Lemma emit1_nm c a a' : emit1 c a = Ok a' → a_nm a' = a_nm a.
Proof. unfold emit1. intros H. bind_inv H. by injection H as <-. Qed.

Lemma asm_step_nm s e a a' :
  asm_step s e a = Ok a' → a_nm a `prefix_of` a_nm a'.
Proof.
  unfold asm_step. intros H. bind_inv H.
  cbn [a_p a_q a_ip a_nm a_run] in H.
  repeat match type of H with
  | (if ?b then _ else _) = _ => destruct b
  end;
  try (apply emit1_nm in H; cbn [a_nm] in H; by rewrite H).
  - do 3 bind_inv H. apply sym_prefix in E1.
    cbn [a_run a_q a_ip a_nm a_p] in H. destruct (a_run a).
    + bind_inv H. by injection H as <-.
    + by injection H as <-.
  - do 2 bind_inv H. destruct p as [q' i']. destruct (_ =? e); [done|].
    by injection H as <-.
  - by injection H as <-.
  - do 3 bind_inv H. destruct p as [q' i']. bind_inv H.
    by injection H as <-.
  - bind_inv H.
    match type of H with
    | (if ?b then _ else _) = _ => destruct b
    end.
    + by injection H as <-.
    + apply emit1_nm in H. cbn [a_nm] in H. by rewrite H.
  - do 2 bind_inv H. apply emit1_nm in E0, E1, H. cbn [a_nm] in *.
    by rewrite H, E1, E0.
  - done.
Qed.

Lemma b4asmS_nm s e fuel : ∀ a a',
  b4asmS fuel s e a = Ok a' → a_nm a `prefix_of` a_nm a'.
Proof.
  induction fuel as [|fuel IH]; intros a a' H; [done|]. simpl in H.
  destruct (a_p a <? e).
  - bind_inv H. apply asm_step_nm in E. apply IH in H. by etrans.
  - by injection H as <-.
Qed.

Lemma b4asm_nm s nm0 r csz nm' :
  b4asm s nm0 = Ok (r, csz, nm') → nm0 `prefix_of` nm'.
Proof.
  unfold b4asm. intros H. do 2 bind_inv H. injection H as _ _ <-.
  by apply b4asmS_nm in E.
Qed.

Lemma init_nm m m' :
  init m = Ok m' →
  nm m `prefix_of` nm m' ∧ ready m' = true ∧
  st m' = st m ∧ sp m' = sp m ∧ fp m' = fp m ∧ fr m' = fr m ∧
  fn m' = fn m ∧ out m' = out m.
Proof.
  unfold init. intros H. do 4 bind_inv H. injection H as <-.
  apply sym_prefix in E, E0, E1, E2. simpl. split_and!; try done.
  by repeat (etrans; [eassumption|]).
Qed.

(** X20. A command that completes leaves the machine ready for the next
    one: the frame pointer is 0, the code block and the jump table are
    released, the names known before are still there with their ids, the
    arrays have kept their sizes, the output has grown by the code-size line
    followed by what the program printed, and a stack pointer that was
    within the stack still is. *)
Theorem b4cmd_session fuel cmd m m' :
  b4cmd fuel cmd m = Ok m' →
  fp m' = 0 ∧ ready m' = true ∧ code m' = [] ∧ jtbl m' = [] ∧
  nm m `prefix_of` nm m' ∧
  length (st m') = length (st m) ∧ length (fr m') = length (fr m) ∧
  length (fn m') = length (fn m) ∧
  (∃ sz rest, out m' = out m ++ PrintCodeSize sz :: rest) ∧
  (stack_ok m → stack_ok m').
Proof.
  unfold b4cmd, b4cmd_with. intros H. bind_inv H.
  assert (nm m `prefix_of` nm a ∧ ready a = true ∧ st a = st m ∧
          sp a = sp m ∧ fr a = fr m ∧ fn a = fn m ∧ out a = out m)
    as (Hnm & Hready & Hst & Hsp & Hfr & Hfn & Hout).
  { destruct (ready m) eqn:Hr.
    - injection E as <-. by split_and!.
    - apply init_nm in E as (? & ? & ? & ? & _ & ? & ? & ?).
      by split_and!. }
  clear E. bind_inv H. destruct p as [r csz]. apply b4asm_nm in E.
  bind_inv H. apply sym_prefix in E0. cbn [nm set_nm set_jtbl emit_out
    set_code] in E0.
  bind_inv H. apply or_undef_Ok, zset_length in E1.
  cbn [fn set_nm set_jtbl emit_out set_code] in E1.
  do 2 bind_inv H. injection H as <-.
  pose proof (run_keeps _ _ _ E2) as K1.
  pose proof (λ Hok, run_ok _ _ _ Hok E2) as S1.
  apply frloop_keeps in E3 as (K2 & Hfp & S2).
  pose proof (keeps_trans _ _ _ K1 K2)
    as (_ & Knm & Kready & Kst & Kfr & Kfn & _ & _ & Kout).
  simpl in Knm, Kready, Kst, Kfr, Kfn, Kout.
  cbn [fp ready code jtbl nm st fr fn out set_jtbl set_code].
  split_and!; try done.
  - congruence.
  - rewrite Knm. by repeat (etrans; [eassumption|]).
  - congruence.
  - congruence.
  - congruence.
  - destruct Kout as [rest Hrest]. rewrite Hout, <- app_assoc in Hrest.
    by eexists _, _.
  - intros Hok. apply S2, S1. unfold stack_ok in *. simpl.
    by rewrite Hst, Hsp.
Qed.

Lemma b4cmd_session_witness :
  ∃ m', b4cmd 5 (codes "7") boot = Ok m' ∧ fp m' = 0 ∧ ready m' = true.
Proof.
  eexists. split; [vm_compute; reflexivity|].
  destruct (b4cmd_session 5 (codes "7") boot _ ltac:(vm_compute; reflexivity))
    as (Hfp & Hready & _).
  split; [exact Hfp|exact Hready].
Defined.

(** ** The duplicate shorthand *)

Lemma exe_op_literal m es t :
  Forall is_digit es → holds (code m) (ip m) (C_BCD :: es ++ [t]) →
  t = BCD_N ∨ t = BCD_P →
  decimal es + (if t =? BCD_P then 10 ^ Z.of_nat (length es) else 0) < 2^31 →
  exe_op jmp m =
  continue
    (push (decimal es +
           (if t =? BCD_P then 10 ^ Z.of_nat (length es) else 0))
          (set_ip (ip m + 1 + Z.of_nat (length es) + 1) m)).
Proof.
  intros Hes Hh Ht Hfit. apply holds_cons in Hh as [Hop Hh].
  unfold exe_op, rd, pk. rewrite Hop. cbn [mbind result_bind].
  change (Z.land C_BCD 15 =? C_BCD) with true. cbv iota.
  unfold bcd. cbn [code ip set_ip].
  by rewrite (bcd_loop_value (code m) (ip m + 1) es t).
Qed.

Lemma emit1_three c1 c2 c3 a :
  (a ← emit1 c1 a; a ← emit1 c2 a; emit1 c3 a) =
  '(q, i) ← emit_list (a_q a) (a_ip a) [c1; c2; c3];
  Ok (Asm q i (a_nm a) (a_p a) (a_run a)).
Proof.
  unfold emit1. simpl emit_list.
  destruct (emit (a_q a) (a_ip a) c1) as [[q1 i1]| | |];
    cbn [mbind result_bind a_q a_ip a_nm a_p a_run]; [|done..].
  destruct (emit q1 i1 c2) as [[q2 i2]| | |];
    cbn [mbind result_bind a_q a_ip a_nm a_p a_run]; [|done..].
  by destruct (emit q2 i2 c3) as [[q3 i3]| | |].
Qed.

(** X21. The shorthand [%]: the assembler writes the literal 0 followed by
    INDEX, and running these three nibbles on a stack with a free slot
    leaves the top value twice, with the register as it was. *)
Theorem dup_shorthand :
  (∀ s e a,
     char_at s (a_p a) = Ok (ch "%") →
     buf_ok (a_q a) (a_ip a) → room (a_q a) (a_ip a) 3 →
     ∃ q', asm_step s e a =
             Ok (Asm q' (a_ip a + 3) (a_nm a) (a_p a + 1) (a_run a)) ∧
           emitted q' (a_ip a) (a_ip a + 3) = Some [C_BCD; BCD_N; C_RWS]) ∧
  (∀ m l v,
     holds (code m) (ip m) [C_BCD; BCD_N; C_RWS] →
     stack_ok m → stack m = l ++ [v] → sp m < Z.of_nat (length (st m)) →
     ∃ m1 m2, exe_op jmp m = Ok (Continue, m1) ∧
              exe_op jmp m1 = Ok (Continue, m2) ∧
              stack m2 = l ++ [v; v] ∧ ip m2 = ip m + 3 ∧ ra m2 = ra m).
Proof.
  split.
  - intros s e a Hc Hok Hroom.
    destruct (emit_list_spec [C_BCD; BCD_N; C_RWS] (a_q a) (a_ip a) Hok)
      as (q' & E & _ & _ & Hat & _); [done| |].
    { repeat constructor; by vm_compute. }
    exists q'. split; [|by apply (emitted_written q' (a_ip a) [_; _; _])].
    unfold asm_step. rewrite Hc. cbn [mbind result_bind].
    transitivity
      (a1 ← emit1 C_BCD (Asm (a_q a) (a_ip a) (a_nm a) (a_p a + 1) (a_run a));
       a2 ← emit1 10 a1; emit1 C_RWS a2); [reflexivity|].
    rewrite emit1_three. cbn [a_q a_ip a_nm a_p a_run].
    change 10 with BCD_N. by rewrite E.
  - intros m l v Hh Hok Hst Hroom.
    assert (holds (code m) (ip m) [C_BCD; BCD_N]) as Hlit.
    { by apply (holds_app _ [C_BCD; BCD_N] _ [C_RWS]) in Hh as [? _]. }
    pose proof (exe_op_literal m [] BCD_N ltac:(constructor) Hlit
                  ltac:(by left) ltac:(by vm_compute)) as E1.
    change (decimal [] + _) with 0 in E1. simpl length in E1.
    replace (ip m + 1 + Z.of_nat 0 + 1) with (ip m + 2) in E1 by lia.
    set (m0 := set_ip (ip m + 2) m) in *.
    destruct (push_stack 0 m0) as [E2 Hst2].
    { unfold m0, stack_ok in *. simpl. lia. }
    set (m1 := set_sp _ (set_st _ m0)) in *.
    unfold continue in E1. rewrite E2 in E1. cbn [mbind result_bind] in E1.
    exists m1.
    apply holds_cons in Hh as [_ Hh]. apply holds_cons in Hh as [_ Hh].
    apply holds_cons in Hh as [Hrws _].
    destruct (index_step m1 C_RWS (set_ip (ip m1 + 1) m1) (l ++ [v]) 0)
      as [Hread _].
    + unfold rd, pk. change (code m1) with (code m).
      change (ip m1) with (ip m + 2).
      replace (ip m + 1 + 1) with (ip m + 2) in Hrws by lia.
      by rewrite Hrws.
    + reflexivity.
    + unfold m1, m0, stack_ok in *. simpl. rewrite length_insert. lia.
    + rewrite Hst2. change (stack m0) with (stack m). by rewrite Hst.
    + destruct (Hread ltac:(lia) v) as (m2 & E3 & Hst3 & Hra & Hip).
      { by rewrite reverse_app. }
      exists m2. split_and!; try done.
      * by rewrite Hst3, <- app_assoc.
      * rewrite Hip. change (ip m1) with (ip m + 2). lia.
Qed.

Lemma dup_shorthand_witness :
  ∃ m1 m2, exe_op jmp at_dup = Ok (Continue, m1) ∧
           exe_op jmp m1 = Ok (Continue, m2) ∧
           stack m2 = [5; 6; 6] ∧ ip m2 = 3 ∧ ra m2 = 0.
Proof.
  destruct dup_shorthand as [_ Hrun].
  apply (Hrun at_dup [5] 6).
  - intros [|[|[|k]]] c Hk; simpl in Hk; try done; injection Hk as <-;
      reflexivity.
  - split; simpl; lia.
  - reflexivity.
  - simpl. lia.
Defined.

(** ** Operator characters *)

Lemma op_code_inv c n :
  op_code c = Some n →
  c ≠ 0 ∧ is_nibble n ∧
  ∀ s e a, char_at s (a_p a) = Ok c →
    asm_step s e a =
    emit1 n (Asm (a_q a) (a_ip a) (a_nm a) (a_p a + 1) (a_run a)).
Proof.
  unfold op_code. intros H.
  repeat match type of H with
  | (if ?x =? ?y then _ else _) = _ =>
    destruct (Z.eqb_spec x y) as [->|_];
      [injection H as <-; split; [done|split; [by vm_compute|]];
       intros s e a Hc; unfold asm_step; rewrite Hc; reflexivity|]
  end.
  done.
Qed.

Lemma asm_ops_run s2 : ∀ s1 s3 cs e fuel a,
  Forall2 (λ c n, op_code c = Some n) s2 cs →
  a_p a = Z.of_nat (length s1) → Z.of_nat (length s1 + length s2) ≤ e →
  b4asmS (length s2 + fuel) (s1 ++ s2 ++ s3) e a =
  '(q, i) ← emit_list (a_q a) (a_ip a) cs;
  b4asmS fuel (s1 ++ s2 ++ s3) e
         (Asm q i (a_nm a) (Z.of_nat (length s1 + length s2)) (a_run a)).
Proof.
  induction s2 as [|c s2 IH]; intros s1 s3 cs e fuel a Hcs Hp He.
  - apply Forall2_nil_inv_l in Hcs as ->. simpl.
    rewrite Nat.add_0_r, <- Hp. by destruct a.
  - apply Forall2_cons_inv_l in Hcs as (n & cs' & Hn & Hcs & ->).
    destruct (op_code_inv c n Hn) as (_ & _ & Hstep).
    simpl length in *. simpl b4asmS.
    rewrite (proj2 (Z.ltb_lt _ _)) by lia.
    rewrite (Hstep (s1 ++ (c :: s2) ++ s3)).
    2:{ rewrite Hp. apply char_at_lookup.
        by rewrite lookup_app_r, Nat.sub_diag by lia. }
    unfold emit1. cbn [a_q a_ip a_nm a_p a_run]. simpl emit_list.
    destruct (emit (a_q a) (a_ip a) n) as [[q1 i1]| | |];
      cbn [mbind result_bind]; [|done..].
    change ((c :: s2) ++ s3) with (c :: s2 ++ s3).
    rewrite (cons_middle c s1 (s2 ++ s3)), app_assoc.
    rewrite (IH (s1 ++ [c]) s3 cs' e fuel); cbn [a_q a_ip a_nm a_p a_run].
    + rewrite length_app. simpl length.
      by replace (length s1 + 1 + length s2)%nat
        with (length s1 + S (length s2))%nat by lia.
    + done.
    + rewrite length_app. simpl. lia.
    + rewrite length_app. simpl. lia.
Qed.

Lemma asm_step_unknown s e a c :
  char_at s (a_p a) = Ok c → unknown_char c = true →
  asm_step s e a = Exit (BadOpcode c).
Proof.
  intros Hc Hunk. unfold asm_step. rewrite Hc. cbn [mbind result_bind].
  clear Hc. unfold unknown_char in Hunk.
  repeat (apply andb_prop in Hunk as [Hunk ?]).
  repeat match goal with
  | |- (if ?b then _ else _) = _ =>
    let E := fresh "E" in
    destruct b eqn:E;
    [exfalso;
     first [ apply Z.eqb_eq in E; subst c; vm_compute in *; discriminate
           | match goal with
             | H : negb true = true |- _ => simpl in H; discriminate H
             end ]
    |]
  end.
  reflexivity.
Qed.

Lemma copy_bytes_defined q n : ∀ lo,
  (∀ i, lo ≤ i < lo + Z.of_nat n → ∃ b, zget q i = Some (Some b)) →
  ∃ r, copy_bytes q lo n = Ok r.
Proof.
  induction n as [|n IH]; intros lo H; simpl; [by eexists|].
  destruct (H lo ltac:(lia)) as [b ->]. cbn [or_undef mbind result_bind].
  destruct (IH (lo + 1)) as [r ->]; [intros i Hi; apply H; lia|].
  by eexists.
Qed.

Lemma bnib_byte q j c : bnib q j = Some c → ∃ b, zget q (Z.quot j 2) = Some (Some b).
Proof.
  unfold bnib. destruct (zget q (Z.quot j 2)) as [[b|]|]; [|done..].
  by exists b.
Qed.

Lemma strlen_nonneg s : 0 ≤ strlen s.
Proof.
  induction s as [|c s IH]; simpl; [done|]. destruct (c =? 0); lia.
Qed.

Lemma ops_nonzero s cs :
  Forall2 (λ c n, op_code c = Some n) s cs →
  Forall (λ c, c ≠ 0) s ∧ Forall is_nibble cs ∧ length cs = length s.
Proof.
  induction 1 as [|c n s cs Hn _ (IH1 & IH2 & IH3)]; [done|].
  destruct (op_code_inv c n Hn) as (H0 & Hnib & _).
  split_and!; [by constructor|by constructor|simpl; lia].
Qed.

Lemma strlen_app s1 s2 :
  Forall (λ c, c ≠ 0) s1 → strlen (s1 ++ s2) = Z.of_nat (length s1) + strlen s2.
Proof.
  induction 1 as [|c s Hc Hs IH]; [simpl; lia|]. simpl strlen.
  rewrite (proj2 (Z.eqb_neq _ _) Hc), IH. simpl length. lia.
Qed.

(** X22. A text of operator characters ([+ - * [ ] < > : @ $ ! , = ?])
    assembles to one nibble per character, in order: the code size is the
    length of the text, the code block has half as many bytes (rounded up),
    its nibble [k] is the opcode of character [k], and the name table is
    untouched. *)
Theorem asm_operators s cs nm0 :
  Forall2 (λ c n, op_code c = Some n) s cs →
  ∃ r, b4asm s nm0 = Ok (r, Z.of_nat (length s), nm0) ∧
       length r = Z.to_nat (Z.quot (Z.of_nat (length s) + 1) 2) ∧
       holds r 0 cs.
Proof.
  intros Hcs. destruct (ops_nonzero s cs Hcs) as (Hnz & Hnib & Hlen).
  unfold b4asm. rewrite (strlen_nonzero s Hnz).
  set (q0 := replicate (Z.to_nat (Z.of_nat (length s) * 2 + 100)) None).
  pose proof (asm_ops_run s [] [] cs (Z.of_nat (length s)) 2
                (Asm q0 0 nm0 0 false) Hcs eq_refl ltac:(simpl; lia)) as E.
  rewrite app_nil_r in E. cbn [app a_q a_ip a_nm a_p a_run] in E.
  replace (text_fuel s) with (length s + 2)%nat by (unfold text_fuel; lia).
  rewrite E. clear E.
  destruct (emit_list_spec cs q0 0) as (q' & E & _ & _ & Hat & _).
  { split; [lia|]. intros H. exfalso. by apply H. }
  { unfold room, q0. rewrite length_replicate. lia. }
  { done. }
  rewrite E. cbn [mbind result_bind]. simpl b4asmS.
  rewrite Z.ltb_irrefl. cbn [mbind result_bind a_q a_ip a_nm].
  rewrite Hlen, Z.add_0_l.
  set (sz := Z.to_nat (Z.quot (Z.of_nat (length s) + 1) 2)).
  assert (2 * Z.of_nat sz - 1 ≤ Z.of_nat (length s) ≤ 2 * Z.of_nat sz) as Hsz.
  { unfold sz. rewrite Z2Nat.id by (apply Z.quot_pos; lia).
    Z.to_euclidean_division_equations. lia. }
  destruct (copy_bytes_defined q' sz 0) as [r Hr].
  { intros i Hi.
    destruct (lookup_lt_is_Some_2 cs (Z.to_nat (2 * i))) as [c Hc]; [lia|].
    apply Hat, bnib_byte in Hc.
    rewrite Z.add_0_l, Z2Nat.id in Hc by lia.
    by replace (Z.quot (2 * i) 2) with i in Hc
      by (Z.to_euclidean_division_equations; lia). }
  rewrite Hr. cbn [mbind result_bind]. exists r. split; [done|].
  destruct (copy_bytes_lookup _ _ _ _ Hr ltac:(lia)) as [Hrl _].
  split; [done|]. intros k c Hk.
  apply (copy_bytes_nibble q' sz r); [done| |by apply Hat].
  apply lookup_lt_Some in Hk. lia.
Qed.

Lemma asm_operators_witness :
  ∃ r, b4asm (codes "?-,") [] = Ok (r, 3, []) ∧
       length r = 2%nat ∧ holds r 0 [C_STA; C_SUB; C_SWP].
Proof.
  apply (asm_operators (codes "?-,") [C_STA; C_SUB; C_SWP] []).
  repeat constructor.
Defined.

(** X23. A character that no case of the assembler takes, met after
    operator characters, ends the program with the Bad opcode message
    naming it; nothing after it is read. *)
Theorem asm_bad_character s cs c rest nm0 :
  Forall2 (λ c n, op_code c = Some n) s cs →
  unknown_char c = true → c ≠ 0 →
  b4asm (s ++ c :: rest) nm0 = Exit (BadOpcode c).
Proof.
  intros Hcs Hunk Hc0.
  destruct (ops_nonzero s cs Hcs) as (Hnz & Hnib & Hlen).
  unfold b4asm. rewrite (strlen_app s (c :: rest) Hnz).
  simpl strlen. rewrite (proj2 (Z.eqb_neq _ _) Hc0).
  pose proof (strlen_nonneg rest) as Hrest.
  set (e := Z.of_nat (length s) + (1 + strlen rest)).
  set (q0 := replicate (Z.to_nat (e * 2 + 100)) None).
  pose proof (asm_ops_run s [] (c :: rest) cs e
                (S (S (S (length rest))))
                (Asm q0 0 nm0 0 false) Hcs eq_refl
                ltac:(unfold e; simpl; lia)) as E.
  cbn [app a_q a_ip a_nm a_p a_run] in E.
  replace (text_fuel (s ++ c :: rest))
    with (length s + S (S (S (length rest))))%nat
    by (unfold text_fuel; rewrite length_app; simpl; lia).
  rewrite E. clear E.
  destruct (emit_list_spec cs q0 0) as (q' & E & _ & _ & Hat & _).
  { split; [lia|]. intros H. exfalso. by apply H. }
  { unfold room, q0. rewrite length_replicate. lia. }
  { done. }
  rewrite E. cbn [mbind result_bind]. simpl b4asmS.
  cbn [a_p]. rewrite (proj2 (Z.ltb_lt _ _)) by (unfold e; lia).
  rewrite (asm_step_unknown _ _ _ c); [done| |done].
  cbn [a_p]. replace (Z.of_nat (0 + length s)) with (Z.of_nat (length s))
    by lia.
  apply char_at_lookup. by rewrite lookup_app_r, Nat.sub_diag by lia.
Qed.

Lemma asm_bad_character_witness :
  b4asm (codes "+#1") [] = Exit (BadOpcode (ch "#")).
Proof.
  apply (asm_bad_character (codes "+") [C_ADD] (ch "#") (codes "1") []).
  - repeat constructor.
  - reflexivity.
  - discriminate.
Defined.

(** ** Identifiers *)

Lemma ident_loop_spec s t cs : ∀ name0 fuel p,
  text_at s p (cs ++ [t]) → Forall (λ c, ident_char c = true) cs →
  ident_char t = false → (length cs < fuel)%nat →
  Z.of_nat (length name0) < MAXNM →
  ident_loop fuel s p name0 =
  if Z.of_nat (length name0 + length cs) <? MAXNM
  then Ok (name0 ++ cs, p + Z.of_nat (length cs))
  else Exit NameTooLong.
Proof.
  induction cs as [|c cs IH]; intros name0 fuel p Ht Hcs Hnt Hfuel Hn0;
    (destruct fuel as [|fuel]; [simpl in Hfuel; lia|]).
  - apply text_at_cons in Ht as [Ht _]. simpl ident_loop. rewrite Ht.
    cbn [mbind result_bind]. unfold ident_char in Hnt. rewrite Hnt.
    simpl length. rewrite Nat.add_0_r, (proj2 (Z.ltb_lt _ _)) by done.
    by rewrite app_nil_r, Z.add_0_r.
  - simpl app in Ht. apply text_at_cons in Ht as [Hc Ht].
    apply Forall_cons in Hcs as [Hc1 Hcs]. simpl ident_loop. rewrite Hc.
    cbn [mbind result_bind]. unfold ident_char in Hc1. rewrite Hc1.
    rewrite length_app. simpl length.
    destruct (Z.eqb_spec (Z.of_nat (length name0 + 1)) MAXNM) as [Heq|Hne].
    + by rewrite (proj2 (Z.ltb_ge _ _)) by lia.
    + rewrite (IH (name0 ++ [c]) fuel (p + 1)); try done.
      * rewrite length_app. simpl length.
        replace (length name0 + 1 + length cs)%nat
          with (length name0 + S (length cs))%nat by lia.
        destruct (_ <? MAXNM); [|done].
        rewrite <- app_assoc. simpl. do 2 f_equal. lia.
      * simpl in Hfuel. lia.
      * rewrite length_app. simpl. lia.
Qed.

(** X24. An identifier is the longest run of letters, digits and
    underscores that starts at a letter or underscore.  With fewer than
    [MAXNM] characters it is interned and the literal of its id is
    written, followed by a CALL code when a [.] stood before it; with
    [MAXNM] characters or more the program ends with the message that the
    name is too long. *)
Theorem identifier_run s e a name t :
  text_at s (a_p a) (name ++ [t]) →
  name ≠ [] → ident_start (hd 0 name) = true →
  Forall (λ c, ident_char c = true) name → ident_char t = false →
  asm_step s e a =
  if Z.of_nat (length name) <? MAXNM then
    '(id, nm') ← sym name (a_nm a);
    '(q, i) ← emitBCD (a_q a) (a_ip a) id;
    let p := a_p a + Z.of_nat (length name) in
    if a_run a then '(q, i) ← emit q i C_RUN; Ok (Asm q i nm' p false)
    else Ok (Asm q i nm' p false)
  else Exit NameTooLong.
Proof.
  intros Ht Hne Hstart Hname Hnt. destruct name as [|c cs]; [done|].
  pose proof (char_at_range s (a_p a) c) as Hp.
  pose proof (text_at_length s (a_p a) ((c :: cs) ++ [t])) as Hlen.
  simpl app in Ht. apply text_at_cons in Ht as [Hc Ht].
  specialize (Hp Hc). rewrite length_app in Hlen. simpl length in Hlen.
  apply Forall_cons in Hname as [_ Hcs]. simpl hd in Hstart.
  unfold asm_step. rewrite Hc. cbn [mbind result_bind].
  unfold ident_start in Hstart. rewrite Hstart.
  cbn [a_q a_ip a_nm a_p a_run].
  rewrite (ident_loop_spec s t cs [c] (text_fuel s) (a_p a + 1)); try done.
  - simpl length.
    replace (Z.of_nat (S (length cs))) with (Z.of_nat (1 + length cs)) by lia.
    destruct (_ <? MAXNM); [|done]. cbn [mbind result_bind app].
    destruct (sym (c :: cs) (a_nm a)) as [[id nm']| | |];
      cbn [mbind result_bind]; [|done..].
    destruct (emitBCD (a_q a) (a_ip a) id) as [[q i]| | |];
      cbn [mbind result_bind a_q a_ip a_nm a_p a_run]; [|done..].
    replace (a_p a + 1 + Z.of_nat (length cs))
      with (a_p a + Z.of_nat (1 + length cs)) by lia.
    by destruct (a_run a) eqn:Hrun.
  - unfold text_fuel.
    specialize (Hlen ltac:(lia) ltac:(done)).
    assert (text_at s (a_p a) (c :: cs ++ [t])) as Hall
      by by apply text_at_cons.
    specialize (Hlen Hall). lia.
Qed.

Lemma identifier_run_witness :
  ∃ q', asm_step (codes "ab+") 3 (Asm (replicate 8 None) 0 [] 0 false) =
        Ok (Asm q' 2 [codes "ab"] 2 false).
Proof.
  rewrite (identifier_run (codes "ab+") 3 (Asm (replicate 8 None) 0 [] 0 false)
             (codes "ab") (ch "+")).
  - eexists. vm_compute. reflexivity.
  - intros [|[|[|k]]] c Hk; simpl in Hk; try done; injection Hk as <-;
      reflexivity.
  - discriminate.
  - reflexivity.
  - repeat constructor.
  - reflexivity.
Defined.

(** ** Quoted strings *)

Lemma item_text_length it : (1 ≤ length (item_text it))%nat.
Proof. destruct it; simpl; lia. Qed.

Lemma items_text_length items :
  (length items ≤ length (concat (map item_text items)))%nat.
Proof.
  induction items as [|it items IH]; simpl; [done|].
  rewrite length_app. pose proof (item_text_length it). lia.
Qed.

Lemma quote_loop_items s end_ items : ∀ fuel q i p,
  text_at s p (concat (map item_text items)) → Forall item_ok items →
  p + Z.of_nat (length (concat (map item_text items))) ≤ end_ →
  quote_loop (length items + fuel) s end_ q i p =
  '(q', i') ← emitBCD_list q i (map item_char items);
  quote_loop fuel s end_ q' i'
             (p + Z.of_nat (length (concat (map item_text items)))).
Proof.
  induction items as [|it items IH]; intros fuel q i p Ht Hok Hend.
  - simpl. by rewrite Z.add_0_r.
  - apply Forall_cons in Hok as [Hit Hok].
    simpl map in *. simpl concat in *. rewrite length_app in *.
    apply text_at_app in Ht as [Hhd Ht].
    pose proof (item_text_length it) as Hl.
    simpl length. simpl quote_loop.
    rewrite (proj2 (Z.ltb_lt _ _)) by lia.
    destruct it as [c|c]; simpl in Hit, Hhd, Ht, Hend, Hl |- *.
    + destruct Hit as [Hq Hb]. apply text_at_cons in Hhd as [Hc _].
      rewrite Hc. cbn [mbind result_bind].
      rewrite (proj2 (Z.eqb_neq _ _) Hq), (proj2 (Z.eqb_neq _ _) Hb).
      cbn [negb]. rewrite Hc. cbn [mbind result_bind].
      destruct (emitBCD q i c) as [[q1 i1]| | |]; cbn [mbind result_bind];
        [|done..].
      rewrite IH by (done || lia).
      destruct (emitBCD_list q1 i1 _) as [[q2 i2]| | |];
        cbn [mbind result_bind]; [|done..].
      f_equal. lia.
    + apply text_at_cons in Hhd as [Hb Hhd].
      apply text_at_cons in Hhd as [Hc _].
      rewrite Hb. cbn [mbind result_bind].
      change (ch "\" =? ch "'") with false.
      change (ch "\" =? ch "\") with true. cbn [negb]. rewrite Hc.
      cbn [mbind result_bind].
      destruct (emitBCD q i c) as [[q1 i1]| | |]; cbn [mbind result_bind];
        [|done..].
      replace (p + 1 + 1) with (p + 2) by lia.
      rewrite IH by (done || lia).
      destruct (emitBCD_list q1 i1 _) as [[q2 i2]| | |];
        cbn [mbind result_bind]; [|done..].
      f_equal. lia.
Qed.

Lemma emitBCD_list_spec vs : ∀ q i,
  Forall (λ v, 0 ≤ v < 2^31) vs → buf_ok q i →
  room q i (12 * Z.of_nat (length vs)) →
  ∃ dss q',
    Forall2 numeral vs dss ∧
    emitBCD_list q i vs =
      Ok (q', i + Z.of_nat (length (concat (map bcd_code dss)))) ∧
    buf_ok q' (i + Z.of_nat (length (concat (map bcd_code dss)))) ∧
    length q' = length q ∧
    (∀ k c, concat (map bcd_code dss) !! k = Some c →
            bnib q' (i + Z.of_nat k) = Some c) ∧
    (∀ j, 0 ≤ j < i → bnib q' j = bnib q j) ∧
    Z.of_nat (length (concat (map bcd_code dss))) ≤ 12 * Z.of_nat (length vs).
Proof.
  induction vs as [|v vs IH]; intros q i Hvs Hok Hroom.
  - exists [], q. simpl. rewrite Z.add_0_r. by split_and!.
  - apply Forall_cons in Hvs as [Hv Hvs]. unfold room in Hroom.
    simpl length in Hroom.
    destruct (emitBCD_spec q i v Hv Hok)
      as (ds & q1 & Hnum & E1 & Hok1 & Hlen1 & Hat1 & Hfr1 & Hle1).
    { unfold room. lia. }
    set (n1 := length (bcd_code ds)) in *.
    destruct (IH q1 (i + Z.of_nat n1) Hvs Hok1)
      as (dss & q2 & Hnums & E2 & Hok2 & Hlen2 & Hat2 & Hfr2 & Hle2).
    { unfold room. rewrite Hlen1. lia. }
    exists (ds :: dss), q2. simpl map. simpl concat. rewrite length_app.
    fold n1. set (n2 := length (concat (map bcd_code dss))) in *.
    replace (i + Z.of_nat (n1 + n2)) with (i + Z.of_nat n1 + Z.of_nat n2)
      by lia.
    split_and!.
    + by constructor.
    + simpl. rewrite E1. cbn [mbind result_bind]. by rewrite E2.
    + done.
    + congruence.
    + intros k c Hk.
      destruct (decide (k < n1)%nat) as [Hlt|Hge].
      * rewrite lookup_app_l in Hk by done.
        rewrite Hfr2 by (destruct Hok; lia). by apply Hat1.
      * rewrite lookup_app_r in Hk by lia. fold n1 in Hk.
        apply Hat2 in Hk.
        by replace (i + Z.of_nat n1 + Z.of_nat (k - n1))
          with (i + Z.of_nat k) in Hk by lia.
    + intros j Hj. rewrite Hfr2 by lia. by apply Hfr1.
    + simpl length. lia.
Qed.

Lemma asm_step_quote s e a :
  char_at s (a_p a) = Ok (ch "'") →
  asm_step s e a =
  '(q, i) ← emitBCD (a_q a) (a_ip a) 0;
  '(q, i, p) ← quote_loop (text_fuel s) s e q i (a_p a + 1);
  if p =? e then Exit UnterminatedQuote
  else Ok (Asm q i (a_nm a) (p + 1) (a_run a)).
Proof. intros Hc. unfold asm_step. by rewrite Hc. Qed.

Lemma quote_run s e a items :
  text_at s (a_p a + 1) (concat (map item_text items)) →
  Forall item_ok items → 0 ≤ a_p a →
  a_p a + 1 + Z.of_nat (length (concat (map item_text items))) ≤ e →
  ∃ fuel,
    ('(q, i) ← emitBCD (a_q a) (a_ip a) 0;
     quote_loop (text_fuel s) s e q i (a_p a + 1)) =
    ('(q, i) ← emitBCD_list (a_q a) (a_ip a) (0 :: map item_char items);
     quote_loop (S (S fuel)) s e q i
       (a_p a + 1 + Z.of_nat (length (concat (map item_text items))))).
Proof.
  intros Ht Hok Hp He.
  pose proof (items_text_length items) as Hl.
  assert (Z.of_nat (length (concat (map item_text items))) ≤
          Z.of_nat (length s)) as Hs.
  { destruct (concat (map item_text items)) as [|c t] eqn:E; [simpl; lia|].
    pose proof (text_at_length s (a_p a + 1) (c :: t) ltac:(lia)
                  ltac:(done) Ht). lia. }
  exists (length s - length items)%nat.
  replace (text_fuel s)
    with (length items + S (S (length s - length items)))%nat
    by (unfold text_fuel; lia).
  simpl emitBCD_list.
  destruct (emitBCD (a_q a) (a_ip a) 0) as [[q1 i1]| | |];
    cbn [mbind result_bind]; [|done..].
  by rewrite quote_loop_items.
Qed.

(** X25. A quoted string.  Between the quotes every character stands for
    itself, except that a backslash makes the character after it stand for
    itself, a quote or a backslash included.  The assembler writes the
    literal 0 and then the literal of each character's code, in order, and
    goes on after the closing quote. *)
Theorem quoted_string s e a items :
  char_at s (a_p a) = Ok (ch "'") →
  text_at s (a_p a + 1) (concat (map item_text items) ++ [ch "'"]) →
  Forall item_ok items → Forall (λ it, 0 ≤ item_char it < 2^31) items →
  a_p a + 1 + Z.of_nat (length (concat (map item_text items))) < e →
  buf_ok (a_q a) (a_ip a) →
  room (a_q a) (a_ip a) (12 * (Z.of_nat (length items) + 1)) →
  ∃ dss q',
    Forall2 numeral (0 :: map item_char items) dss ∧
    let cs := concat (map bcd_code dss) in
    asm_step s e a =
      Ok (Asm q' (a_ip a + Z.of_nat (length cs)) (a_nm a)
              (a_p a + Z.of_nat (length (concat (map item_text items))) + 2)
              (a_run a)) ∧
    emitted q' (a_ip a) (a_ip a + Z.of_nat (length cs)) = Some cs.
Proof.
  intros Hc Ht Hok Hval He Hbuf Hroom.
  pose proof (char_at_range _ _ _ Hc) as [Hp _].
  apply text_at_app in Ht as [Ht Hq]. apply text_at_cons in Hq as [Hq _].
  destruct (quote_run s e a items Ht Hok Hp ltac:(lia)) as [fuel Hrun].
  destruct (emitBCD_list_spec (0 :: map item_char items) (a_q a) (a_ip a))
    as (dss & q' & Hnums & E & _ & _ & Hat & _ & _).
  { constructor; [by vm_compute|]. by apply Forall_map. }
  { done. }
  { unfold room in *. simpl length. rewrite length_map. lia. }
  exists dss, q'. split; [done|]. split; [|by apply emitted_written].
  rewrite (asm_step_quote s e a Hc).
  transitivity
    ('(q, i, p) ← ('(q, i) ← emitBCD (a_q a) (a_ip a) 0;
                   quote_loop (text_fuel s) s e q i (a_p a + 1));
     if p =? e then Exit UnterminatedQuote
     else Ok (Asm q i (a_nm a) (p + 1) (a_run a))).
  { by destruct (emitBCD (a_q a) (a_ip a) 0) as [[q1 i1]| | |]. }
  rewrite Hrun, E. cbn [mbind result_bind]. simpl quote_loop.
  rewrite (proj2 (Z.ltb_lt _ _)) by lia. rewrite Hq.
  cbn [mbind result_bind]. rewrite Z.eqb_refl. cbn [negb mbind result_bind].
  rewrite (proj2 (Z.eqb_neq _ _)) by lia. do 2 f_equal. lia.
Qed.

Lemma quoted_string_witness :
  ∃ dss q',
    Forall2 numeral [0; ch "a"; ch "'"] dss ∧
    let cs := concat (map bcd_code dss) in
    asm_step (codes "'a\''") 5 (Asm (replicate 20 None) 0 [] 0 false) =
      Ok (Asm q' (0 + Z.of_nat (length cs)) [] 5 false) ∧
    emitted q' 0 (0 + Z.of_nat (length cs)) = Some cs.
Proof.
  apply (quoted_string (codes "'a\''") 5 (Asm (replicate 20 None) 0 [] 0 false)
           [Plain (ch "a"); Escaped (ch "'")]).
  - reflexivity.
  - intros [|[|[|[|[|k]]]]] c Hk; simpl in Hk; try done; injection Hk as <-;
      reflexivity.
  - repeat constructor; discriminate.
  - repeat constructor; by vm_compute.
  - simpl. lia.
  - split; [simpl; lia|]. intros H. exfalso. apply H. reflexivity.
  - unfold room. simpl. lia.
Defined.

(** X26. A string whose closing quote is missing: when the text ends
    inside the string, after a complete character, the program ends with
    the Unterminated quote message (as long as the output buffer has room
    for what was written before). *)
Theorem unterminated_quote s e a items :
  char_at s (a_p a) = Ok (ch "'") →
  text_at s (a_p a + 1) (concat (map item_text items)) →
  Forall item_ok items → Forall (λ it, 0 ≤ item_char it < 2^31) items →
  e = a_p a + 1 + Z.of_nat (length (concat (map item_text items))) →
  buf_ok (a_q a) (a_ip a) →
  room (a_q a) (a_ip a) (12 * (Z.of_nat (length items) + 1)) →
  asm_step s e a = Exit UnterminatedQuote.
Proof.
  intros Hc Ht Hok Hval He Hbuf Hroom.
  pose proof (char_at_range _ _ _ Hc) as [Hp _].
  destruct (quote_run s e a items Ht Hok Hp ltac:(lia)) as [fuel Hrun].
  destruct (emitBCD_list_spec (0 :: map item_char items) (a_q a) (a_ip a))
    as (dss & q' & Hnums & E & _).
  { constructor; [by vm_compute|]. by apply Forall_map. }
  { done. }
  { unfold room in *. simpl length. rewrite length_map. lia. }
  rewrite (asm_step_quote s e a Hc).
  transitivity
    ('(q, i, p) ← ('(q, i) ← emitBCD (a_q a) (a_ip a) 0;
                   quote_loop (text_fuel s) s e q i (a_p a + 1));
     if p =? e then Exit UnterminatedQuote
     else Ok (Asm q i (a_nm a) (p + 1) (a_run a))).
  { by destruct (emitBCD (a_q a) (a_ip a) 0) as [[q1 i1]| | |]. }
  rewrite Hrun, E. cbn [mbind result_bind]. simpl quote_loop.
  rewrite <- He, Z.ltb_irrefl. cbn [mbind result_bind].
  by rewrite Z.eqb_refl.
Qed.

Lemma unterminated_quote_witness :
  asm_step (codes "'ab") 3 (Asm (replicate 20 None) 0 [] 0 false) =
  Exit UnterminatedQuote.
Proof.
  apply (unterminated_quote (codes "'ab") 3
           (Asm (replicate 20 None) 0 [] 0 false)
           [Plain (ch "a"); Plain (ch "b")]).
  - reflexivity.
  - intros [|[|[|k]]] c Hk; simpl in Hk; try done; injection Hk as <-;
      reflexivity.
  - repeat constructor; discriminate.
  - repeat constructor; by vm_compute.
  - reflexivity.
  - split; [simpl; lia|]. intros H. exfalso. apply H. reflexivity.
  - unfold room. simpl. lia.
Defined.

Lemma quote_loop_S fuel s end_ q i p :
  quote_loop (S fuel) s end_ q i p =
  if p <? end_ then
    c ← char_at s p;
    if negb (c =? ch "'") then
      let p := if c =? ch "\" then p + 1 else p in
      c ← char_at s p;
      '(q, i) ← emitBCD q i c;
      quote_loop fuel s end_ q i (p + 1)
    else Ok (q, i, p)
  else Ok (q, i, p).
Proof. reflexivity. Qed.

Lemma emitBCD_list_app vs1 : ∀ vs2 q i,
  emitBCD_list q i (vs1 ++ vs2) =
  '(q, i) ← emitBCD_list q i vs1; emitBCD_list q i vs2.
Proof.
  induction vs1 as [|v vs1 IH]; intros vs2 q i; simpl; [done|].
  destruct (emitBCD q i v) as [[q1 i1]| | |]; simpl; [|done..]. apply IH.
Qed.

(** X27. The exception to X26: when the text ends inside a string right
    after a backslash, no error is reported.  The backslash takes the NUL
    that ends the text as its character, the literal 0 is written for it,
    and the assembler stops two positions past the end of the text. *)
Theorem trailing_backslash s a items :
  char_at s (a_p a) = Ok (ch "'") →
  text_at s (a_p a + 1) (concat (map item_text items) ++ [ch "\"]) →
  Forall item_ok items → Forall (λ it, 0 ≤ item_char it < 2^31) items →
  Z.of_nat (length s) =
    a_p a + 1 + Z.of_nat (length (concat (map item_text items))) + 1 →
  buf_ok (a_q a) (a_ip a) →
  room (a_q a) (a_ip a) (12 * (Z.of_nat (length items) + 2)) →
  ∃ dss q',
    Forall2 numeral (0 :: map item_char items ++ [0]) dss ∧
    let cs := concat (map bcd_code dss) in
    asm_step s (Z.of_nat (length s)) a =
      Ok (Asm q' (a_ip a + Z.of_nat (length cs)) (a_nm a)
              (Z.of_nat (length s) + 2) (a_run a)) ∧
    emitted q' (a_ip a) (a_ip a + Z.of_nat (length cs)) = Some cs.
Proof.
  intros Hc Ht Hok Hval He Hbuf Hroom.
  pose proof (char_at_range _ _ _ Hc) as [Hp _].
  apply text_at_app in Ht as [Ht Hb]. apply text_at_cons in Hb as [Hb _].
  destruct (quote_run s (Z.of_nat (length s)) a items Ht Hok Hp ltac:(lia))
    as [fuel Hrun].
  destruct (emitBCD_list_spec (0 :: map item_char items ++ [0])
              (a_q a) (a_ip a))
    as (dss & q' & Hnums & E & _ & _ & Hat & _ & _).
  { constructor; [by vm_compute|]. apply Forall_app. split.
    - by apply Forall_map.
    - by repeat constructor. }
  { done. }
  { unfold room in *. simpl length. rewrite length_app, length_map.
    simpl length. lia. }
  exists dss, q'. split; [done|]. split; [|by apply emitted_written].
  rewrite (asm_step_quote s _ a Hc).
  transitivity
    ('(q, i, p) ← ('(q, i) ← emitBCD (a_q a) (a_ip a) 0;
                   quote_loop (text_fuel s) s (Z.of_nat (length s)) q i
                              (a_p a + 1));
     if p =? Z.of_nat (length s) then Exit UnterminatedQuote
     else Ok (Asm q i (a_nm a) (p + 1) (a_run a))).
  { by destruct (emitBCD (a_q a) (a_ip a) 0) as [[q1 i1]| | |]. }
  rewrite Hrun. clear Hrun.
  change (0 :: map item_char items ++ [0])
    with ((0 :: map item_char items) ++ [0]) in E.
  rewrite emitBCD_list_app in E.
  destruct (emitBCD_list (a_q a) (a_ip a) (0 :: map item_char items))
    as [[q1 i1]| | |]; cbn [mbind result_bind] in E |- *; [|done..].
  simpl emitBCD_list in E. rewrite quote_loop_S.
  rewrite (proj2 (Z.ltb_lt _ _)) by lia. rewrite Hb.
  cbn [mbind result_bind].
  change (ch "\" =? ch "'") with false.
  change (ch "\" =? ch "\") with true. cbn [negb]. cbv zeta iota.
  replace (a_p a + 1 +
           Z.of_nat (length (concat (map item_text items))) + 1)
    with (Z.of_nat (length s)) by lia.
  unfold char_at at 1. rewrite Z.eqb_refl. cbn [mbind result_bind].
  destruct (emitBCD q1 i1 0) as [[q2 i2]| | |];
    cbn [mbind result_bind] in E |- *; [|done..].
  injection E as -> ->. rewrite quote_loop_S.
  rewrite (proj2 (Z.ltb_ge _ _)) by lia. cbn [mbind result_bind].
  rewrite (proj2 (Z.eqb_neq _ _)) by lia. do 2 f_equal. lia.
Qed.

Lemma trailing_backslash_witness :
  ∃ dss q',
    Forall2 numeral [0; ch "a"; 0] dss ∧
    let cs := concat (map bcd_code dss) in
    asm_step (codes "'a\") 3 (Asm (replicate 20 None) 0 [] 0 false) =
      Ok (Asm q' (0 + Z.of_nat (length cs)) [] 5 false) ∧
    emitted q' 0 (0 + Z.of_nat (length cs)) = Some cs.
Proof.
  apply (trailing_backslash (codes "'a\")
           (Asm (replicate 20 None) 0 [] 0 false) [Plain (ch "a")]).
  - reflexivity.
  - intros [|[|k]] c Hk; simpl in Hk; try done; injection Hk as <-;
      reflexivity.
  - repeat constructor; discriminate.
  - repeat constructor; by vm_compute.
  - reflexivity.
  - split; [simpl; lia|]. intros H. exfalso. apply H. reflexivity.
  - unfold room. simpl. lia.
Defined.

(** ** Multiplication *)

(** X28. MUL pops two values and pushes their product, reduced to 32 bits
    as two's complement; when the product fits in 32 bits it is pushed as
    it is.  The rest of the stack and the register are unchanged. *)
Theorem mul_operands m c m1 l a b :
  rd m = Ok (c, m1) → Z.land c 15 = C_MUL →
  stack_ok m → stack m = l ++ [a; b] →
  ∃ m', exe_op jmp m = Ok (Continue, m') ∧
        stack m' = l ++ [wrap32 (a * b)] ∧
        (- 2^31 ≤ a * b < 2^31 → stack m' = l ++ [a * b]) ∧
        ra m' = ra m ∧ ip m' = ip m + 1.
Proof.
  intros Hrd Hc [_ Hsp] Hst. pose proof (rd_inv _ _ _ Hrd) as [_ ->].
  unfold exe_op. rewrite Hrd. cbn -[Z.land]. rewrite Hc. cbn.
  destruct (binop_stack (λ x y, wrap32 (x * y)) (set_ip (ip m + 1) m) l a b
              Hsp Hst) as (m' & E & H1 & H2 & H3 & _).
  exists m'. rewrite E, H1, (Z.mul_comm b a). split_and!; try done.
  intros Hfit. by rewrite wrap32_id.
Qed.

Lemma mul_operands_witness :
  ∃ m', exe_op jmp (at_code C_MUL) = Ok (Continue, m') ∧
        stack m' = [] ++ [wrap32 (5 * 6)] ∧
        (- 2^31 ≤ 5 * 6 < 2^31 → stack m' = [] ++ [5 * 6]) ∧
        ra m' = ra (at_code C_MUL) ∧ ip m' = ip (at_code C_MUL) + 1.
Proof.
  apply (mul_operands (at_code C_MUL) C_MUL (set_ip 1 (at_code C_MUL))
           [] 5 6).
  - reflexivity.
  - reflexivity.
  - split; simpl; lia.
  - reflexivity.
Defined.
